(** * The extrinsic self-calibration node of vmav-ros-pkg

    A shallow embedding of
    [calibration/self_multicam_calibration/src/self_multicam_calibration_node.cpp]:
    the configuration parser ([parseTokenFromString], [parseConfigFile]),
    the synchronized-image callback ([voCallback]) and the bag replay driver
    ([main]).  Strings are [std::string]s of 8-bit characters, [size_t] is a
    64-bit unsigned integer whose wrap-around is written out, vectors are
    lists whose [.at(i)] raises [std::out_of_range] past the end. *)

From Stdlib Require Import ZArith Lia Bool List Ascii String.
Import ListNotations.

Open Scope string_scope.
Open Scope Z_scope.

(** ** [size_t] and [std::string] *)

Module StdString.

Definition size_t_modulus : Z := 2 ^ 64.

(** [std::string::npos], that is [size_t(-1)]. *)
Definition npos : Z := size_t_modulus - 1.

(** Arithmetic on [size_t] is modulo [2^64]. *)
Definition size_t_add (a b : Z) : Z := (a + b) mod size_t_modulus.

Definition size (s : string) : Z := Z.of_nat (String.length s).

Definition empty (s : string) : bool :=
  match s with
  | EmptyString => true
  | String _ _ => false
  end.

Fixpoint take (n : nat) (s : string) : string :=
  match n, s with
  | S n', String c t => String c (take n' t)
  | _, _ => EmptyString
  end.

Fixpoint drop (n : nat) (s : string) : string :=
  match n, s with
  | S n', String _ t => drop n' t
  | _, _ => s
  end.

(** [s.find(c)] for a one-character needle, scanning from index [i]:
    the index of the first occurrence, [npos] when there is none. *)
Fixpoint find_from (c : ascii) (s : string) (i : Z) : Z :=
  match s with
  | EmptyString => npos
  | String a t => if Ascii.eqb a c then i else find_from c t (i + 1)
  end.

Definition find (s : string) (c : ascii) : Z := find_from c s 0.

(** [s.substr(pos, n)]: at most [n] characters from [pos]
    (callers here always pass [pos <= size s]). *)
Definition substr (s : string) (pos n : Z) : string :=
  take (Z.to_nat (Z.min n (size s - pos))) (drop (Z.to_nat pos) s).

(** [s.erase(pos, n)]: removes at most [n] characters from [pos]. *)
Definition erase (s : string) (pos n : Z) : string :=
  take (Z.to_nat pos) s
  ++ drop (Z.to_nat (pos + Z.min n (size s - pos))) s.

(** [std::toupper] in the classic locale. *)
Definition toupper (c : ascii) : ascii :=
  let n := nat_of_ascii c in
  if (andb (97 <=? n) (n <=? 122))%nat then ascii_of_nat (n - 32) else c.

(** [boost::iequals]: same length, characters equal after [toupper]. *)
Fixpoint iequals (a b : string) : bool :=
  match a, b with
  | EmptyString, EmptyString => true
  | String x a', String y b' =>
      andb (Ascii.eqb (toupper x) (toupper y)) (iequals a' b')
  | _, _ => false
  end.

(** [s.c_str()] as a [%s] conversion prints it: the characters before the
    first NUL. *)
Fixpoint c_str (s : string) : string :=
  match s with
  | EmptyString => EmptyString
  | String c t =>
      if Ascii.eqb c Ascii.zero then EmptyString else String c (c_str t)
  end.

End StdString.
Import StdString.

Definition space : ascii := " "%char.
Definition newline : ascii := ascii_of_nat 10.

(** ** [parseTokenFromString]

    The three reference parameters are passed in and returned. *)

Definition parseTokenFromString (s token : string) (pos : Z)
  : bool * (string * string * Z) :=
  if empty s then (false, (s, token, pos))
  else
    let pos := find s space in
    let token := substr s 0 pos in
    let s := erase s 0 (size_t_add pos 1) in
    (true, (s, token, pos)).

(** ** [parseConfigFile] *)

(** The locals and reference parameters of [parseConfigFile], and the
    messages it hands to [ROS_ERROR]. *)
Record ParseState : Type := mkParseState {
  hasStereo : bool;
  hasIMU : bool;
  cameraNs : list (list string);
  imuTopicName : string;
  rosErrors : list string
}.

Definition initialParseState : ParseState :=
  mkParseState false false [] "" [].

Definition ROS_ERROR (msg : string) (st : ParseState) : ParseState :=
  mkParseState (hasStereo st) (hasIMU st) (cameraNs st) (imuTopicName st)
               (rosErrors st ++ [msg]).

Definition pushStereo (l r : string) (st : ParseState) : ParseState :=
  mkParseState true (hasIMU st) (cameraNs st ++ [[l; r]]) (imuTopicName st)
               (rosErrors st).

Definition pushMono (t : string) (st : ParseState) : ParseState :=
  mkParseState (hasStereo st) (hasIMU st) (cameraNs st ++ [[t]])
               (imuTopicName st) (rosErrors st).

Definition setIMU (t : string) (st : ParseState) : ParseState :=
  mkParseState (hasStereo st) true (cameraNs st) t (rosErrors st).

(** What one turn of the [while] body does: go round again, or leave the
    function with [return false]. *)
Inductive LineOutcome : Type :=
| Continue (st : ParseState)
| ReturnFalse (st : ParseState).

(** The body of the [while (ifs.good())] loop, after [std::getline] has put
    the line in [s]. *)
Definition lineBody (st : ParseState) (s : string) : LineOutcome :=
  if empty s then Continue st
  else
    let '(ok, (s, token, pos)) := parseTokenFromString s "" 0 in
    if negb ok then Continue st
    else if iequals token "stereo" then
      let '(ok, (s, leftTopicName, pos)) := parseTokenFromString s "" pos in
      if negb ok then
        ReturnFalse
          (ROS_ERROR "The stereo camera sensor is improperly defined." st)
      else
        let '(ok, (s, rightTopicName, pos)) := parseTokenFromString s "" pos in
        if negb ok then
          ReturnFalse
            (ROS_ERROR "The stereo camera sensor is improperly defined." st)
        else Continue (pushStereo leftTopicName rightTopicName st)
    else if iequals token "mono" then
      let '(ok, (s, topicName, pos)) := parseTokenFromString s "" pos in
      if negb ok then
        ReturnFalse
          (ROS_ERROR "The mono camera sensor is improperly defined." st)
      else Continue (pushMono topicName st)
    else if iequals token "imu" then
      if hasIMU st then
        ReturnFalse
          (ROS_ERROR "A duplicate definition was found for the imu sensor." st)
      else
        let '(ok, (s, topic, pos)) :=
          parseTokenFromString s (imuTopicName st) pos in
        if negb ok then
          ReturnFalse (ROS_ERROR "The IMU sensor is improperly defined." st)
        else Continue (setIMU topic st)
    else ReturnFalse (ROS_ERROR ("Unknown sensor type: " ++ c_str token) st).

(** [std::ifstream]: the characters not yet read and the two state bits the
    loop depends on. *)
Record ifstream : Type := mkIfstream {
  unread : string;
  eofbit : bool;
  failbit : bool
}.

Definition good (ifs : ifstream) : bool :=
  negb (eofbit ifs) && negb (failbit ifs).

(** Characters up to the first newline; the rest after it when there is one. *)
Fixpoint untilNewline (s : string) : string * option string :=
  match s with
  | EmptyString => (EmptyString, None)
  | String c t =>
      if Ascii.eqb c newline then (EmptyString, Some t)
      else let '(l, r) := untilNewline t in (String c l, r)
  end.

(** [std::getline(ifs, s)] on a good stream: the delimiter is extracted and
    dropped; reaching the end sets [eofbit], and [failbit] too when nothing
    was extracted. *)
Definition getline (ifs : ifstream) : ifstream * string :=
  match untilNewline (unread ifs) with
  | (l, Some rest) => (mkIfstream rest false false, l)
  | (l, None) => (mkIfstream EmptyString true (empty l), l)
  end.

(** What [parseConfigFile] leaves behind: its return value and the state of
    its reference parameters at that point. *)
Record ParseResult : Type := mkParseResult {
  accepted : bool;
  final : ParseState
}.

(** The check after the loop. *)
Definition afterLoop (st : ParseState) : ParseResult :=
  if negb (hasStereo st) || negb (hasIMU st)
  then mkParseResult false st
  else mkParseResult true st.

(** [while (ifs.good()) { ... }], by recursion on a step budget. *)
Fixpoint whileGood (fuel : nat) (ifs : ifstream) (st : ParseState)
  : option ParseResult :=
  match fuel with
  | O => None
  | S fuel' =>
      if good ifs then
        let '(ifs', s) := getline ifs in
        match lineBody st s with
        | Continue st' => whileGood fuel' ifs' st'
        | ReturnFalse st' => Some (mkParseResult false st')
        end
      else Some (afterLoop st)
  end.

(** The file system's answer for the configuration path: [None] when the
    file cannot be opened, its bytes otherwise. *)
Definition ConfigFile : Type := option string.

(** Every turn of the loop consumes a character or ends the stream, so
    [length content + 2] turns always suffice ([parseConfigFile_lines]
    below): the [None] branch is never taken. *)
Definition parseConfigFile (configFile : ConfigFile) : ParseResult :=
  match configFile with
  | None => mkParseResult false initialParseState
  | Some content =>
      match whileGood (S (S (String.length content)))
                      (mkIfstream content false false) initialParseState with
      | Some r => r
      | None => mkParseResult false initialParseState
      end
  end.

(** Line 246-250 of [main]: the camera count. *)
Definition cameraCount (ns : list (list string)) : nat :=
  fold_left (fun n v => (n + List.length v)%nat) ns 0%nat.


(** ** Exceptions and [std::vector::at] *)

Inductive Exn : Type :=
| out_of_range        (* std::out_of_range, from [.at(i)] *)
| null_pointer.       (* [operator->] on an empty [boost::shared_ptr] *)

Inductive Res (A : Type) : Type :=
| Ok (a : A)
| Throw (e : Exn).
Arguments Ok {A} a.
Arguments Throw {A} e.

Definition bind {A B : Type} (m : Res A) (k : A -> Res B) : Res B :=
  match m with
  | Ok a => k a
  | Throw e => Throw e
  end.

Notation "x <- m ;; k" := (bind m (fun x => k))
  (at level 61, m at next level, right associativity).

Definition at_ {A : Type} (v : list A) (i : nat) : Res A :=
  match nth_error v i with
  | Some a => Ok a
  | None => Throw out_of_range
  end.

(** ** Messages *)

(** [ros::Time]: seconds and nanoseconds; [==] compares both. *)
Record Time : Type := mkTime { sec : Z; nsec : Z }.

Definition Time_eqb (a b : Time) : bool :=
  (sec a =? sec b) && (nsec a =? nsec b).

Definition N_CAMERAS : nat := 4.

(** Size bound of the inertial-sample buffer (line 435). *)
Definition IMU_BUFFER_MAX : nat := 50.

(** What a [SetCameraInfo] service call comes back with: a reply with its
    success flag and status message, or no reply. *)
Inductive ServiceReply : Type :=
| Processed (status_message : string)
| NotProcessed (status_message : string)
| NoReply.

Section Node.

(** Payloads whose content the node never inspects. *)
Variable Pixels : Type.          (* the data of a sensor_msgs::Image *)
Variable Mat : Type.             (* cv::Mat *)
Variable Inertial : Type.        (* rates and accelerations of an Imu *)
Variable CameraInfo : Type.      (* px_comm::CameraInfo *)
Variable Sync : Type.            (* message_filters::TimeSynchronizer *)

(** [cv_bridge::toCvShare] followed by [copyTo]; [None] stands for a
    thrown [cv_bridge::Exception].  The text of the exception is not
    modelled: the error event of [voCallback] carries the prefix of the
    line that is logged. *)
Variable toCvShare : Time * Pixels -> option Mat.

Definition Image : Type := (Time * Pixels)%type.
Definition Imu : Type := (Time * Inertial)%type.
Definition stamp {A : Type} (m : Time * A) : Time := fst m.

(** What the node does to the outside world, in order. *)
Inductive Event : Type :=
| EvStdout (text : string)
| EvRosError (msg : string)
| EvRosWarn (msg : string)
| EvGenerateCamera (i : nat) (info : CameraInfo)
| EvConfigureRig (ns : list (list string))
| EvPublish (i : nat) (img : option Image)
| EvProcessFrames (t : Time) (images : list Mat) (imu : Imu)
| EvRun
| EvWriteCalibration
| EvSetCameraInfo (topic : string)
| EvWritePoses (file : string).

(** *** [voCallback] *)

(** The reverse scan of the buffer for a sample stamped [t]. *)
Fixpoint scanBack (t : Time) (rbuf : list Imu) : option Imu :=
  match rbuf with
  | [] => None
  | m :: rest => if Time_eqb (stamp m) t then Some m else scanBack t rest
  end.

(** The [try] block: convert the images in turn; the first failure
    abandons the rest. *)
Fixpoint convertImages (msgs : list Image) : option (list Mat) :=
  match msgs with
  | [] => Some []
  | m :: rest =>
      match toCvShare m with
      | None => None
      | Some img =>
          match convertImages rest with
          | None => None
          | Some imgs => Some (img :: imgs)
          end
      end
  end.

Definition voCallback (imageMsg0 imageMsg1 imageMsg2 imageMsg3 : Image)
           (imuBuffer : list Imu) : list Event :=
  let t := stamp imageMsg0 in
  match scanBack t (rev imuBuffer) with
  | None => [EvRosWarn "No IMU message with matching timestamp."]
  | Some imuMsg =>
      let imageMsgs := [imageMsg0; imageMsg1; imageMsg2; imageMsg3] in
      match convertImages imageMsgs with
      | None => [EvRosError "cv_bridge exception"]
      | Some images => [EvProcessFrames t images imuMsg]
      end
  end.

(** *** The bag and the replay loop *)

Inductive Payload : Type :=
| PCameraInfo (c : CameraInfo)
| PImage (i : Image)
| PImu (i : Imu)
| POther.

Record MessageInstance : Type := mkMessage {
  getTopic : string;
  payload : Payload
}.

(** [m.instantiate<T>()]: null unless the message has type [T]. *)
Definition instantiateCameraInfo (m : MessageInstance) : option CameraInfo :=
  match payload m with PCameraInfo c => Some c | _ => None end.
Definition instantiateImage (m : MessageInstance) : option Image :=
  match payload m with PImage i => Some i | _ => None end.
Definition instantiateImu (m : MessageInstance) : option Imu :=
  match payload m with PImu i => Some i | _ => None end.

(** [message_filters::TimeSynchronizer] over four image streams: adding
    an image to input [i] may complete a tuple, which is then signalled. *)
Variable syncEmpty : Sync.
Variable syncAdd :
  nat -> Image -> Sync -> Sync * option (Image * Image * Image * Image).

Record LoopState : Type := mkLoopState {
  init : list bool;             (* boost::dynamic_bitset<> init(N_CAMERAS) *)
  imuBuffer : list Imu;
  sync : Sync;
  sc : bool;                    (* [sc] is non-null, callback registered *)
  trace : list Event
}.

Definition emit (es : list Event) (st : LoopState) : LoopState :=
  mkLoopState (init st) (imuBuffer st) (sync st) (sc st) (trace st ++ es).

Definition count (bits : list bool) : nat :=
  List.length (filter (fun b => b) bits).

Fixpoint setBit (i : nat) (bits : list bool) : list bool :=
  match bits, i with
  | [], _ => []
  | _ :: t, O => true :: t
  | b :: t, S i' => b :: setBit i' t
  end.

Definition markInit (i : nat) (st : LoopState) : LoopState :=
  mkLoopState (setBit i (init st)) (imuBuffer st) (sync st) (sc st)
              (trace st).

(** Lines 338-362: look for the camera-info topic among indices
    [0 .. N_CAMERAS-1]; the first match ends the scan. *)
Fixpoint scanCameraInfo (camInfoTopicNames : list string)
         (m : MessageInstance) (indices : list nat) (st : LoopState)
  : Res LoopState :=
  match indices with
  | [] => Ok st
  | i :: rest =>
      name <- at_ camInfoTopicNames i ;;
      if String.eqb (getTopic m) name then
        if nth i (init st) false then Ok st
        else
          match instantiateCameraInfo m with
          | Some info => Ok (markInit i (emit [EvGenerateCamera i info] st))
          | None => Ok st
          end
      else scanCameraInfo camInfoTopicNames m rest st
  end.

(** [imageSubs.at(i)->newMessage(img)]: the synchronizer calls
    [voCallback] on a completed tuple, with the buffer as it is now. *)
Definition newMessage (i : nat) (img : Image) (st : LoopState) : LoopState :=
  let '(sy, out) := syncAdd i img (sync st) in
  let st' := mkLoopState (init st) (imuBuffer st) sy (sc st) (trace st) in
  match out with
  | Some (m0, m1, m2, m3) => emit (voCallback m0 m1 m2 m3 (imuBuffer st)) st'
  | None => st'
  end.

(** Lines 416-427: every index is visited, there is no [break]. *)
Fixpoint forwardImages (camImageTopicNames : list string)
         (m : MessageInstance) (indices : list nat) (st : LoopState)
  : Res LoopState :=
  match indices with
  | [] => Ok st
  | i :: rest =>
      name <- at_ camImageTopicNames i ;;
      if String.eqb (getTopic m) name then
        let img := instantiateImage m in
        let st1 := match img with
                   | Some im => newMessage i im st
                   | None => st
                   end in
        forwardImages camImageTopicNames m rest (emit [EvPublish i img] st1)
      else forwardImages camImageTopicNames m rest st
  end.

(** [while (imuBuffer.size() > 50) imuBuffer.pop_front();] *)
Fixpoint popWhileOver (buf : list Imu) : list Imu :=
  match buf with
  | [] => []
  | _ :: t =>
      if (IMU_BUFFER_MAX <? List.length buf)%nat then popWhileOver t else buf
  end.

Definition pushImu (imu : Imu) (st : LoopState) : LoopState :=
  mkLoopState (init st) (popWhileOver (imuBuffer st ++ [imu])) (sync st)
              (sc st) (trace st).

(** *** [main] *)

Inductive BagOpen : Type :=
| BagOpened (messages : list MessageInstance)
| BagIOException.

(** Everything [main] reads from outside: the command line, the two
    files, and the answers of the libraries it calls. *)
Record Env : Type := mkEnv {
  help : bool;                      (* vm.count("help") *)
  configFilename : string;
  configFile : ConfigFile;
  bagFilename : string;
  bagOpen : BagOpen;
  readIntermediateData : bool;
  readFromTextFile : bool;          (* cameraSystem->readFromTextFile(..) *)
  scInit : bool;                    (* sc->init(..) *)
  rosOk : nat -> bool;              (* ros::ok() once [k] messages are replayed *)
  cameraName : nat -> string;       (* camera_name written for camera [i] *)
  setCameraInfoReply : nat -> ServiceReply   (* the call for camera [i] *)
}.

(** Lines 265-274: one topic per camera, groups in order, members in
    order. *)
Definition topicNames (suffix : string) (ns : list (list string))
  : list string :=
  flat_map (fun v => map (fun n => n ++ suffix) v) ns.

Inductive StepResult : Type :=
| Next (st : LoopState)
| Break (st : LoopState)
| Return (code : Z) (st : LoopState)
| Raise (e : Exn).

Definition registerCallback (st : LoopState) : LoopState :=
  mkLoopState (init st) (imuBuffer st) (sync st) true (trace st).

(** The body of [BOOST_FOREACH] after the [ros::ok()] test.  The rig set-up
    of lines 366-393 dereferences [cameras.at(mark)] for every camera of
    the configuration, and only the first [N_CAMERAS] were ever
    generated.  The events a turn has emitted when it ends in an
    exception are given by [raisedTrace] below. *)
Definition replayBody (env : Env) (ns : list (list string))
           (camInfoTopicNames camImageTopicNames : list string)
           (imuTopic : string) (st : LoopState) (m : MessageInstance)
  : StepResult :=
  if (count (init st) <? N_CAMERAS)%nat then
    match scanCameraInfo camInfoTopicNames m (seq 0 N_CAMERAS) st with
    | Throw e => Raise e
    | Ok st1 =>
        if (count (init st1) =? N_CAMERAS)%nat then
          if (N_CAMERAS <? cameraCount ns)%nat then Raise null_pointer
          else
            let st2 := emit [EvConfigureRig ns] st1 in
            if negb (scInit env) then
              Return 1
                (emit [EvRosError
                         "Failed to initialize extrinsic calibration."] st2)
            else Next (registerCallback st2)
        else Next st1
    end
  else if readIntermediateData env then Break st
  else
    match forwardImages camImageTopicNames m (seq 0 N_CAMERAS) st with
    | Throw e => Raise e
    | Ok st1 =>
        if String.eqb (getTopic m) imuTopic then
          match instantiateImu m with
          | Some imu => Next (pushImu imu st1)
          | None => Next st1
          end
        else Next st1
    end.

Inductive LoopExit : Type :=
| Finished (k : nat) (st : LoopState)
| Returned (code : Z) (st : LoopState)
| Raised (e : Exn).

(** [BOOST_FOREACH(rosbag::MessageInstance const m, view)]; [k] counts the
    messages already replayed. *)
Fixpoint replay (env : Env) (ns : list (list string))
         (camInfoTopicNames camImageTopicNames : list string)
         (imuTopic : string) (view : list MessageInstance) (k : nat)
         (st : LoopState) : LoopExit :=
  match view with
  | [] => Finished k st
  | m :: rest =>
      if negb (rosOk env k) then Finished k st
      else
        match replayBody env ns camInfoTopicNames camImageTopicNames
                         imuTopic st m with
        | Next st' =>
            replay env ns camInfoTopicNames camImageTopicNames imuTopic
                   rest (S k) st'
        | Break st' => Finished k st'
        | Return code st' => Returned code st'
        | Raise e => Raised e
        end
  end.

Definition initialLoopState (log : list Event) : LoopState :=
  mkLoopState (repeat false N_CAMERAS) [] syncEmpty false log.

Inductive Outcome : Type :=
| Exit (code : Z)
| Uncaught (e : Exn).

(** Lines 298-305: the synchronizer takes [imageSubs.at(0)] to
    [imageSubs.at(3)] of a vector of [nCams] subscribers. *)
Definition makeSynchronizer (nCams : nat) : Res unit :=
  let imageSubs := seq 0 nCams in
  _ <- at_ imageSubs 0 ;;
  _ <- at_ imageSubs 1 ;;
  _ <- at_ imageSubs 2 ;;
  _ <- at_ imageSubs 3 ;;
  Ok tt.

(** The state the image loop has reached when it ends, normally or by
    leaving the range of the topic list. *)
Fixpoint forwardImagesPartial (camImageTopicNames : list string)
         (m : MessageInstance) (indices : list nat) (st : LoopState)
  : LoopState :=
  match indices with
  | [] => st
  | i :: rest =>
      match at_ camImageTopicNames i with
      | Throw _ => st
      | Ok name =>
          if String.eqb (getTopic m) name then
            let img := instantiateImage m in
            let st1 := match img with
                       | Some im => newMessage i im st
                       | None => st
                       end in
            forwardImagesPartial camImageTopicNames m rest
                                 (emit [EvPublish i img] st1)
          else forwardImagesPartial camImageTopicNames m rest st
      end
  end.

(** The events emitted by the time a turn on [m] ends in an exception.  The
    camera-info scan emits nothing before it leaves the range; the rig
    set-up fails after the scan; the image loop may have forwarded images
    before it leaves the range. *)
Definition raisedTrace (env : Env)
           (camInfoTopicNames camImageTopicNames : list string)
           (st : LoopState) (m : MessageInstance) : list Event :=
  if (count (init st) <? N_CAMERAS)%nat then
    match scanCameraInfo camInfoTopicNames m (seq 0 N_CAMERAS) st with
    | Ok st1 => trace st1
    | Throw _ => trace st
    end
  else if readIntermediateData env then trace st
  else
    trace (forwardImagesPartial camImageTopicNames m (seq 0 N_CAMERAS) st).

(** The events of the replay loop up to its end, whichever way it ends. *)
Fixpoint replayTrace (env : Env) (ns : list (list string))
         (camInfoTopicNames camImageTopicNames : list string)
         (imuTopic : string) (view : list MessageInstance) (k : nat)
         (st : LoopState) : list Event :=
  match view with
  | [] => trace st
  | m :: rest =>
      if negb (rosOk env k) then trace st
      else
        match replayBody env ns camInfoTopicNames camImageTopicNames
                         imuTopic st m with
        | Next st' =>
            replayTrace env ns camInfoTopicNames camImageTopicNames imuTopic
                        rest (S k) st'
        | Break st' => trace st'
        | Return _ st' => trace st'
        | Raise _ =>
            raisedTrace env camInfoTopicNames camImageTopicNames st m
        end
  end.

(** Lines 473-519, for camera [i]: the request, and the error reported
    when the reply says it was not processed or when there is none. *)
Definition requestCameraInfo (env : Env) (i : nat) (topic : string)
  : list Event :=
  EvSetCameraInfo topic
  :: match setCameraInfoReply env i with
     | Processed _ => []
     | NotProcessed status_message =>
         [EvRosError ("SetCameraInfo request for camera ["
                      ++ c_str (cameraName env i)
                      ++ "] was not processed: "
                      ++ c_str status_message ++ ".")]
     | NoReply =>
         [EvRosError ("Did not receive reply to SetCameraInfo request "
                      ++ "for camera [" ++ c_str (cameraName env i) ++ "].")]
     end.

Fixpoint requestsFrom (env : Env) (i : nat) (topics : list string)
  : list Event :=
  match topics with
  | [] => []
  | topic :: rest =>
      (requestCameraInfo env i topic ++ requestsFrom env (S i) rest)%list
  end.

(** The exit status (or the exception that ends the process) and the
    events up to there.  [ROS_INFO] lines and timing are left out. *)
Definition main (env : Env) : Outcome * list Event :=
  if help env then (Exit 1, [EvStdout "Allowed options"])
  else
    let r := parseConfigFile (configFile env) in
    let log := map EvRosError (rosErrors (final r)) in
    if negb (accepted r) then
      (Exit 1,
       (log ++ [EvRosError ("Failed to read configuration file "
                            ++ c_str (configFilename env))])%list)
    else
      let ns := cameraNs (final r) in
      let imuTopic := imuTopicName (final r) in
      let nCams := cameraCount ns in
      match bagOpen env with
      | BagIOException =>
          (Exit 1,
           (log ++ [EvRosError ("Unable to open bag file: "
                                ++ c_str (bagFilename env))])%list)
      | BagOpened messages =>
          let camInfoTopicNames := topicNames "/camera_info" ns in
          let camImageTopicNames := topicNames "/image_raw" ns in
          let topics :=
            (camInfoTopicNames ++ camImageTopicNames ++ [imuTopic])%list in
          let view :=
            filter (fun m => existsb (String.eqb (getTopic m)) topics)
                   messages in
          match makeSynchronizer nCams with
          | Throw e => (Uncaught e, log)
          | Ok _ =>
              if readIntermediateData env && negb (readFromTextFile env)
              then
                (Exit 1,
                 (log ++ [EvRosError
                    "Failed to read intermediate camera extrinsic file."])%list)
              else
                match replay env ns camInfoTopicNames camImageTopicNames
                             imuTopic view 0 (initialLoopState log) with
                | Raised e =>
                    (Uncaught e,
                     replayTrace env ns camInfoTopicNames camImageTopicNames
                                 imuTopic view 0 (initialLoopState log))
                | Returned code st => (Exit code, trace st)
                | Finished k st =>
                    if negb (rosOk env k) then
                      (Exit 1, (trace st ++ [EvRosError "Aborted."])%list)
                    else if negb (sc st) then (Uncaught null_pointer, trace st)
                    else
                      (Exit 0,
                       (trace st
                        ++ [EvRun; EvWriteCalibration]
                        ++ requestsFrom env 0 camInfoTopicNames
                        ++ [EvWritePoses "vmav_calib_poses.txt"])%list)
                end
          end
      end.

(** *** Vocabulary of the properties of the node *)

(** Events that only report: console and log lines. *)
Definition isLog (e : Event) : bool :=
  match e with
  | EvStdout _ | EvRosError _ | EvRosWarn _ => true
  | _ => false
  end.

(** The process ends with a non-zero exit status and has done nothing but
    report: no replay, no calibration run, no file written. *)
Definition abortsBeforeOutput (r : Outcome * list Event) : Prop :=
  (exists code, fst r = Exit code /\ code <> 0)
  /\ forallb isLog (snd r) = true.

(** The buffer holds a sample stamped like the first image. *)
Definition hasMatchingImu (m0 : Image) (buf : list Imu) : Prop :=
  exists imu, In imu buf /\ stamp imu = stamp m0.

Definition allConvert (msgs : list Image) : Prop :=
  forall m, In m msgs -> toCvShare m <> None.

End Node.

Arguments EvStdout {Pixels Mat Inertial CameraInfo}.
Arguments EvRosError {Pixels Mat Inertial CameraInfo}.
Arguments EvRosWarn {Pixels Mat Inertial CameraInfo}.
Arguments EvRun {Pixels Mat Inertial CameraInfo}.
Arguments EvWriteCalibration {Pixels Mat Inertial CameraInfo}.
Arguments EvSetCameraInfo {Pixels Mat Inertial CameraInfo}.
Arguments EvWritePoses {Pixels Mat Inertial CameraInfo}.
Arguments BagIOException {Pixels Inertial CameraInfo}.
Arguments isLog {Pixels Mat Inertial CameraInfo}.
Arguments abortsBeforeOutput {Pixels Mat Inertial CameraInfo}.
Arguments hasMatchingImu {Pixels Inertial}.
Arguments allConvert {Pixels Mat}.
Arguments EvGenerateCamera {Pixels Mat Inertial CameraInfo}.
Arguments EvConfigureRig {Pixels Mat Inertial CameraInfo}.
Arguments EvPublish {Pixels Mat Inertial CameraInfo}.
Arguments EvProcessFrames {Pixels Mat Inertial CameraInfo}.
Arguments PCameraInfo {Pixels Inertial CameraInfo}.
Arguments PImage {Pixels Inertial CameraInfo}.
Arguments PImu {Pixels Inertial CameraInfo}.
Arguments POther {Pixels Inertial CameraInfo}.
Arguments mkMessage {Pixels Inertial CameraInfo}.
Arguments getTopic {Pixels Inertial CameraInfo}.
Arguments payload {Pixels Inertial CameraInfo}.
Arguments instantiateCameraInfo {Pixels Inertial CameraInfo}.
Arguments instantiateImage {Pixels Inertial CameraInfo}.
Arguments instantiateImu {Pixels Inertial CameraInfo}.
Arguments mkLoopState {Pixels Mat Inertial CameraInfo Sync}.
Arguments init {Pixels Mat Inertial CameraInfo Sync}.
Arguments imuBuffer {Pixels Mat Inertial CameraInfo Sync}.
Arguments sync {Pixels Mat Inertial CameraInfo Sync}.
Arguments sc {Pixels Mat Inertial CameraInfo Sync}.
Arguments trace {Pixels Mat Inertial CameraInfo Sync}.
Arguments emit {Pixels Mat Inertial CameraInfo Sync}.
Arguments markInit {Pixels Mat Inertial CameraInfo Sync}.
Arguments scanCameraInfo {Pixels Mat Inertial CameraInfo Sync}.
Arguments newMessage {Pixels Mat Inertial CameraInfo Sync}.
Arguments forwardImages {Pixels Mat Inertial CameraInfo Sync}.
Arguments popWhileOver {Inertial}.
Arguments pushImu {Pixels Mat Inertial CameraInfo Sync}.
Arguments BagOpened {Pixels Inertial CameraInfo}.
Arguments mkEnv {Pixels Inertial CameraInfo}.
Arguments cameraName {Pixels Inertial CameraInfo}.
Arguments setCameraInfoReply {Pixels Inertial CameraInfo}.
Arguments forwardImagesPartial {Pixels Mat Inertial CameraInfo Sync}.
Arguments raisedTrace {Pixels Mat Inertial CameraInfo Sync}.
Arguments replayTrace {Pixels Mat Inertial CameraInfo Sync}.
Arguments requestCameraInfo {Pixels Mat Inertial CameraInfo}.
Arguments requestsFrom {Pixels Mat Inertial CameraInfo}.
Arguments help {Pixels Inertial CameraInfo}.
Arguments configFilename {Pixels Inertial CameraInfo}.
Arguments configFile {Pixels Inertial CameraInfo}.
Arguments bagFilename {Pixels Inertial CameraInfo}.
Arguments bagOpen {Pixels Inertial CameraInfo}.
Arguments readIntermediateData {Pixels Inertial CameraInfo}.
Arguments readFromTextFile {Pixels Inertial CameraInfo}.
Arguments scInit {Pixels Inertial CameraInfo}.
Arguments rosOk {Pixels Inertial CameraInfo}.
Arguments Next {Pixels Mat Inertial CameraInfo Sync}.
Arguments Break {Pixels Mat Inertial CameraInfo Sync}.
Arguments Return {Pixels Mat Inertial CameraInfo Sync}.
Arguments Raise {Pixels Mat Inertial CameraInfo Sync}.
Arguments registerCallback {Pixels Mat Inertial CameraInfo Sync}.
Arguments replayBody {Pixels Mat Inertial CameraInfo Sync}.
Arguments Finished {Pixels Mat Inertial CameraInfo Sync}.
Arguments Returned {Pixels Mat Inertial CameraInfo Sync}.
Arguments Raised {Pixels Mat Inertial CameraInfo Sync}.
Arguments replay {Pixels Mat Inertial CameraInfo Sync}.
Arguments initialLoopState {Pixels Mat Inertial CameraInfo Sync}.
Arguments main {Pixels Mat Inertial CameraInfo Sync}.
Arguments voCallback {Pixels Mat Inertial CameraInfo}.
Arguments scanBack {Inertial}.
Arguments convertImages {Pixels Mat}.

(** ** Vocabulary of the properties *)

(** The pieces of [s] between occurrences of [sep]. *)
Fixpoint splitOn (sep : ascii) (s : string) : list string :=
  match s with
  | EmptyString => [EmptyString]
  | String c t =>
      if Ascii.eqb c sep then EmptyString :: splitOn sep t
      else
        match splitOn sep t with
        | l :: ls => String c l :: ls
        | [] => [String c EmptyString]
        end
  end.

(** The lines of a configuration file, in file order. *)
Definition fileLines (content : string) : list string :=
  splitOn newline content.

(** A file that fits in memory: every index into it is below [npos]. *)
Definition representable (content : string) : Prop :=
  size content < npos.

Inductive SensorType : Type := Stereo | Mono | IMU.

Definition SensorType_eqb (a b : SensorType) : bool :=
  match a, b with
  | Stereo, Stereo | Mono, Mono | IMU, IMU => true
  | _, _ => false
  end.

(** The first token of a line as the parser cuts it. *)
Definition firstToken (line : string) : string :=
  substr line 0 (find line space).

(** The sensor type a line declares, by its first token. *)
Definition sensorType (line : string) : option SensorType :=
  let t := firstToken line in
  if iequals t "stereo" then Some Stereo
  else if iequals t "mono" then Some Mono
  else if iequals t "imu" then Some IMU
  else None.

Definition declares (t : SensorType) (line : string) : bool :=
  match sensorType line with
  | Some t' => SensorType_eqb t t'
  | None => false
  end.

(** Number of lines of the file that declare a sensor of type [t]. *)
Definition countLines (t : SensorType) (lines : list string) : nat :=
  List.length (filter (declares t) lines).

(** Topics that follow the sensor type. *)
Definition arity (t : SensorType) : nat :=
  match t with
  | Stereo => 2
  | Mono => 1
  | IMU => 1
  end.

(** [n] successive calls of [parseTokenFromString] on [s]: the tokens, when
    every call returns [true]. *)
Fixpoint tokens (n : nat) (s : string) (pos : Z) : option (list string) :=
  match n with
  | O => Some []
  | S n' =>
      let '(ok, (s', token, pos')) := parseTokenFromString s "" pos in
      if ok then option_map (cons token) (tokens n' s' pos') else None
  end.

(** The topics the parser reads off a line after its sensor type. *)
Definition topicsOf (line : string) : option (list string) :=
  match sensorType line with
  | Some t => option_map (@tl string) (tokens (S (arity t)) line 0)
  | None => None
  end.

(** The entry a line adds to the camera-namespace list. *)
Definition cameraEntry (line : string) : option (list string) :=
  match sensorType line with
  | Some Stereo | Some Mono => topicsOf line
  | _ => None
  end.

Fixpoint collect {A B : Type} (f : A -> option B) (l : list A) : list B :=
  match l with
  | [] => []
  | a :: r =>
      match f a with
      | Some b => b :: collect f r
      | None => collect f r
      end
  end.

(** *** The declaration forms of the specification

    [stereo <topicA> <topicB>], [mono <topic>], [imu <topic>]: the sensor
    type and its topics, separated by single spaces, nothing else on the
    line. *)

Definition fields (line : string) : list string := splitOn space line.

Inductive Declaration : Type :=
| DStereo (topicA topicB : string)
| DMono (topic : string)
| DImu (topic : string).

Definition declarationOf (line : string) : option Declaration :=
  match fields line with
  | [kw; a; b] =>
      if iequals kw "stereo" && negb (empty a) && negb (empty b)
      then Some (DStereo a b) else None
  | [kw; t] =>
      if iequals kw "mono" && negb (empty t) then Some (DMono t)
      else if iequals kw "imu" && negb (empty t) then Some (DImu t)
      else None
  | _ => None
  end.

Definition isDeclaration (line : string) : bool :=
  match declarationOf line with
  | Some _ => true
  | None => false
  end.

Definition isStereoDecl (line : string) : bool :=
  match declarationOf line with Some (DStereo _ _) => true | _ => false end.
Definition isMonoDecl (line : string) : bool :=
  match declarationOf line with Some (DMono _) => true | _ => false end.
Definition isImuDecl (line : string) : bool :=
  match declarationOf line with Some (DImu _) => true | _ => false end.

Definition declaredCameras (d : Declaration) : option (list string) :=
  match d with
  | DStereo a b => Some [a; b]
  | DMono t => Some [t]
  | DImu _ => None
  end.

(** The sensor type of a line, read off its first field. *)
Definition fieldType (line : string) : option SensorType :=
  match fields line with
  | kw :: _ =>
      if iequals kw "stereo" then Some Stereo
      else if iequals kw "mono" then Some Mono
      else if iequals kw "imu" then Some IMU
      else None
  | [] => None
  end.

(** The camera lines of a file: those whose first field is stereo or
    mono, in any letter case. *)
Definition isCameraLine (line : string) : bool :=
  match fieldType line with
  | Some Stereo | Some Mono => true
  | _ => false
  end.

Definition cameraLines (lines : list string) : list string :=
  filter isCameraLine lines.

(** Topics of the entry of a camera line. *)
Definition topicCount (line : string) : nat :=
  match fieldType line with
  | Some Stereo => 2
  | _ => 1
  end.

(** The entry a camera line declares, read off its fields: the two fields
    after the sensor type of a stereo line, left then right, the field
    after the sensor type of a mono line.  A line with fewer fields
    declares none. *)
Definition declaredEntry (line : string) : option (list string) :=
  match fieldType line, fields line with
  | Some Stereo, _ :: topicA :: topicB :: _ => Some [topicA; topicB]
  | Some Mono, _ :: topic :: _ => Some [topic]
  | _, _ => None
  end.

(** [entry] is what [line] declares, when it declares an entry. *)
Definition contributes (line : string) (entry : list string) : Prop :=
  match declaredEntry line with
  | Some e => entry = e
  | None => True
  end.

Definition nonBlank (lines : list string) : list string :=
  filter (fun l => negb (empty l)) lines.

(** The parser's loop as a fold over the lines. *)
Fixpoint foldLines (st : ParseState) (lines : list string) : ParseResult :=
  match lines with
  | [] => afterLoop st
  | l :: rest =>
      match lineBody st l with
      | Continue st' => foldLines st' rest
      | ReturnFalse st' => mkParseResult false st'
      end
  end.

Definition nl : string := String newline EmptyString.


(** The parser reads a line to the end: it is blank, or its sensor type is
    recognized and every topic read succeeds. *)
Definition parses (line : string) : bool :=
  empty line || match topicsOf line with Some _ => true | None => false end.

(** [c] does not occur in [s]. *)
Fixpoint lacks (c : ascii) (s : string) : bool :=
  match s with
  | EmptyString => true
  | String a t => negb (Ascii.eqb a c) && lacks c t
  end.

Definition kindOf (d : Declaration) : SensorType :=
  match d with
  | DStereo _ _ => Stereo
  | DMono _ => Mono
  | DImu _ => IMU
  end.

Definition declaredTopics (d : Declaration) : list string :=
  match d with
  | DStereo a b => [a; b]
  | DMono t => [t]
  | DImu t => [t]
  end.

(** The first token of the line is one of the three sensor types. *)
Definition recognized (line : string) : bool :=
  match sensorType line with
  | Some _ => true
  | None => false
  end.

(** The sensor types as the configuration format spells them. *)
Definition keywords : list string := ["stereo"; "mono"; "imu"].

(** The sensor type ends the line or is followed by a space. *)
Definition tokenEnd (rest : string) : Prop :=
  rest = "" \/ exists r, rest = String space r.

(** [CaseVariant l l']: [l] is [l'] with its sensor type written in another
    letter case. *)
Inductive CaseVariant : string -> string -> Prop :=
| cv_same (l : string) : CaseVariant l l
| cv_type (t kw rest : string) :
    In kw keywords -> iequals t kw = true -> tokenEnd rest ->
    CaseVariant (t ++ rest) (kw ++ rest).

(** *** A small concrete rig for the examples

    Images and inertial samples carry a number; an image with number 0
    does not convert; the synchronizer never completes a tuple. *)

Definition demoConvert (m : Time * nat) : option nat :=
  if Nat.eqb (snd m) 0 then None else Some (snd m).

Definition demoSyncAdd (i : nat) (img : Image nat) (s : unit)
  : unit * option (Image nat * Image nat * Image nat * Image nat) :=
  (s, None).

Definition exampleConfig : string :=
  "stereo /cam0 /cam1" ++ nl ++ "stereo /cam2 /cam3" ++ nl ++ "imu /imu" ++ nl.


(** One stereo pair: two cameras. *)
Definition twoCameraConfig : string :=
  "stereo /cam0 /cam1" ++ nl ++ "imu /imu" ++ nl.

(** A line that declares no known sensor. *)
Definition lidarConfig : string :=
  "stereo /cam0 /cam1" ++ nl ++ "lidar /scan" ++ nl ++ "imu /imu" ++ nl.

Definition demoEnv (config : ConfigFile) : Env nat nat unit :=
  mkEnv false "self_calib.cfg" config "run.bag" (BagOpened []) false true true
        (fun _ => true) (fun _ => "camera") (fun _ => Processed "ok").

Definition demoMain (env : Env nat nat unit)
  : Outcome * list (Event nat nat nat unit) :=
  main demoConvert tt demoSyncAdd env.

(** *** Further vocabulary *)

(** [l'] is [l], or the declaration [l] followed by a space and more
    text. *)
Definition withTrailingText (l l' : string) : Prop :=
  l' = l
  \/ (isDeclaration l = true /\ exists rest, l' = l ++ String space rest).

(** The buffer after the samples [xs] have been pushed in turn, as lines
    434-438 do for each of them. *)
Definition pushAll {Inertial : Type} (buf xs : list (Imu Inertial))
  : list (Imu Inertial) :=
  fold_left (fun b x => popWhileOver (b ++ [x])) xs buf.

(** The inertial samples among the messages of [view] on the imu topic. *)
Definition imuSamples {Pixels Inertial CameraInfo : Type}
           (imuTopic : string)
           (view : list (MessageInstance Pixels Inertial CameraInfo))
  : list (Imu Inertial) :=
  collect (fun m => if String.eqb (getTopic m) imuTopic
                    then instantiateImu m else None) view.

(** The calibration run and what is written after it. *)
Definition isResult {Pixels Mat Inertial CameraInfo : Type}
           (e : Event Pixels Mat Inertial CameraInfo) : bool :=
  match e with
  | EvRun | EvWriteCalibration | EvSetCameraInfo _ | EvWritePoses _ => true
  | _ => false
  end.

(** Visual odometry: an image republished or a frame processed. *)
Definition isVisualOdometry {Pixels Mat Inertial CameraInfo : Type}
           (e : Event Pixels Mat Inertial CameraInfo) : bool :=
  match e with
  | EvPublish _ _ | EvProcessFrames _ _ _ => true
  | _ => false
  end.

(** A bag with the camera information of the four cameras of
    [exampleConfig], and the run that replays it. *)
Definition fourCameraBag : list (MessageInstance nat nat unit) :=
  [mkMessage "/cam0/camera_info" (PCameraInfo tt);
   mkMessage "/cam1/camera_info" (PCameraInfo tt);
   mkMessage "/cam2/camera_info" (PCameraInfo tt);
   mkMessage "/cam3/camera_info" (PCameraInfo tt);
   mkMessage "/imu" (PImu (mkTime 1 0, 7%nat))].

Definition successEnv : Env nat nat unit :=
  mkEnv false "self_calib.cfg" (Some exampleConfig) "run.bag"
        (BagOpened fourCameraBag) false true true (fun _ => true)
        (fun _ => "camera") (fun _ => Processed "ok").


(** The same run with a calibration object that fails to initialise, and
    with intermediate data. *)
Definition initFailureEnv : Env nat nat unit :=
  mkEnv false "self_calib.cfg" (Some exampleConfig) "run.bag"
        (BagOpened fourCameraBag) false true false (fun _ => true)
        (fun _ => "camera") (fun _ => Processed "ok").

Definition intermediateEnv : Env nat nat unit :=
  mkEnv false "self_calib.cfg" (Some exampleConfig) "run.bag"
        (BagOpened fourCameraBag) true true true (fun _ => true)
        (fun _ => "camera") (fun _ => Processed "ok").

(** A configuration of five cameras. *)
Definition fiveCameraEnv : Env nat nat unit :=
  mkEnv false "self_calib.cfg"
        (Some ("stereo /cam0 /cam1" ++ nl ++ "stereo /cam2 /cam3" ++ nl
                 ++ "mono /cam4" ++ nl ++ "imu /imu"))
        "run.bag" (BagOpened fourCameraBag) false true true (fun _ => true)
        (fun _ => "camera") (fun _ => Processed "ok").

(** A full buffer: samples 0 to 49. *)
Definition fullBuffer : list (Imu nat) :=
  map (fun n => (mkTime (Z.of_nat n) 0, n)) (seq 0 50).

(** A configuration that names the camera [/a] twice. *)
Definition sharedNamespaceEnv : Env nat nat unit :=
  mkEnv false "self_calib.cfg"
        (Some ("stereo /a /a" ++ nl ++ "stereo /b /c" ++ nl ++ "imu /i"))
        "run.bag" (BagOpened fourCameraBag) false true true (fun _ => true)
        (fun _ => "camera") (fun _ => Processed "ok").

Definition demoNamespaces : list (list string) :=
  [["/cam0"; "/cam1"]; ["/cam2"; "/cam3"]].

(** The loop state at the start, and one with the four cameras
    initialised. *)
Definition demoStart : LoopState nat nat nat unit unit :=
  initialLoopState tt [].

Definition demoReady : LoopState nat nat nat unit unit :=
  mkLoopState [true; true; true; true] [] tt true [].

Definition demoFrame (n : nat) : Image nat := (mkTime 12 500, n).

Definition demoSample (t : Z) (n : nat) : Imu nat := (mkTime t 0, n).

(** ** Strings *)

Lemma size_nonneg (s : string) : 0 <= size s.
Proof. unfold size. lia. Qed.

Lemma size_String (c : ascii) (s : string) : size (String c s) = size s + 1.
Proof. unfold size. simpl String.length. lia. Qed.

Lemma size_append (a b : string) : size (a ++ b) = size a + size b.
Proof.
  induction a as [|c a IH].
  - change ("" ++ b) with b. unfold size at 2. simpl. lia.
  - change (String c a ++ b) with (String c (a ++ b)).
    rewrite !size_String, IH. lia.
Qed.

Lemma empty_true (s : string) : empty s = true <-> s = "".
Proof. destruct s; simpl; split; congruence. Qed.

Lemma empty_false_size (s : string) : empty s = false <-> 0 < size s.
Proof.
  destruct s; simpl.
  - unfold size; simpl; split; [discriminate | lia].
  - rewrite size_String. pose proof (size_nonneg s). split; [lia | reflexivity].
Qed.

Lemma take_all (n : nat) (s : string) :
  (String.length s <= n)%nat -> take n s = s.
Proof.
  revert n; induction s as [|c s IH]; intros [|n] H; simpl in *;
    try reflexivity; try lia.
  f_equal. apply IH. lia.
Qed.

Lemma take_append (a b : string) : take (String.length a) (a ++ b) = a.
Proof.
  induction a as [|c a IH]; simpl.
  - destruct b; reflexivity.
  - now rewrite IH.
Qed.

Lemma drop_append (a b : string) (c : ascii) :
  drop (S (String.length a)) (a ++ String c b) = b.
Proof. induction a as [|x a IH]; simpl; [reflexivity | exact IH]. Qed.

Lemma find_from_shift (c : ascii) (s : string) (i : Z) :
  lacks c s = true -> find_from c s i = npos.
Proof.
  revert i; induction s as [|a s IH]; intros i H; simpl in *; [reflexivity|].
  apply andb_prop in H as [Ha Hs].
  destruct (Ascii.eqb a c); [discriminate|]. now apply IH.
Qed.

Lemma find_from_prefix (c : ascii) (a b : string) (i : Z) :
  lacks c a = true -> find_from c (a ++ String c b) i = i + size a.
Proof.
  revert i; induction a as [|x a IH]; intros i H; simpl in *.
  - rewrite Ascii.eqb_refl. unfold size; simpl; lia.
  - apply andb_prop in H as [Hx Ha].
    destruct (Ascii.eqb x c); [discriminate|].
    rewrite IH by assumption. rewrite size_String. lia.
Qed.

(** *** What [parseTokenFromString] returns *)

(** A space in the string: the token is what precedes the first one, and
    the string keeps what follows it. *)
Lemma parseToken_space (a b token : string) (pos : Z) :
  lacks space a = true ->
  size a < npos ->
  parseTokenFromString (a ++ String space b) token pos
  = (true, (b, a, size a)).
Proof.
  intros Ha Hsz. unfold parseTokenFromString.
  assert (He : empty (a ++ String space b) = false) by (destruct a; reflexivity).
  rewrite He. unfold find. rewrite find_from_prefix by assumption.
  rewrite Z.add_0_l.
  pose proof (size_nonneg a) as H0. pose proof (size_nonneg b) as Hb.
  assert (Hsize : size (a ++ String space b) = size a + size b + 1)
    by (rewrite size_append, size_String; lia).
  f_equal. f_equal. f_equal.
  - unfold erase, size_t_add, size_t_modulus, npos, size_t_modulus in *.
    rewrite Z.mod_small by lia. simpl take.
    rewrite Hsize, Z.sub_0_r, Z.add_0_l, Z.min_l by lia.
    replace (Z.to_nat (size a + 1)) with (S (String.length a))
      by (unfold size; lia).
    simpl append. apply drop_append.
  - unfold substr. rewrite Hsize, Z.sub_0_r, Z.min_l by lia.
    simpl drop. unfold size. rewrite Nat2Z.id. apply take_append.
Qed.

(** No space in the string: the token is the whole string, and
    [erase(0, npos + 1)] removes nothing. *)
Lemma parseToken_last (a token : string) (pos : Z) :
  empty a = false ->
  lacks space a = true ->
  size a <= npos ->
  parseTokenFromString a token pos = (true, (a, a, npos)).
Proof.
  intros He Ha Hsz. unfold parseTokenFromString. rewrite He.
  unfold find. rewrite find_from_shift by assumption.
  pose proof (size_nonneg a) as H0.
  f_equal. f_equal. f_equal.
  - unfold erase, size_t_add, npos, size_t_modulus.
    replace (2 ^ 64 - 1 + 1) with (2 ^ 64) by lia.
    rewrite Z.mod_same by lia.
    rewrite Z.sub_0_r, Z.add_0_l, Z.min_l by lia.
    simpl. destruct a; reflexivity.
  - unfold substr. rewrite Z.sub_0_r, Z.min_r by lia.
    simpl drop. unfold size. rewrite Nat2Z.id. apply take_all. lia.
Qed.

Lemma parseToken_empty (token : string) (pos : Z) :
  parseTokenFromString "" token pos = (false, ("", token, pos)).
Proof. reflexivity. Qed.

(** ** The loop of [parseConfigFile] visits the lines of the file *)

Lemma untilNewline_lines (s : string) :
  fileLines s
  = match untilNewline s with
    | (l, Some r) => l :: fileLines r
    | (l, None) => [l]
    end.
Proof.
  unfold fileLines. induction s as [|c s IH]; simpl; [reflexivity|].
  destruct (Ascii.eqb c newline); [reflexivity|].
  rewrite IH. destruct (untilNewline s) as [l [r|]]; reflexivity.
Qed.

Lemma untilNewline_shorter (s l r : string) :
  untilNewline s = (l, Some r) -> (String.length r < String.length s)%nat.
Proof.
  revert l r; induction s as [|c s IH]; intros l r H; simpl in H.
  - discriminate.
  - destruct (Ascii.eqb c newline).
    + inversion H; subst. simpl. lia.
    + destruct (untilNewline s) as [l' [r'|]] eqn:E; inversion H; subst.
      specialize (IH _ _ eq_refl). simpl. lia.
Qed.

Lemma whileGood_lines (fuel : nat) :
  forall (s : string) (st : ParseState),
    (String.length s + 2 <= fuel)%nat ->
    whileGood fuel (mkIfstream s false false) st
    = Some (foldLines st (fileLines s)).
Proof.
  induction fuel as [|fuel IH]; intros s st Hf; [lia|].
  rewrite untilNewline_lines.
  cbn [whileGood good eofbit failbit negb andb]. unfold getline.
  cbn [unread].
  destruct (untilNewline s) as [l [r|]] eqn:E; cbn [foldLines].
  - destruct (lineBody st l) as [st'|st']; [|reflexivity].
    apply IH. apply untilNewline_shorter in E. lia.
  - destruct (lineBody st l) as [st'|st']; [|reflexivity].
    destruct fuel as [|fuel']; [lia|]. reflexivity.
Qed.

(** The step budget of [parseConfigFile] is never exhausted: the function
    is the fold of the loop body over the lines of the file. *)
Lemma parseConfigFile_lines (content : string) :
  parseConfigFile (Some content)
  = foldLines initialParseState (fileLines content).
Proof.
  unfold parseConfigFile. rewrite whileGood_lines by lia. reflexivity.
Qed.

(** ** One line *)

Lemma parseToken_nonempty (s : string) :
  empty s = false ->
  forall (token : string) (pos : Z),
    parseTokenFromString s token pos
    = (true, (erase s 0 (size_t_add (find s space) 1),
              substr s 0 (find s space), find s space)).
Proof. intros H token pos. unfold parseTokenFromString. now rewrite H. Qed.

Lemma parseToken_isempty (s : string) :
  empty s = true ->
  forall (token : string) (pos : Z),
    parseTokenFromString s token pos = (false, (s, token, pos)).
Proof. intros H token pos. unfold parseTokenFromString. now rewrite H. Qed.

Ltac token_cases s E :=
  destruct (empty s) eqn:E;
  [ rewrite !(parseToken_isempty s E)
  | rewrite !(parseToken_nonempty s E) ];
  cbn [negb option_map tl].

(** The loop body in terms of the sensor type and the topics of the line. *)
Lemma lineBody_spec (st : ParseState) (l : string) :
  lineBody st l
  = if empty l then Continue st
    else
      match sensorType l with
      | None =>
          ReturnFalse
            (ROS_ERROR ("Unknown sensor type: " ++ c_str (firstToken l)) st)
      | Some Stereo =>
          match topicsOf l with
          | Some [a; b] => Continue (pushStereo a b st)
          | _ => ReturnFalse
                   (ROS_ERROR
                      "The stereo camera sensor is improperly defined." st)
          end
      | Some Mono =>
          match topicsOf l with
          | Some [t] => Continue (pushMono t st)
          | _ => ReturnFalse
                   (ROS_ERROR
                      "The mono camera sensor is improperly defined." st)
          end
      | Some IMU =>
          if hasIMU st then
            ReturnFalse
              (ROS_ERROR
                 "A duplicate definition was found for the imu sensor." st)
          else
            match topicsOf l with
            | Some [t] => Continue (setIMU t st)
            | _ => ReturnFalse
                     (ROS_ERROR "The IMU sensor is improperly defined." st)
            end
      end.
Proof.
  unfold lineBody, topicsOf, sensorType.
  destruct (empty l) eqn:He; [reflexivity|].
  cbn [tokens arity]. rewrite !(parseToken_nonempty l He).
  fold (firstToken l).
  generalize (erase l 0 (size_t_add (find l space) 1)) as s1.
  generalize (find l space) as p1. intros p1 s1.
  cbn [negb].
  destruct (iequals (firstToken l) "stereo").
  { cbn [tokens arity]. token_cases s1 E1; [reflexivity|].
    generalize (erase s1 0 (size_t_add (find s1 space) 1)) as s2.
    intros s2. token_cases s2 E2; reflexivity. }
  destruct (iequals (firstToken l) "mono").
  { cbn [tokens arity]. token_cases s1 E1; reflexivity. }
  destruct (iequals (firstToken l) "imu"); [|reflexivity].
  destruct (hasIMU st); [reflexivity|].
  cbn [tokens arity]. token_cases s1 E1; reflexivity.
Qed.

Lemma tokens_length (n : nat) :
  forall (s : string) (pos : Z) (ts : list string),
    tokens n s pos = Some ts -> List.length ts = n.
Proof.
  induction n as [|n IH]; intros s pos ts H; cbn [tokens] in H.
  - now inversion H.
  - destruct (parseTokenFromString s "" pos) as [[|] [[s' t] p']];
      [|discriminate].
    destruct (tokens n s' p') as [ts'|] eqn:E; [|discriminate].
    inversion H; subst. simpl. f_equal. eauto.
Qed.

Lemma topicsOf_shape (l : string) (ts : list string) :
  topicsOf l = Some ts ->
  exists t, sensorType l = Some t /\ List.length ts = arity t.
Proof.
  unfold topicsOf. destruct (sensorType l) as [t|]; [|discriminate].
  intros H. exists t. split; [reflexivity|].
  destruct (tokens (S (arity t)) l 0) as [ts'|] eqn:E; [|discriminate].
  apply tokens_length in E. inversion H; subst.
  destruct ts'; simpl in *; lia.
Qed.

Lemma sensorType_blank (l : string) : empty l = true -> sensorType l = None.
Proof. intros H. apply empty_true in H. subst. reflexivity. Qed.

Lemma countLines_cons (t : SensorType) (l : string) (ls : list string) :
  countLines t (l :: ls)
  = ((if declares t l then 1 else 0) + countLines t ls)%nat.
Proof. unfold countLines. simpl. destruct (declares t l); reflexivity. Qed.

(** ** The whole file *)

Ltac line_cases l Et Ets :=
  destruct (sensorType l) as [[ | | ]|] eqn:Et;
  [ destruct (topicsOf l) as [[|? [|? [|? ?]]]|] eqn:Ets
  | destruct (topicsOf l) as [[|? [|? ?]]|] eqn:Ets
  | destruct (topicsOf l) as [[|? [|? ?]]|] eqn:Ets
  | ].

Lemma foldLines_accepted (ls : list string) :
  forall st : ParseState,
    accepted (foldLines st ls) = true ->
    forallb parses ls = true
    /\ cameraNs (final (foldLines st ls))
       = (cameraNs st ++ collect cameraEntry ls)%list
    /\ (hasStereo st = true \/ (1 <= countLines Stereo ls)%nat)
    /\ (countLines IMU ls + (if hasIMU st then 1 else 0) = 1)%nat
    /\ rosErrors (final (foldLines st ls)) = rosErrors st.
Proof.
  induction ls as [|l ls IH]; intros st H.
  - cbn [foldLines] in *. unfold afterLoop in *.
    destruct (hasStereo st), (hasIMU st); try discriminate H.
    cbn. rewrite app_nil_r. auto.
  - cbn [foldLines] in *. rewrite lineBody_spec in *.
    rewrite countLines_cons, (countLines_cons IMU).
    cbn [forallb collect]. unfold parses, cameraEntry, declares.
    destruct (empty l) eqn:He.
    { rewrite (sensorType_blank l He).
      destruct (IH st H) as (A & B & C & D & E). cbn [orb]. auto. }
    cbn [orb].
    line_cases l Et Ets; try discriminate H;
      try (destruct (hasIMU st) eqn:Hi; try discriminate H);
      match type of H with
      | accepted (foldLines ?st' ls) = true =>
          destruct (IH st' H) as (A & B & C & D & E)
      end;
      cbn [SensorType_eqb pushStereo pushMono setIMU cameraNs hasStereo hasIMU
           rosErrors] in *;
      try rewrite Hi in *;
      rewrite ?B, <- ?app_assoc; cbn [app];
      (split; [assumption|]); (split; [reflexivity|]);
      (split; [|split; [|assumption]]); try lia; try tauto.
    all: destruct C; [tauto|right; lia].
Qed.

Lemma foldLines_accepts (ls : list string) :
  forall st : ParseState,
    forallb parses ls = true ->
    (hasStereo st = true \/ (1 <= countLines Stereo ls)%nat) ->
    (countLines IMU ls + (if hasIMU st then 1 else 0) = 1)%nat ->
    accepted (foldLines st ls) = true.
Proof.
  induction ls as [|l ls IH]; intros st Hp Hs Hi.
  - cbn [foldLines]. unfold afterLoop, countLines in *. cbn in Hs, Hi.
    destruct (hasStereo st), (hasIMU st); try reflexivity;
      try lia; destruct Hs; try discriminate; lia.
  - cbn [foldLines forallb] in *. rewrite lineBody_spec.
    apply andb_prop in Hp as [Hl Hp].
    rewrite countLines_cons in Hs. rewrite countLines_cons in Hi.
    unfold parses, declares in *.
    destruct (empty l) eqn:He.
    { rewrite (sensorType_blank l He) in *. apply IH; auto. }
    cbn [orb] in Hl.
    destruct (topicsOf l) as [ts|] eqn:Ets; [|discriminate].
    destruct (topicsOf_shape l ts Ets) as (t & Et & Hlen).
    rewrite Et in *.
    destruct t; cbn [arity SensorType_eqb] in *.
    + destruct ts as [|a [|b [|? ?]]]; try discriminate Hlen.
      apply IH; cbn; [assumption | auto | lia].
    + destruct ts as [|a [|? ?]]; try discriminate Hlen.
      apply IH; cbn; [assumption | | lia].
      destruct Hs; [auto | right; lia].
    + destruct ts as [|a [|? ?]]; try discriminate Hlen.
      destruct (hasIMU st) eqn:Hh; [lia|].
      apply IH; cbn; [assumption | | lia].
      destruct Hs; [auto | right; lia].
Qed.

(** The configuration is accepted exactly when the parser reads every line
    to the end and has then seen a stereo line and, once, an imu line. *)
Lemma accepted_iff (content : string) :
  accepted (parseConfigFile (Some content)) = true
  <-> forallb parses (fileLines content) = true
      /\ (1 <= countLines Stereo (fileLines content))%nat
      /\ countLines IMU (fileLines content) = 1%nat.
Proof.
  rewrite parseConfigFile_lines. split.
  - intros H. apply foldLines_accepted in H as (A & _ & C & D & _).
    cbn in C, D. split; [assumption|]. split; [|lia].
    destruct C; [discriminate | assumption].
  - intros (A & B & C). apply foldLines_accepts; cbn; auto. lia.
Qed.

(** ** Lines in the declaration forms of the specification *)

Lemma splitOn_two (sep : ascii) (s x y : string) (r : list string) :
  splitOn sep s = x :: y :: r ->
  exists s', s = x ++ String sep s'
             /\ splitOn sep s' = y :: r /\ lacks sep x = true.
Proof.
  revert x; induction s as [|c s IH]; intros x H; cbn [splitOn] in H.
  - discriminate.
  - destruct (Ascii.eqb c sep) eqn:Ec.
    + apply Ascii.eqb_eq in Ec. subst c. inversion H; subst.
      exists s. auto.
    + destruct (splitOn sep s) as [|l ls] eqn:E; [discriminate|].
      inversion H; subst.
      destruct (IH l eq_refl) as (s' & Hs & Hr & Hl).
      exists s'. subst s. cbn [lacks]. rewrite Ec, Hl. auto.
Qed.

Lemma splitOn_nonempty (sep : ascii) (s : string) : splitOn sep s <> [].
Proof.
  destruct s as [|c s]; cbn; [discriminate|].
  destruct (Ascii.eqb c sep); [discriminate|].
  destruct (splitOn sep s); discriminate.
Qed.

Lemma splitOn_one (sep : ascii) (s x : string) :
  splitOn sep s = [x] -> s = x /\ lacks sep x = true.
Proof.
  revert x; induction s as [|c s IH]; intros x H; cbn [splitOn] in H.
  - inversion H. auto.
  - destruct (Ascii.eqb c sep) eqn:Ec.
    + inversion H as [[Hx Hnil]]. now apply splitOn_nonempty in Hnil.
    + destruct (splitOn sep s) as [|l ls] eqn:E;
        [now apply splitOn_nonempty in E|].
      inversion H; subst.
      destruct (IH l eq_refl) as (Hs & Hl).
      subst s. cbn [lacks]. rewrite Ec, Hl. auto.
Qed.

Lemma splitOn_size (sep : ascii) (s l : string) :
  In l (splitOn sep s) -> size l <= size s.
Proof.
  revert l; induction s as [|c s IH]; intros l H; cbn [splitOn] in H.
  - destruct H as [<-|[]]. lia.
  - rewrite size_String. destruct (Ascii.eqb c sep).
    + destruct H as [<-|H].
      * pose proof (size_nonneg s). unfold size at 1. simpl. lia.
      * specialize (IH _ H). lia.
    + destruct (splitOn sep s) as [|l' ls] eqn:E.
      * destruct H as [<-|[]]. rewrite size_String.
        pose proof (size_nonneg s). unfold size at 1. simpl. lia.
      * destruct H as [<-|H].
        -- rewrite size_String. specialize (IH l' (or_introl eq_refl)). lia.
        -- specialize (IH l (or_intror H)). lia.
Qed.

Lemma iequals_length (a b : string) :
  iequals a b = true -> String.length a = String.length b.
Proof.
  revert b; induction a as [|x a IH]; intros [|y b] H; cbn in *;
    try discriminate; [reflexivity|].
  apply andb_prop in H as [_ H]. f_equal. auto.
Qed.

Lemma firstToken_space (a b : string) :
  lacks space a = true -> size a < npos ->
  firstToken (a ++ String space b) = a.
Proof.
  intros Ha Hs.
  pose proof (parseToken_space a b "" 0 Ha Hs) as H.
  rewrite parseToken_nonempty in H by (destruct a; reflexivity).
  unfold firstToken. congruence.
Qed.

Lemma sensorType_of_token (t : string) (k : SensorType) :
  (match k with
   | Stereo => iequals t "stereo"
   | Mono => iequals t "mono"
   | IMU => iequals t "imu"
   end) = true ->
  (if iequals t "stereo" then Some Stereo
   else if iequals t "mono" then Some Mono
   else if iequals t "imu" then Some IMU else None) = Some k.
Proof.
  intros H.
  destruct (iequals t "stereo") eqn:Es, (iequals t "mono") eqn:Em,
    (iequals t "imu") eqn:Ei;
    repeat match goal with
      | E : iequals t _ = true |- _ => apply iequals_length in E; cbn in E
      end;
    destruct k; try discriminate; try reflexivity; congruence.
Qed.

(** A line in one of the declaration forms is read as that declaration. *)
Lemma declaration_line (l : string) (d : Declaration) :
  size l < npos ->
  declarationOf l = Some d ->
  sensorType l = Some (kindOf d) /\ topicsOf l = Some (declaredTopics d).
Proof.
  intros Hsz H. unfold declarationOf, fields in H.
  destruct (splitOn space l) as [|kw [|a [|b [|? ?]]]] eqn:E;
    try discriminate.
  - apply splitOn_two in E as (s1 & -> & E1 & Hkw).
    apply splitOn_one in E1 as (-> & Ha).
    rewrite size_append, size_String in Hsz.
    pose proof (size_nonneg kw). pose proof (size_nonneg a).
    assert (Hd : empty a = false
                 /\ (match kindOf d with
                     | Stereo => iequals kw "stereo"
                     | Mono => iequals kw "mono"
                     | IMU => iequals kw "imu"
                     end) = true
                 /\ declaredTopics d = [a]).
    { destruct (iequals kw "mono") eqn:Em, (iequals kw "imu") eqn:Ei,
        (empty a) eqn:Ea; cbn in H; inversion H; subst; cbn; auto. }
    destruct Hd as (Ea & Hk & Ht).
    assert (Hty : sensorType (kw ++ String space a) = Some (kindOf d)).
    { unfold sensorType. rewrite firstToken_space by (auto; lia).
      now apply sensorType_of_token. }
    split; [assumption|].
    unfold topicsOf. rewrite Hty.
    assert (Har : arity (kindOf d) = 1%nat)
      by (destruct d; cbn in *; congruence).
    rewrite Har. cbn [tokens].
    rewrite parseToken_space by (auto; lia).
    rewrite parseToken_last by (auto; lia).
    cbn. congruence.
  - apply splitOn_two in E as (s1 & -> & E1 & Hkw).
    apply splitOn_two in E1 as (s2 & -> & E2 & Ha).
    apply splitOn_one in E2 as (-> & Hb).
    rewrite !size_append, !size_String, size_append, size_String in Hsz.
    pose proof (size_nonneg kw). pose proof (size_nonneg a).
    pose proof (size_nonneg b).
    destruct (iequals kw "stereo") eqn:Es, (empty a) eqn:Ea,
      (empty b) eqn:Eb; cbn in H; inversion H; subst; cbn [kindOf].
    assert (Hty : sensorType (kw ++ String space (a ++ String space b))
                  = Some Stereo).
    { unfold sensorType. rewrite firstToken_space by (auto; lia).
      now rewrite Es. }
    split; [assumption|].
    unfold topicsOf. rewrite Hty. cbn [arity tokens].
    rewrite parseToken_space by (auto; lia).
    rewrite parseToken_space by (auto; lia).
    rewrite parseToken_last by (auto; lia).
    reflexivity.
Qed.

Lemma lines_fit (content l : string) :
  representable content -> In l (fileLines content) -> size l < npos.
Proof.
  unfold representable, fileLines. intros Hc Hl.
  apply splitOn_size in Hl. lia.
Qed.

Lemma declarationOf_blank (l : string) :
  empty l = true -> declarationOf l = None.
Proof. intros H. apply empty_true in H. subst. reflexivity. Qed.

Lemma declares_declaration (l : string) (d : Declaration) (t : SensorType) :
  size l < npos -> declarationOf l = Some d ->
  declares t l = SensorType_eqb t (kindOf d).
Proof.
  intros Hs Hd. destruct (declaration_line l d Hs Hd) as [Ht _].
  unfold declares. now rewrite Ht.
Qed.

(** On a file whose non-blank lines are all declarations the parser reads
    every line to the end, and the entries it collects are the declared
    cameras. *)
Lemma declarations_read (ls : list string) :
  (forall l, In l ls -> size l < npos) ->
  forallb isDeclaration (nonBlank ls) = true ->
  forallb parses ls = true
  /\ collect cameraEntry ls = collect declaredCameras (collect declarationOf ls).
Proof.
  induction ls as [|l ls IH]; intros Hfit Hd; [split; reflexivity|].
  unfold nonBlank in Hd. cbn [filter forallb collect] in *.
  assert (Hfit' : forall l', In l' ls -> size l' < npos)
    by (intros; apply Hfit; now right).
  unfold parses at 1. unfold cameraEntry at 1.
  destruct (empty l) eqn:He; cbn [negb] in Hd.
  - rewrite (sensorType_blank l He), (declarationOf_blank l He).
    cbn [orb andb]. now apply IH.
  - cbn [forallb] in Hd. apply andb_prop in Hd as [Hl Hd].
    unfold isDeclaration in Hl.
    destruct (declarationOf l) as [d|] eqn:Ed; [|discriminate].
    destruct (declaration_line l d (Hfit l (or_introl eq_refl)) Ed)
      as [Ht Hts].
    rewrite Ht, Hts. destruct (IH Hfit' Hd) as [IH1 IH2].
    cbn [orb andb collect]. split; [assumption|].
    destruct d; cbn [kindOf declaredCameras declaredTopics];
      now rewrite IH2.
Qed.

Lemma cameraCount_from (ns : list (list string)) (n : nat) :
  fold_left (fun n v => (n + List.length v)%nat) ns n
  = (n + cameraCount ns)%nat.
Proof.
  unfold cameraCount. revert n.
  induction ns as [|v ns IH]; intros n; cbn [fold_left]; [lia|].
  rewrite IH, (IH (0 + List.length v)%nat). lia.
Qed.

Lemma cameraCount_cons (v : list string) (ns : list (list string)) :
  cameraCount (v :: ns) = (List.length v + cameraCount ns)%nat.
Proof.
  unfold cameraCount at 1. cbn [fold_left]. now rewrite cameraCount_from.
Qed.

(** Two cameras for every stereo line and one for every mono line. *)
Lemma cameraCount_collect (ls : list string) :
  forallb parses ls = true ->
  cameraCount (collect cameraEntry ls)
  = (2 * countLines Stereo ls + countLines Mono ls)%nat.
Proof.
  induction ls as [|l ls IH]; intros Hp; [reflexivity|].
  cbn [forallb collect] in *. apply andb_prop in Hp as [Hl Hp].
  rewrite !countLines_cons. unfold parses in Hl.
  unfold cameraEntry at 1. unfold declares.
  destruct (empty l) eqn:He.
  { rewrite (sensorType_blank l He). now rewrite IH. }
  cbn [orb] in Hl.
  destruct (topicsOf l) as [ts|] eqn:Ets; [|discriminate].
  destruct (topicsOf_shape l ts Ets) as (t & Et & Hlen).
  rewrite Et. destruct t; cbn [SensorType_eqb arity] in *;
    rewrite ?cameraCount_cons, IH by assumption; lia.
Qed.

Lemma topicNames_concat (suffix : string) (ns : list (list string)) :
  topicNames suffix ns = map (fun n => n ++ suffix) (List.concat ns).
Proof.
  unfold topicNames. induction ns as [|v ns IH]; cbn; [reflexivity|].
  now rewrite IH, map_app.
Qed.

Lemma accepted_lines (content : string) :
  accepted (parseConfigFile (Some content)) = true ->
  forallb parses (fileLines content) = true
  /\ cameraNs (final (parseConfigFile (Some content)))
     = collect cameraEntry (fileLines content).
Proof.
  rewrite parseConfigFile_lines. intros H.
  apply foldLines_accepted in H as (A & B & _). auto.
Qed.

Lemma parses_recognized (ls : list string) :
  forallb parses ls = true -> forallb recognized (nonBlank ls) = true.
Proof.
  induction ls as [|l ls IH]; intros H; [reflexivity|].
  cbn [forallb] in H. apply andb_prop in H as [Hl H].
  unfold nonBlank in *. cbn [filter]. unfold parses in Hl.
  destruct (empty l); cbn [negb orb] in *; [now apply IH|].
  cbn [forallb]. rewrite (IH H), andb_true_r.
  destruct (topicsOf l) as [ts|] eqn:E; [|discriminate].
  apply topicsOf_shape in E as (t & Et & _). unfold recognized.
  now rewrite Et.
Qed.

(** ** Properties of the configuration parser *)

(** C1, as written, fails on a file with a blank line between its
    declarations: the blank line is no sensor declaration, and the file is
    accepted, because the loop skips empty lines. *)
Lemma blank_line_accepted_C1 :
  let content := "stereo /a /b" ++ nl ++ nl ++ "imu /i" in
  ~ (accepted (parseConfigFile (Some content)) = true
     <-> forallb isDeclaration (fileLines content) = true
         /\ (1 <= countLines Stereo (fileLines content))%nat
         /\ countLines IMU (fileLines content) = 1%nat).
Proof.
  intros content [H _].
  assert (Ha : accepted (parseConfigFile (Some content)) = true)
    by (vm_compute; reflexivity).
  destruct (H Ha) as [Hd _]. vm_compute in Hd. discriminate.
Qed.

(** C1 (amended): blank lines are skipped.  A file that opens, whose
    non-blank lines are all declarations in one of the three forms, with at
    least one stereo line and exactly one imu line, is accepted; an accepted
    file opens, every non-blank line of it starts with a recognized sensor
    type, and it has at least one stereo line and exactly one imu line.  So
    a file without a stereo line, without an imu line or with two imu lines
    is rejected, and so is a file that does not open. *)
Theorem config_acceptance_C1 (content : string) :
  (representable content ->
   forallb isDeclaration (nonBlank (fileLines content)) = true ->
   (1 <= countLines Stereo (fileLines content))%nat ->
   countLines IMU (fileLines content) = 1%nat ->
   accepted (parseConfigFile (Some content)) = true)
  /\ (accepted (parseConfigFile (Some content)) = true ->
      forallb recognized (nonBlank (fileLines content)) = true
      /\ (1 <= countLines Stereo (fileLines content))%nat
      /\ countLines IMU (fileLines content) = 1%nat)
  /\ (countLines Stereo (fileLines content) = 0%nat
      \/ countLines IMU (fileLines content) = 0%nat
      \/ (2 <= countLines IMU (fileLines content))%nat ->
      accepted (parseConfigFile (Some content)) = false)
  /\ accepted (parseConfigFile None) = false.
Proof.
  split; [|split; [|split]].
  - intros Hfit Hd Hs Hi. apply accepted_iff.
    split; [|auto].
    apply declarations_read; [|assumption].
    intros l Hl. now apply (lines_fit content).
  - intros H. apply accepted_iff in H as (A & B & C).
    auto using parses_recognized.
  - intros H.
    destruct (accepted (parseConfigFile (Some content))) eqn:E;
      [|reflexivity].
    apply accepted_iff in E as (_ & B & C). lia.
  - reflexivity.
Qed.

Lemma config_acceptance_C1_witness :
  accepted (parseConfigFile (Some exampleConfig)) = true.
Proof.
  apply (proj1 (config_acceptance_C1 exampleConfig)).
  - vm_compute. reflexivity.
  - vm_compute. reflexivity.
  - vm_compute. lia.
  - vm_compute. reflexivity.
Defined.

(** C2: a file of two stereo declarations and one imu declaration is
    accepted with a camera count of 4; for every accepted file the camera
    count is twice the number of stereo lines plus the number of mono
    lines. *)
Theorem camera_count_C2 (content : string) :
  let r := parseConfigFile (Some content) in
  (representable content ->
   forallb isDeclaration (nonBlank (fileLines content)) = true ->
   countLines Stereo (fileLines content) = 2%nat ->
   countLines Mono (fileLines content) = 0%nat ->
   countLines IMU (fileLines content) = 1%nat ->
   accepted r = true /\ cameraCount (cameraNs (final r)) = 4%nat)
  /\ (accepted r = true ->
      cameraCount (cameraNs (final r))
      = (2 * countLines Stereo (fileLines content)
         + countLines Mono (fileLines content))%nat).
Proof.
  intros r.
  assert (G : accepted r = true ->
              cameraCount (cameraNs (final r))
              = (2 * countLines Stereo (fileLines content)
                 + countLines Mono (fileLines content))%nat).
  { intros H. subst r. apply accepted_lines in H as [Hp ->].
    now apply cameraCount_collect. }
  split; [|exact G].
  intros Hfit Hd Hs Hm Hi.
  assert (Ha : accepted r = true).
  { subst r. apply accepted_iff. split; [|split; [lia|assumption]].
    apply declarations_read; [|assumption].
    intros l Hl. now apply (lines_fit content). }
  split; [assumption|]. rewrite (G Ha), Hs, Hm. reflexivity.
Qed.

Lemma camera_count_C2_witness :
  accepted (parseConfigFile (Some exampleConfig)) = true
  /\ cameraCount (cameraNs (final (parseConfigFile (Some exampleConfig))))
     = 4%nat.
Proof.
  apply (proj1 (camera_count_C2 exampleConfig)); vm_compute; reflexivity.
Defined.

(** C3 fails on the code: when the last token of a line has no space after
    it, [find] returns [npos], [erase(0, npos + 1)] is [erase(0, 0)], and the
    token stays in the string for the next read.  A stereo line with one
    topic and an imu line with none are accepted, the one topic serving
    twice and the word imu serving as the topic. *)
Theorem missing_topic_accepted_C3 :
  let r := parseConfigFile (Some ("stereo /cam0" ++ nl ++ "imu")) in
  accepted r = true
  /\ cameraNs (final r) = [["/cam0"; "/cam0"]]
  /\ imuTopicName (final r) = "imu"
  /\ rosErrors (final r) = [].
Proof. vm_compute. auto. Qed.

(** *** Letter case of the sensor type *)

Lemma toupper_space (x : ascii) :
  Ascii.eqb (toupper x) space = Ascii.eqb x space.
Proof. destruct x as [[] [] [] [] [] [] [] []]; reflexivity. Qed.

Lemma iequals_lacks_space (t kw : string) :
  iequals t kw = true -> lacks space kw = true -> lacks space t = true.
Proof.
  revert kw; induction t as [|x t IH]; intros [|y kw] H Hk; cbn in *;
    try discriminate; [reflexivity|].
  apply andb_prop in H as [Hxy H]. apply andb_prop in Hk as [Hy Hk].
  apply Ascii.eqb_eq in Hxy.
  rewrite <- toupper_space, Hxy, toupper_space, Hy.
  cbn. eauto.
Qed.

Lemma iequals_compat (t kw : string) :
  iequals t kw = true -> forall z, iequals t z = iequals kw z.
Proof.
  revert kw; induction t as [|x t IH]; intros [|y kw] H [|c z]; cbn in *;
    try discriminate; try reflexivity.
  apply andb_prop in H as [Hxy H]. apply Ascii.eqb_eq in Hxy.
  rewrite Hxy. f_equal. auto.
Qed.

Lemma append_empty_r (s : string) : s ++ "" = s.
Proof. induction s as [|c s IH]; cbn; congruence. Qed.

Lemma keyword_facts (t kw : string) :
  In kw keywords -> iequals t kw = true ->
  lacks space t = true /\ lacks space kw = true
  /\ size t = size kw /\ size kw < 7 /\ empty t = false /\ empty kw = false
  /\ exists k, (if iequals kw "stereo" then Some Stereo
                else if iequals kw "mono" then Some Mono
                else if iequals kw "imu" then Some IMU else None) = Some k.
Proof.
  intros Hk Ht.
  assert (Hl : String.length t = String.length kw)
    by now apply iequals_length.
  assert (Hkw : lacks space kw = true /\ size kw < 7 /\ empty kw = false
                /\ exists k, (if iequals kw "stereo" then Some Stereo
                              else if iequals kw "mono" then Some Mono
                              else if iequals kw "imu" then Some IMU
                              else None) = Some k).
  { destruct Hk as [<-|[<-|[<-|[]]]];
      (split; [reflexivity|split; [reflexivity|split; [reflexivity|]]]);
      eexists; reflexivity. }
  destruct Hkw as (A & B & C & D).
  split; [now apply (iequals_lacks_space t kw)|].
  split; [assumption|]. split; [unfold size; congruence|].
  split; [assumption|]. split; [|auto].
  destruct t; [destruct kw; cbn in *; congruence | reflexivity].
Qed.

Lemma tokens_last (n : nat) (t : string) (pos : Z) :
  empty t = false -> lacks space t = true -> size t <= npos ->
  tokens n t pos = Some (repeat t n).
Proof.
  intros He Hl Hs. revert pos.
  induction n as [|n IH]; intros pos; cbn [tokens repeat]; [reflexivity|].
  rewrite parseToken_last by assumption. now rewrite IH.
Qed.

(** A line and its case variant have the same sensor type, are both read
    to the end or both not, and when the line has a space (after the sensor
    type, then) the loop body does the same on both. *)
Lemma caseVariant_line (l l' : string) :
  CaseVariant l l' ->
  sensorType l = sensorType l'
  /\ parses l = parses l'
  /\ (lacks space l = false -> forall st, lineBody st l = lineBody st l').
Proof.
  intros [l0|t kw rest Hk Ht Hrest]; [auto|].
  destruct (keyword_facts t kw Hk Ht)
    as (Lt & Lk & Hsz & Hsmall & Et & Ek & k & Hty).
  assert (Hnpos : size kw < npos) by (unfold npos, size_t_modulus; lia).
  destruct Hrest as [->|[r ->]].
  - rewrite !append_empty_r.
    assert (Fk : firstToken kw = kw).
    { pose proof (parseToken_last kw "" 0 Ek Lk ltac:(lia)) as P.
      rewrite parseToken_nonempty in P by assumption.
      unfold firstToken. congruence. }
    assert (Ft : firstToken t = t).
    { pose proof (parseToken_last t "" 0 Et Lt ltac:(lia)) as P.
      rewrite parseToken_nonempty in P by assumption.
      unfold firstToken. congruence. }
    assert (Hs : sensorType t = sensorType kw).
    { unfold sensorType. rewrite Fk, Ft.
      now rewrite !(iequals_compat t kw Ht). }
    assert (Hsk : sensorType kw = Some k)
      by (unfold sensorType; now rewrite Fk).
    split; [assumption|]. split.
    + unfold parses, topicsOf. rewrite Hs, Hsk, Et, Ek.
      rewrite !tokens_last by (auto; lia). reflexivity.
    + congruence.
  - assert (Hs : sensorType (t ++ String space r)
                 = sensorType (kw ++ String space r)).
    { unfold sensorType. rewrite !firstToken_space by (auto; lia).
      now rewrite !(iequals_compat t kw Ht). }
    assert (Hsk : sensorType (kw ++ String space r) = Some k).
    { unfold sensorType. now rewrite firstToken_space by (auto; lia). }
    assert (Htop : topicsOf (t ++ String space r)
                   = topicsOf (kw ++ String space r)).
    { unfold topicsOf. rewrite Hs, Hsk. cbn [tokens].
      rewrite !parseToken_space by (auto; lia). rewrite Hsz.
      destruct (tokens (arity k) r (size kw)); reflexivity. }
    assert (He : forall a, empty (a ++ String space r) = false)
      by (intros [|? ?]; reflexivity).
    split; [assumption|]. split.
    + unfold parses. now rewrite Htop, !He.
    + intros _ st. rewrite !lineBody_spec, !He, Hs, Hsk, Htop.
      destruct k; reflexivity.
Qed.

Lemma caseVariant_counts (ls ls' : list string) :
  Forall2 CaseVariant ls ls' ->
  forallb parses ls = forallb parses ls'
  /\ forall t, countLines t ls = countLines t ls'.
Proof.
  induction 1 as [|l l' ls ls' Hl _ [IHp IHc]]; [auto|].
  destruct (caseVariant_line l l' Hl) as (Hs & Hp & _).
  cbn [forallb]. rewrite Hp, IHp. split; [reflexivity|].
  intros t. rewrite !countLines_cons, IHc. unfold declares. now rewrite Hs.
Qed.

Lemma caseVariant_fold (ls ls' : list string) :
  Forall2 CaseVariant ls ls' ->
  (forall l, In l ls -> recognized l = true -> lacks space l = false) ->
  forall st, foldLines st ls = foldLines st ls'.
Proof.
  induction 1 as [|l l' ls ls' Hl _ IH]; intros Hsp st; [reflexivity|].
  cbn [foldLines].
  assert (Hb : lineBody st l = lineBody st l').
  { destruct (caseVariant_line l l' Hl) as (Hs & _ & Hbody).
    destruct (recognized l) eqn:Hr.
    - apply Hbody. apply Hsp; [now left | assumption].
    - destruct Hl as [l0|t kw rest Hk Ht Hrest]; [reflexivity|].
      exfalso. unfold recognized in Hr. rewrite Hs in Hr.
      destruct (keyword_facts t kw Hk Ht)
        as (Lt & Lk & Hsz & Hsmall & Et & Ek & k & Hty).
      assert (Fk : firstToken (kw ++ rest) = kw).
      { destruct Hrest as [->|[r ->]].
        - rewrite append_empty_r.
          pose proof (parseToken_last kw "" 0 Ek Lk
                        ltac:(unfold npos, size_t_modulus; lia)) as P.
          rewrite parseToken_nonempty in P by assumption.
          unfold firstToken. congruence.
        - apply firstToken_space;
            [assumption | unfold npos, size_t_modulus; lia]. }
      unfold sensorType in Hr. rewrite Fk, Hty in Hr. discriminate. }
  rewrite Hb. destruct (lineBody st l'); [|reflexivity].
  apply IH. intros l0 Hin. apply Hsp. now right.
Qed.

(** C9 fails on the code, through the slip of C3.  A line that is a sensor
    type and nothing else is not rejected: its last token is read again
    and serves as the topic, in the letter case it is written in.  The
    files [stereo /a /b], [IMU] and [stereo /a /b], [imu] differ only in the
    letter case of a sensor type and are both accepted, the former with the
    imu topic [IMU] and the latter with [imu]. *)
Theorem keyword_only_case_C9 :
  let upper := "stereo /a /b" ++ nl ++ "IMU" in
  let lower := "stereo /a /b" ++ nl ++ "imu" in
  Forall2 CaseVariant (fileLines upper) (fileLines lower)
  /\ accepted (parseConfigFile (Some upper)) = true
  /\ accepted (parseConfigFile (Some lower)) = true
  /\ imuTopicName (final (parseConfigFile (Some upper))) = "IMU"
  /\ imuTopicName (final (parseConfigFile (Some lower))) = "imu"
  /\ parseConfigFile (Some upper) <> parseConfigFile (Some lower).
Proof.
  cbv zeta. split; [|vm_compute; repeat split; discriminate].
  change (Forall2 CaseVariant ["stereo /a /b"; "IMU" ++ ""]
                              ["stereo /a /b"; "imu" ++ ""]).
  apply Forall2_cons; [apply cv_same|].
  apply Forall2_cons; [|apply Forall2_nil].
  apply (cv_type "IMU" "imu" ""); [cbn; auto | reflexivity | now left].
Qed.

(** X25: the sensor type is matched without regard to letter case.  Two
    files whose lines differ only in the letter case of their sensor types
    are both accepted or both rejected; when a space follows every sensor
    type, [parseConfigFile] returns the same camera namespaces, imu topic
    and errors for both. *)
Theorem case_variants_alike (content content' : string) :
  Forall2 CaseVariant (fileLines content) (fileLines content') ->
  accepted (parseConfigFile (Some content))
  = accepted (parseConfigFile (Some content'))
  /\ ((forall l, In l (fileLines content) ->
                 recognized l = true -> lacks space l = false) ->
      parseConfigFile (Some content) = parseConfigFile (Some content')).
Proof.
  intros H. split.
  - destruct (caseVariant_counts _ _ H) as [Hp Hc].
    pose proof (accepted_iff content) as A.
    pose proof (accepted_iff content') as A'.
    rewrite Hp, !Hc in A.
    destruct (accepted (parseConfigFile (Some content))),
      (accepted (parseConfigFile (Some content'))); try reflexivity.
    + symmetry. apply A'. now apply A.
    + apply A. now apply A'.
  - intros Hsp. rewrite !parseConfigFile_lines.
    now apply caseVariant_fold.
Qed.

Lemma case_variants_alike_witness :
  parseConfigFile (Some ("STEREO /a /b" ++ nl ++ "Imu /i" ++ nl))
  = parseConfigFile (Some ("stereo /a /b" ++ nl ++ "imu /i" ++ nl)).
Proof.
  apply (case_variants_alike ("STEREO /a /b" ++ nl ++ "Imu /i" ++ nl)
                             ("stereo /a /b" ++ nl ++ "imu /i" ++ nl)).
  - change (Forall2 CaseVariant ["STEREO" ++ " /a /b"; "Imu" ++ " /i"; ""]
                                ["stereo" ++ " /a /b"; "imu" ++ " /i"; ""]).
    apply Forall2_cons;
      [ apply (cv_type "STEREO" "stereo" " /a /b");
        [ cbn; auto | reflexivity | right; eexists; reflexivity ] | ].
    apply Forall2_cons;
      [ apply (cv_type "Imu" "imu" " /i");
        [ cbn; auto | reflexivity | right; eexists; reflexivity ] | ].
    apply Forall2_cons; [ apply cv_same | apply Forall2_nil ].
  - intros l Hl Hr. cbn in Hl.
    destruct Hl as [<-|[<-|[<-|[]]]]; try reflexivity. discriminate Hr.
Defined.




Lemma topicNames_length (suffix : string) (ns : list (list string)) :
  List.length (topicNames suffix ns) = cameraCount ns.
Proof.
  unfold topicNames. induction ns as [|v ns IH]; [reflexivity|].
  cbn [flat_map]. rewrite length_app, length_map, cameraCount_cons, IH.
  reflexivity.
Qed.

(** ** The node *)

Lemma Time_eqb_eq (a b : Time) : Time_eqb a b = true <-> a = b.
Proof.
  destruct a as [s1 n1], b as [s2 n2]. unfold Time_eqb. cbn.
  rewrite andb_true_iff, !Z.eqb_eq. split.
  - intros [-> ->]. reflexivity.
  - intros H. inversion H. auto.
Qed.

Lemma popWhileOver_skipn {Inertial : Type} (buf : list (Imu Inertial)) :
  popWhileOver buf = skipn (List.length buf - IMU_BUFFER_MAX) buf.
Proof.
  induction buf as [|x buf IH]; [reflexivity|].
  cbn [popWhileOver].
  destruct (IMU_BUFFER_MAX <? List.length (x :: buf))%nat eqn:E.
  - apply Nat.ltb_lt in E. cbn [List.length] in *. rewrite IH.
    replace (S (List.length buf) - IMU_BUFFER_MAX)%nat
      with (S (List.length buf - IMU_BUFFER_MAX)) by lia.
    reflexivity.
  - apply Nat.ltb_ge in E.
    replace (List.length (x :: buf) - IMU_BUFFER_MAX)%nat with 0%nat by lia.
    reflexivity.
Qed.

Lemma popWhileOver_length {Inertial : Type} (buf : list (Imu Inertial)) :
  (List.length (popWhileOver buf) <= IMU_BUFFER_MAX)%nat.
Proof. rewrite popWhileOver_skipn, length_skipn. lia. Qed.

Section NodeProperties.

Variables Pixels Mat Inertial CameraInfo Sync : Type.
Variable toCvShare : Time * Pixels -> option Mat.
Variable syncEmpty : Sync.
Variable syncAdd :
  nat -> Image Pixels -> Sync
  -> Sync * option (Image Pixels * Image Pixels * Image Pixels * Image Pixels).

Local Abbreviation State := (LoopState Pixels Mat Inertial CameraInfo Sync).
Local Abbreviation Message := (MessageInstance Pixels Inertial CameraInfo).
Local Abbreviation Ev := (Event Pixels Mat Inertial CameraInfo).
Local Abbreviation Environment := (Env Pixels Inertial CameraInfo).

(** *** [voCallback] *)

Lemma scanBack_some (t : Time) (l : list (Imu Inertial)) (m : Imu Inertial) :
  scanBack t l = Some m -> In m l /\ stamp m = t.
Proof.
  induction l as [|x l IH]; cbn; [discriminate|].
  destruct (Time_eqb (stamp x) t) eqn:E.
  - intros H. inversion H; subst. apply Time_eqb_eq in E. auto.
  - intros H. destruct (IH H). auto.
Qed.

Lemma scanBack_none (t : Time) (l : list (Imu Inertial)) :
  scanBack t l = None -> forall m, In m l -> stamp m <> t.
Proof.
  induction l as [|x l IH]; cbn; [tauto|].
  destruct (Time_eqb (stamp x) t) eqn:E; [discriminate|].
  intros H m [<-|Hm]; [|now apply IH].
  intros Heq. apply Time_eqb_eq in Heq. congruence.
Qed.

Lemma convertImages_some (l : list (Image Pixels)) (imgs : list Mat) :
  convertImages toCvShare l = Some imgs -> map toCvShare l = map Some imgs.
Proof.
  revert imgs; induction l as [|m l IH]; intros imgs; cbn.
  - intros H. now inversion H.
  - destruct (toCvShare m) as [x|]; [|discriminate].
    destruct (convertImages toCvShare l) as [xs|]; [|discriminate].
    intros H. inversion H; subst. cbn. f_equal. now apply IH.
Qed.

Lemma convertImages_none (l : list (Image Pixels)) :
  convertImages toCvShare l = None ->
  exists m, In m l /\ toCvShare m = None.
Proof.
  induction l as [|m l IH]; cbn; [discriminate|].
  destruct (toCvShare m) as [x|] eqn:E; [|eauto].
  destruct (convertImages toCvShare l) as [xs|]; [discriminate|].
  intros _. destruct (IH eq_refl) as (m' & Hin & Hm). eauto.
Qed.

(** C6: [voCallback] hands the frame to [processFrames] exactly when the
    buffer holds a sample with the timestamp of the images and all four
    images convert; it then passes that timestamp, the converted images and
    a buffered sample with that timestamp.  Otherwise its only effect is one
    warning or error line: the frame is skipped. *)
Theorem voCallback_C6 (m0 m1 m2 m3 : Image Pixels)
        (buf : list (Imu Inertial)) :
  let out : list Ev := voCallback toCvShare m0 m1 m2 m3 buf in
  let ready :=
    hasMatchingImu m0 buf /\ allConvert toCvShare [m0; m1; m2; m3] in
  (ready ->
   exists imu images,
     out = [EvProcessFrames (stamp m0) images imu]
     /\ In imu buf /\ stamp imu = stamp m0
     /\ map toCvShare [m0; m1; m2; m3] = map Some images)
  /\ (~ ready ->
      out = [EvRosWarn "No IMU message with matching timestamp."]
      \/ out = [EvRosError "cv_bridge exception"])
  /\ (forall t images imu, In (EvProcessFrames t images imu) out -> ready).
Proof.
  intros out ready. subst out. unfold voCallback.
  destruct (scanBack (stamp m0) (rev buf)) as [imu|] eqn:Es.
  - apply scanBack_some in Es as [Hin Hst]. apply in_rev in Hin.
    destruct (convertImages toCvShare [m0; m1; m2; m3]) as [imgs|] eqn:Ec.
    + pose proof (convertImages_some _ _ Ec) as Hmap.
      assert (Hready : ready).
      { split; [exists imu; auto|].
        intros m Hm Hnone. apply (in_map toCvShare) in Hm.
        rewrite Hmap, Hnone in Hm. apply in_map_iff in Hm as (? & ? & _).
        discriminate. }
      split; [intros _; exists imu, imgs; auto|].
      split; [tauto | auto].
    + apply convertImages_none in Ec as (m & Hm & Hnone).
      assert (Hnot : ~ ready).
      { intros [_ Hc]. now apply (Hc m Hm). }
      split; [tauto|]. split; [auto|].
      intros t images imu' [H|[]]. discriminate.
  - assert (Hnot : ~ ready).
    { intros [(imu & Hin & Hst) _].
      apply (scanBack_none _ _ Es imu); [now apply in_rev in Hin | auto]. }
    split; [tauto|]. split; [auto|].
    intros t images imu' [H|[]]. discriminate.
Qed.

(** *** The inertial-sample buffer *)

Lemma scanCameraInfo_buffer (names : list string) (m : Message)
      (indices : list nat) (st st' : State) :
  scanCameraInfo names m indices st = Ok st' ->
  imuBuffer st' = imuBuffer st.
Proof.
  revert st; induction indices as [|i indices IH]; intros st; cbn.
  - intros H. now inversion H.
  - destruct (at_ names i) as [name|]; cbn; [|discriminate].
    destruct (String.eqb (getTopic m) name); [|apply IH].
    destruct (nth i (init st) false); [intros H; now inversion H|].
    destruct (instantiateCameraInfo m); intros H; now inversion H.
Qed.

Lemma newMessage_buffer (i : nat) (img : Image Pixels) (st : State) :
  imuBuffer (newMessage toCvShare syncAdd i img st) = imuBuffer st.
Proof.
  unfold newMessage. destruct (syncAdd i img (sync st)) as [sy [[[[a b] c] d]|]];
    reflexivity.
Qed.

Lemma forwardImages_buffer (names : list string) (m : Message)
      (indices : list nat) (st st' : State) :
  forwardImages toCvShare syncAdd names m indices st = Ok st' ->
  imuBuffer st' = imuBuffer st.
Proof.
  revert st; induction indices as [|i indices IH]; intros st; cbn.
  - intros H. now inversion H.
  - destruct (at_ names i) as [name|]; cbn; [|discriminate].
    destruct (String.eqb (getTopic m) name); [|apply IH].
    intros H. apply IH in H. cbn in H. rewrite H.
    destruct (instantiateImage m); [apply newMessage_buffer | reflexivity].
Qed.

Lemma replayBody_buffer (env : Environment) (ns : list (list string))
      (camInfo camImage : list string) (imuTopic : string)
      (st : State) (m : Message) :
  match replayBody toCvShare syncAdd env ns camInfo camImage imuTopic st m
  with
  | Next st' =>
      imuBuffer st' = imuBuffer st
      \/ exists imu,
          instantiateImu m = Some imu /\ getTopic m = imuTopic
          /\ imuBuffer st'
             = skipn (List.length (imuBuffer st ++ [imu]) - IMU_BUFFER_MAX)
                     (imuBuffer st ++ [imu])
  | Break st' | Return _ st' => imuBuffer st' = imuBuffer st
  | Raise _ => True
  end.
Proof.
  unfold replayBody.
  destruct (count (init st) <? N_CAMERAS)%nat.
  - destruct (scanCameraInfo camInfo m (seq 0 N_CAMERAS) st) as [st1|e] eqn:E;
      [|exact I].
    apply scanCameraInfo_buffer in E.
    destruct (count (init st1) =? N_CAMERAS)%nat; [|auto].
    destruct (N_CAMERAS <? cameraCount ns)%nat; [exact I|].
    destruct (scInit env); cbn; auto.
  - destruct (readIntermediateData env); [reflexivity|].
    destruct (forwardImages toCvShare syncAdd camImage m (seq 0 N_CAMERAS) st)
      as [st1|e] eqn:E; [|exact I].
    apply forwardImages_buffer in E.
    destruct (String.eqb (getTopic m) imuTopic) eqn:Et; [|auto].
    destruct (instantiateImu m) as [imu|] eqn:Ei; [|auto].
    right. exists imu. apply String.eqb_eq in Et.
    split; [reflexivity|]. split; [assumption|].
    cbn [pushImu imuBuffer]. rewrite E. apply popWhileOver_skipn.
Qed.

Lemma replayBody_bound (env : Environment) (ns : list (list string))
      (camInfo camImage : list string) (imuTopic : string)
      (st : State) (m : Message) :
  (List.length (imuBuffer st) <= IMU_BUFFER_MAX)%nat ->
  match replayBody toCvShare syncAdd env ns camInfo camImage imuTopic st m
  with
  | Next st' | Break st' | Return _ st' =>
      (List.length (imuBuffer st') <= IMU_BUFFER_MAX)%nat
  | Raise _ => True
  end.
Proof.
  intros Hb.
  pose proof (replayBody_buffer env ns camInfo camImage imuTopic st m) as H.
  destruct (replayBody toCvShare syncAdd env ns camInfo camImage imuTopic
                       st m) as [st'|st'|c st'|e];
    [|congruence|congruence|exact I].
  destruct H as [->|(imu & _ & _ & ->)]; [assumption|].
  rewrite length_skipn. lia.
Qed.

Lemma replay_bound (env : Environment) (ns : list (list string))
      (camInfo camImage : list string) (imuTopic : string)
      (view : list Message) :
  forall (k : nat) (st : State),
    (List.length (imuBuffer st) <= IMU_BUFFER_MAX)%nat ->
    match replay toCvShare syncAdd env ns camInfo camImage imuTopic
                 view k st with
    | Finished _ st' | Returned _ st' =>
        (List.length (imuBuffer st') <= IMU_BUFFER_MAX)%nat
    | Raised _ => True
    end.
Proof.
  induction view as [|m view IH]; intros k st Hb; cbn [replay];
    [assumption|].
  destruct (rosOk env k); cbn [negb]; [|assumption].
  pose proof (replayBody_bound env ns camInfo camImage imuTopic st m Hb)
    as H.
  destruct (replayBody toCvShare syncAdd env ns camInfo camImage imuTopic
                       st m) as [st'|st'|c st'|e];
    [now apply IH | assumption | assumption | exact I].
Qed.

Lemma replayBody_push (env : Environment) (ns : list (list string))
      (camInfo camImage : list string) (imuTopic : string)
      (st st' : State) (m : Message) (imu : Imu Inertial) :
  (N_CAMERAS <= count (init st))%nat ->
  getTopic m = imuTopic ->
  instantiateImu m = Some imu ->
  replayBody toCvShare syncAdd env ns camInfo camImage imuTopic st m
  = Next st' ->
  imuBuffer st' = popWhileOver (imuBuffer st ++ [imu]).
Proof.
  intros Hc Ht Hi. unfold replayBody.
  apply Nat.ltb_ge in Hc. rewrite Hc.
  destruct (readIntermediateData env); [discriminate|].
  destruct (forwardImages toCvShare syncAdd camImage m (seq 0 N_CAMERAS) st)
    as [st1|e] eqn:E; [|discriminate].
  apply forwardImages_buffer in E.
  rewrite Ht, String.eqb_refl, Hi. intros H. inversion H.
  cbn [pushImu imuBuffer]. now rewrite E.
Qed.

Lemma replayBody_no_push (env : Environment) (ns : list (list string))
      (camInfo camImage : list string) (imuTopic : string)
      (st st' : State) (m : Message) :
  replayBody toCvShare syncAdd env ns camInfo camImage imuTopic st m
  = Next st' ->
  (count (init st) < N_CAMERAS)%nat
  \/ getTopic m <> imuTopic
  \/ instantiateImu m = None ->
  imuBuffer st' = imuBuffer st.
Proof.
  unfold replayBody. intros H Hno.
  destruct (count (init st) <? N_CAMERAS)%nat eqn:Ec.
  - destruct (scanCameraInfo camInfo m (seq 0 N_CAMERAS) st) as [st1|e] eqn:E;
      [|discriminate].
    apply scanCameraInfo_buffer in E.
    destruct (count (init st1) =? N_CAMERAS)%nat;
      [|inversion H; congruence].
    destruct (N_CAMERAS <? cameraCount ns)%nat; [discriminate|].
    destruct (scInit env); cbn [negb] in H; [|discriminate].
    inversion H. cbn. assumption.
  - apply Nat.ltb_ge in Ec.
    destruct (readIntermediateData env); [discriminate|].
    destruct (forwardImages toCvShare syncAdd camImage m (seq 0 N_CAMERAS) st)
      as [st1|e] eqn:E; [|discriminate].
    apply forwardImages_buffer in E.
    destruct (String.eqb (getTopic m) imuTopic) eqn:Et;
      [|inversion H; congruence].
    apply String.eqb_eq in Et.
    destruct (instantiateImu m) as [imu|] eqn:Ei;
      [|inversion H; congruence].
    destruct Hno as [Hno|[Hno|Hno]]; [lia | contradiction | discriminate].
Qed.

Lemma forwardImages_total (names : list string) (m : Message)
      (indices : list nat) :
  (forall i, In i indices -> (i < List.length names)%nat) ->
  forall st : State,
    exists st', forwardImages toCvShare syncAdd names m indices st = Ok st'.
Proof.
  induction indices as [|i indices IH]; intros Hin st; cbn; [eauto|].
  unfold at_. destruct (nth_error names i) as [name|] eqn:E.
  - cbn. destruct (String.eqb (getTopic m) name);
      apply IH; intros i' Hi'; apply Hin; now right.
  - apply nth_error_None in E. specialize (Hin i (or_introl eq_refl)). lia.
Qed.

Lemma replayBody_forwards (env : Environment) (ns : list (list string))
      (camInfo camImage : list string) (imuTopic : string)
      (st : State) (m : Message) :
  (N_CAMERAS <= count (init st))%nat ->
  readIntermediateData env = false ->
  (N_CAMERAS <= List.length camImage)%nat ->
  exists st',
    replayBody toCvShare syncAdd env ns camInfo camImage imuTopic st m
    = Next st'.
Proof.
  intros Hc Hr Hl. unfold replayBody.
  apply Nat.ltb_ge in Hc. rewrite Hc, Hr.
  destruct (forwardImages_total camImage m (seq 0 N_CAMERAS)) with (st := st)
    as [st1 ->].
  { intros i Hi. apply in_seq in Hi. lia. }
  destruct (String.eqb (getTopic m) imuTopic);
    [destruct (instantiateImu m)|]; eauto.
Qed.

(** C7: the inertial-sample buffer holds at most 50 samples, the oldest
    being dropped first.  Whatever messages the replay loop has processed,
    starting from the empty buffer, the buffer has at most 50 samples.
    Once the four cameras are initialised, a turn on an inertial message
    of the imu topic appends the sample and keeps the newest 50 of the
    result in their order: below 50 samples nothing is dropped, at 50 the
    oldest sample is dropped and the new one is last.  Such a turn runs to
    its end when the four image topics exist and no intermediate data is
    read.  Any other turn leaves the buffer as it was. *)
Theorem imu_buffer_bounded_C7 (env : Environment) (ns : list (list string))
        (camInfo camImage : list string) (imuTopic : string) :
  (forall (view : list Message) (log : list Ev),
      match replay toCvShare syncAdd env ns camInfo camImage imuTopic
                   view 0 (initialLoopState syncEmpty log) with
      | Finished _ st | Returned _ st =>
          (List.length (imuBuffer st) <= 50)%nat
      | Raised _ => True
      end)
  /\ (forall (st st' : State) (m : Message) (imu : Imu Inertial),
         (N_CAMERAS <= count (init st))%nat ->
         getTopic m = imuTopic ->
         instantiateImu m = Some imu ->
         replayBody toCvShare syncAdd env ns camInfo camImage imuTopic st m
         = Next st' ->
         imuBuffer st'
         = skipn (List.length (imuBuffer st ++ [imu]) - 50)
                 (imuBuffer st ++ [imu])
         /\ ((List.length (imuBuffer st) < 50)%nat ->
             imuBuffer st' = (imuBuffer st ++ [imu])%list)
         /\ (List.length (imuBuffer st) = 50%nat ->
             imuBuffer st' = (tl (imuBuffer st) ++ [imu])%list))
  /\ (forall (st : State) (m : Message),
         (N_CAMERAS <= count (init st))%nat ->
         readIntermediateData env = false ->
         (N_CAMERAS <= List.length camImage)%nat ->
         exists st',
           replayBody toCvShare syncAdd env ns camInfo camImage imuTopic st m
           = Next st')
  /\ (forall (st st' : State) (m : Message),
         replayBody toCvShare syncAdd env ns camInfo camImage imuTopic st m
         = Next st' ->
         (count (init st) < N_CAMERAS)%nat
         \/ getTopic m <> imuTopic
         \/ instantiateImu m = None ->
         imuBuffer st' = imuBuffer st).
Proof.
  split; [|split; [|split]].
  - intros view log. apply replay_bound. cbn. unfold IMU_BUFFER_MAX. lia.
  - intros st st' m imu Hc Ht Hi H.
    rewrite (replayBody_push _ _ _ _ _ _ _ _ _ Hc Ht Hi H).
    rewrite popWhileOver_skipn. unfold IMU_BUFFER_MAX.
    split; [reflexivity|]. rewrite length_app. cbn [List.length].
    split; intros Hl.
    + now replace (List.length (imuBuffer st) + 1 - 50)%nat with 0%nat by lia.
    + rewrite Hl. cbn [Nat.add Nat.sub].
      destruct (imuBuffer st); [discriminate | reflexivity].
  - intros st m. apply replayBody_forwards.
  - intros st st' m. apply replayBody_no_push.
Qed.

(** *** Fewer than four cameras *)

Lemma at_out_of_range {A : Type} (v : list A) (i : nat) :
  (List.length v <= i)%nat -> at_ v i = Throw out_of_range.
Proof.
  intros H. unfold at_. apply nth_error_None in H. now rewrite H.
Qed.

Lemma at_throws {A : Type} (v : list A) (i : nat) (e : Exn) :
  at_ v i = Throw e -> e = out_of_range.
Proof.
  unfold at_. destruct (nth_error v i); [discriminate|]. congruence.
Qed.

Lemma forwardImages_short (names : list string) (m : Message)
      (indices : list nat) :
  (exists i, In i indices /\ (List.length names <= i)%nat) ->
  forall st : State,
    forwardImages toCvShare syncAdd names m indices st
    = Throw out_of_range.
Proof.
  induction indices as [|a indices IH]; intros (i & Hin & Hi) st;
    [destruct Hin|].
  cbn [forwardImages].
  destruct (at_ names a) as [name|e] eqn:Ea; cbn [bind].
  - assert (Hrest : exists i, In i indices /\ (List.length names <= i)%nat).
    { destruct Hin as [<-|Hin]; [|eauto].
      rewrite at_out_of_range in Ea by assumption. discriminate. }
    destruct (String.eqb (getTopic m) name); now apply IH.
  - now rewrite (at_throws _ _ _ Ea).
Qed.

Lemma scanCameraInfo_short (names : list string) (m : Message)
      (indices : list nat) :
  (exists i, In i indices /\ (List.length names <= i)%nat) ->
  (forall n, In n names -> getTopic m <> n) ->
  forall st : State,
    scanCameraInfo names m indices st = Throw out_of_range.
Proof.
  intros Hex Hno.
  induction indices as [|a indices IH]; intros st;
    [destruct Hex as (? & [] & _)|].
  destruct Hex as (i & Hin & Hi).
  cbn [scanCameraInfo].
  destruct (at_ names a) as [name|e] eqn:Ea; cbn [bind].
  - assert (Hrest : exists i, In i indices /\ (List.length names <= i)%nat).
    { destruct Hin as [<-|Hin]; [|eauto].
      rewrite at_out_of_range in Ea by assumption. discriminate. }
    assert (Hname : In name names).
    { unfold at_ in Ea. destruct (nth_error names a) eqn:En;
        [|discriminate].
      inversion Ea; subst. eapply nth_error_In; eauto. }
    apply Hno in Hname. apply String.eqb_neq in Hname. rewrite Hname.
    now apply IH.
  - now rewrite (at_throws _ _ _ Ea).
Qed.

Lemma makeSynchronizer_short (nCams : nat) :
  (nCams < N_CAMERAS)%nat -> makeSynchronizer nCams = Throw out_of_range.
Proof.
  unfold N_CAMERAS. intros H.
  destruct nCams as [|[|[|[|n]]]]; try reflexivity. lia.
Qed.

Lemma main_fewer_cameras (env : Environment) :
  let r := parseConfigFile (configFile env) in
  help env = false ->
  accepted r = true ->
  (cameraCount (cameraNs (final r)) < N_CAMERAS)%nat ->
  main toCvShare syncEmpty syncAdd env
  = match bagOpen env with
    | BagOpened _ =>
        (Uncaught out_of_range, map EvRosError (rosErrors (final r)))
    | BagIOException =>
        (Exit 1,
         (map EvRosError (rosErrors (final r))
          ++ [EvRosError ("Unable to open bag file: "
                          ++ c_str (bagFilename env))])%list)
    end.
Proof.
  intros r Hhelp Hacc Hn.
  unfold main. rewrite Hhelp. fold r. rewrite Hacc. cbn [negb].
  destruct (bagOpen env); [|reflexivity].
  now rewrite (makeSynchronizer_short _ Hn).
Qed.

(** C8: a configuration with fewer than four cameras cannot be processed.
    When the bag opens, [main] ends in [std::out_of_range] where the
    four-way synchronizer takes [imageSubs.at(0)] to [imageSubs.at(3)];
    otherwise it exits with status 1.  It never exits with status 0 and
    produces no output.  The replay loop too indexes the topic lists at
    0..3: on such a configuration the image branch always leaves the
    range, and the camera-info scan does for every message on another
    topic. *)
Theorem four_cameras_C8 (env : Environment) :
  let r := parseConfigFile (configFile env) in
  let ns := cameraNs (final r) in
  help env = false ->
  accepted r = true ->
  (cameraCount ns < N_CAMERAS)%nat ->
  match bagOpen env with
  | BagOpened _ =>
      fst (main toCvShare syncEmpty syncAdd env) = Uncaught out_of_range
  | BagIOException =>
      fst (main toCvShare syncEmpty syncAdd env) = Exit 1
  end
  /\ fst (main toCvShare syncEmpty syncAdd env) <> Exit 0
  /\ forallb isLog (snd (main toCvShare syncEmpty syncAdd env)) = true
  /\ (forall (m : Message) (st : State),
         forwardImages toCvShare syncAdd (topicNames "/image_raw" ns) m
                       (seq 0 N_CAMERAS) st
         = Throw out_of_range
         /\ ((forall n, In n (topicNames "/camera_info" ns) ->
                        getTopic m <> n) ->
             scanCameraInfo (topicNames "/camera_info" ns) m
                            (seq 0 N_CAMERAS) st
             = Throw out_of_range)).
Proof.
  intros r ns Hhelp Hacc Hn.
  assert (Hlog : forall (l : list string) (extra : list Ev),
             forallb isLog extra = true ->
             forallb isLog (map EvRosError l ++ extra) = true).
  { intros l extra He. rewrite forallb_app, He, andb_true_r.
    induction l; cbn; auto. }
  rewrite (main_fewer_cameras env Hhelp Hacc Hn). fold r.
  assert (Hidx : forall names : list string,
             List.length names = cameraCount ns ->
             exists i, In i (seq 0 N_CAMERAS)
                       /\ (List.length names <= i)%nat).
  { intros names Hl. exists 3%nat. split; [cbn; auto|].
    unfold N_CAMERAS in Hn. lia. }
  split; [destruct (bagOpen env); reflexivity|].
  split; [destruct (bagOpen env); discriminate|].
  split.
  - destruct (bagOpen env); cbn [snd].
    + rewrite <- (app_nil_r (map _ _)). now apply Hlog.
    + now apply Hlog.
  - intros m st. split.
    + apply forwardImages_short, Hidx, topicNames_length.
    + intros Hno. apply scanCameraInfo_short; [|assumption].
      apply Hidx, topicNames_length.
Qed.

(** *** More than four cameras

    Only the first [N_CAMERAS] cameras are ever generated, so the rig
    set-up meets an empty camera pointer and the calibration object is
    never created. *)

Lemma scanCameraInfo_sc (names : list string) (m : Message)
      (indices : list nat) (st st' : State) :
  scanCameraInfo names m indices st = Ok st' -> sc st' = sc st.
Proof.
  revert st; induction indices as [|i indices IH]; intros st; cbn.
  - intros H. now inversion H.
  - destruct (at_ names i) as [name|]; cbn; [|discriminate].
    destruct (String.eqb (getTopic m) name); [|apply IH].
    destruct (nth i (init st) false); [intros H; now inversion H|].
    destruct (instantiateCameraInfo m); intros H; now inversion H.
Qed.

Lemma newMessage_sc (i : nat) (img : Image Pixels) (st : State) :
  sc (newMessage toCvShare syncAdd i img st) = sc st.
Proof.
  unfold newMessage.
  destruct (syncAdd i img (sync st)) as [sy [[[[a b] c] d]|]]; reflexivity.
Qed.

Lemma forwardImages_sc (names : list string) (m : Message)
      (indices : list nat) (st st' : State) :
  forwardImages toCvShare syncAdd names m indices st = Ok st' ->
  sc st' = sc st.
Proof.
  revert st; induction indices as [|i indices IH]; intros st; cbn.
  - intros H. now inversion H.
  - destruct (at_ names i) as [name|]; cbn; [|discriminate].
    destruct (String.eqb (getTopic m) name); [|apply IH].
    intros H. apply IH in H. cbn in H. rewrite H.
    destruct (instantiateImage m); [apply newMessage_sc | reflexivity].
Qed.

Lemma replayBody_more_cameras (env : Environment) (ns : list (list string))
      (camInfo camImage : list string) (imuTopic : string)
      (st : State) (m : Message) :
  (N_CAMERAS < cameraCount ns)%nat ->
  sc st = false ->
  match replayBody toCvShare syncAdd env ns camInfo camImage imuTopic st m
  with
  | Next st' | Break st' => sc st' = false
  | Return _ _ => False
  | Raise _ => True
  end.
Proof.
  intros Hn Hsc. unfold replayBody. apply Nat.ltb_lt in Hn.
  destruct (count (init st) <? N_CAMERAS)%nat.
  - destruct (scanCameraInfo camInfo m (seq 0 N_CAMERAS) st) as [st1|e] eqn:E;
      [|exact I].
    apply scanCameraInfo_sc in E.
    destruct (count (init st1) =? N_CAMERAS)%nat; [now rewrite Hn|].
    congruence.
  - destruct (readIntermediateData env); [assumption|].
    destruct (forwardImages toCvShare syncAdd camImage m (seq 0 N_CAMERAS) st)
      as [st1|e] eqn:E; [|exact I].
    apply forwardImages_sc in E.
    destruct (String.eqb (getTopic m) imuTopic); [|congruence].
    destruct (instantiateImu m); cbn; congruence.
Qed.

Lemma replay_more_cameras (env : Environment) (ns : list (list string))
      (camInfo camImage : list string) (imuTopic : string)
      (view : list Message) :
  (N_CAMERAS < cameraCount ns)%nat ->
  forall (k : nat) (st : State),
    sc st = false ->
    match replay toCvShare syncAdd env ns camInfo camImage imuTopic
                 view k st with
    | Finished _ st' => sc st' = false
    | Returned _ _ => False
    | Raised _ => True
    end.
Proof.
  intros Hn. induction view as [|m view IH]; intros k st Hsc; cbn [replay];
    [assumption|].
  destruct (rosOk env k); cbn [negb]; [|assumption].
  pose proof (replayBody_more_cameras env ns camInfo camImage imuTopic st m
                Hn Hsc) as H.
  destruct (replayBody toCvShare syncAdd env ns camInfo camImage imuTopic
                       st m) as [st'|st'|c st'|e];
    [now apply IH | assumption | contradiction | exact I].
Qed.

(** [main] returns 0 only for an accepted configuration of exactly
    [N_CAMERAS] cameras. *)
Lemma exit_zero_four_cameras (env : Environment) :
  fst (main toCvShare syncEmpty syncAdd env) = Exit 0 ->
  let r := parseConfigFile (configFile env) in
  accepted r = true /\ cameraCount (cameraNs (final r)) = N_CAMERAS.
Proof.
  intros H r.
  destruct (help env) eqn:Hhelp;
    [unfold main in H; rewrite Hhelp in H; discriminate|].
  destruct (accepted r) eqn:Hacc;
    [|unfold main in H; fold r in H; rewrite Hhelp, Hacc in H; discriminate].
  split; [reflexivity|].
  destruct (Nat.lt_trichotomy (cameraCount (cameraNs (final r))) N_CAMERAS)
    as [Hlt|[Heq|Hgt]]; [|assumption|]; exfalso.
  - rewrite (main_fewer_cameras env Hhelp Hacc Hlt) in H.
    destruct (bagOpen env); discriminate.
  - unfold main in H. fold r in H. rewrite Hhelp, Hacc in H. cbn [negb] in H.
    destruct (bagOpen env) as [messages|]; [|discriminate].
    destruct (makeSynchronizer (cameraCount (cameraNs (final r))));
      [|discriminate].
    destruct (readIntermediateData env && negb (readFromTextFile env));
      [discriminate|].
    match type of H with
    | context [replay ?a ?b ?c ?d ?e ?f ?g ?v ?k ?st] =>
        pose proof (replay_more_cameras c d e f g v Hgt k st eq_refl) as Hr;
        destruct (replay a b c d e f g v k st) as [k' st'|c' st'|e']
    end; [|contradiction|discriminate].
    destruct (rosOk env k'); cbn [negb] in H; [|discriminate].
    rewrite Hr in H. discriminate.
Qed.


(** *** A rejected configuration *)

Lemma main_rejected (env : Environment) :
  accepted (parseConfigFile (configFile env)) = false ->
  abortsBeforeOutput (main toCvShare syncEmpty syncAdd env).
Proof.
  intros H. unfold main, abortsBeforeOutput.
  destruct (help env); cbn [fst snd].
  - split; [exists 1; split; [reflexivity | lia] | reflexivity].
  - rewrite H. cbn [negb fst snd].
    split; [exists 1; split; [reflexivity | lia]|].
    rewrite forallb_app. cbn. rewrite andb_true_r.
    induction (rosErrors (final (parseConfigFile (configFile env))));
      cbn; auto.
Qed.


(** C5: when the configuration file cannot be opened, or has a non-blank
    line whose first token is no sensor type, [parseConfigFile] returns
    false and [main] exits with a non-zero status having done nothing but
    report: no calibration file and no pose file is written. *)
Theorem bad_config_aborts_C5 (env : Environment) :
  (configFile env = None
   \/ exists content l,
       configFile env = Some content
       /\ In l (fileLines content)
       /\ empty l = false /\ recognized l = false) ->
  accepted (parseConfigFile (configFile env)) = false
  /\ abortsBeforeOutput (main toCvShare syncEmpty syncAdd env)
  /\ (forall e, In e (snd (main toCvShare syncEmpty syncAdd env)) ->
                e <> EvWriteCalibration
                /\ forall f, e <> EvWritePoses f).
Proof.
  intros H.
  assert (Ha : accepted (parseConfigFile (configFile env)) = false).
  { destruct H as [->|(content & l & -> & Hl & He & Hr)]; [reflexivity|].
    destruct (accepted (parseConfigFile (Some content))) eqn:E;
      [|reflexivity].
    apply accepted_iff in E as (E & _).
    rewrite forallb_forall in E. specialize (E l Hl).
    unfold parses in E. rewrite He in E. cbn [orb] in E.
    destruct (topicsOf l) as [ts|] eqn:Et; [|discriminate].
    apply topicsOf_shape in Et as (t & Et & _).
    unfold recognized in Hr. rewrite Et in Hr. discriminate. }
  split; [assumption|].
  pose proof (main_rejected env Ha) as Hm.
  split; [assumption|].
  destruct Hm as [_ Hlog]. rewrite forallb_forall in Hlog.
  intros e He. specialize (Hlog e He).
  split; [|intros f]; intros ->; discriminate.
Qed.

End NodeProperties.

(** ** The node on a concrete rig *)



Lemma bad_config_aborts_C5_witness :
  accepted (parseConfigFile (Some lidarConfig)) = false
  /\ abortsBeforeOutput (demoMain (demoEnv (Some lidarConfig))).
Proof.
  destruct (bad_config_aborts_C5 nat nat nat unit unit demoConvert tt
              demoSyncAdd (demoEnv (Some lidarConfig))) as (A & B & _).
  - right. exists lidarConfig, "lidar /scan".
    split; [reflexivity|]. split; [vm_compute; auto|].
    split; reflexivity.
  - split; assumption.
Defined.

Lemma voCallback_C6_witness :
  let frame (n : nat) : Image nat := (mkTime 12 500, n) in
  let sample : Imu nat := (mkTime 12 500, 9%nat) in
  exists images,
    voCallback (Inertial := nat) (CameraInfo := unit) demoConvert
               (frame 1%nat) (frame 2%nat) (frame 3%nat) (frame 4%nat)
               [((mkTime 11 0, 8%nat) : Imu nat); sample]
    = [EvProcessFrames (mkTime 12 500) images sample].
Proof.
  intros frame sample.
  destruct (voCallback_C6 nat nat nat unit demoConvert
              (frame 1%nat) (frame 2%nat) (frame 3%nat) (frame 4%nat)
              [((mkTime 11 0, 8%nat) : Imu nat); sample]) as (A & _).
  destruct A as (imu & images & Hout & Hin & Hst & _).
  - split.
    + exists sample. split; [right; left; reflexivity | reflexivity].
    + intros m [<-|[<-|[<-|[<-|[]]]]]; discriminate.
  - exists images. rewrite Hout. do 2 f_equal.
    destruct Hin as [<-|[<-|[]]]; [discriminate Hst | reflexivity].
Defined.

Lemma imu_buffer_bounded_C7_witness :
  let st := mkLoopState [true; true; true; true] fullBuffer tt true [] in
  let m := mkMessage "/imu" (PImu (mkTime 50 0, 50%nat)) in
  exists st',
    replayBody demoConvert demoSyncAdd successEnv demoNamespaces
               (topicNames "/camera_info" demoNamespaces)
               (topicNames "/image_raw" demoNamespaces) "/imu" st m
    = Next st'
    /\ imuBuffer st' = (tl fullBuffer ++ [(mkTime 50 0, 50%nat)])%list.
Proof.
  cbv zeta.
  destruct (imu_buffer_bounded_C7 nat nat nat unit unit demoConvert tt
              demoSyncAdd successEnv demoNamespaces
              (topicNames "/camera_info" demoNamespaces)
              (topicNames "/image_raw" demoNamespaces) "/imu")
    as (_ & Hpush & Hrun & _).
  destruct (Hrun (mkLoopState [true; true; true; true] fullBuffer tt true [])
                 (mkMessage "/imu" (PImu (mkTime 50 0, 50%nat))))
    as [st' Hst']; [vm_compute; lia | reflexivity | vm_compute; lia|].
  exists st'. split; [exact Hst'|].
  apply (Hpush _ st' _ (mkTime 50 0, 50%nat)) in Hst' as (_ & _ & H);
    [apply H; reflexivity | vm_compute; lia | reflexivity | reflexivity].
Defined.

Lemma four_cameras_C8_witness :
  fst (demoMain (demoEnv (Some twoCameraConfig))) = Uncaught out_of_range.
Proof.
  destruct (four_cameras_C8 nat nat nat unit unit demoConvert tt demoSyncAdd
              (demoEnv (Some twoCameraConfig))) as (A & _).
  - reflexivity.
  - vm_compute. reflexivity.
  - vm_compute. lia.
  - exact A.
Defined.

(** ** Further properties of the configuration parser *)

Lemma append_assoc (a b c : string) : (a ++ b) ++ c = a ++ (b ++ c).
Proof. induction a as [|x a IH]; cbn; congruence. Qed.

Lemma lacks_append (c : ascii) (a b : string) :
  lacks c (a ++ b) = lacks c a && lacks c b.
Proof.
  induction a as [|x a IH]; cbn; [reflexivity|].
  now rewrite IH, andb_assoc.
Qed.

(** A string with a space is cut at its first one. *)
Lemma first_space (s : string) :
  lacks space s = false ->
  exists a b, s = a ++ String space b /\ lacks space a = true.
Proof.
  induction s as [|c s IH]; cbn; [discriminate|].
  destruct (Ascii.eqb c space) eqn:Ec; cbn.
  - intros _. apply Ascii.eqb_eq in Ec. subst c.
    exists "", s. auto.
  - intros H. destruct (IH H) as (a & b & -> & Ha).
    exists (String c a), b. cbn. now rewrite Ec, Ha.
Qed.

Lemma size_prefix (a b : string) (c : ascii) :
  size a < size (a ++ String c b).
Proof.
  rewrite size_append, size_String. pose proof (size_nonneg b). lia.
Qed.

(** X1: what one call of [parseTokenFromString] does to a non-empty
    string.  It returns true with a token free of spaces.  When the string
    has a space, the token is the text before the first one, [pos] is its
    index, and the token and that space are removed from the string: token,
    space and remaining string make up the original.  When it has none, the
    token is the whole string, [pos] is [npos], and the string is left as it
    was. *)
Theorem parseToken_cut (s token : string) (pos : Z) :
  size s < npos ->
  empty s = false ->
  exists tok rest p,
    parseTokenFromString s token pos = (true, (rest, tok, p))
    /\ lacks space tok = true
    /\ ((lacks space s = false
         /\ s = tok ++ String space rest /\ p = size tok)
        \/ (lacks space s = true /\ tok = s /\ rest = s /\ p = npos)).
Proof.
  intros Hs He. destruct (lacks space s) eqn:Hl.
  - exists s, s, npos. rewrite parseToken_last by (auto; lia).
    split; [reflexivity|]. split; [assumption|]. right. auto.
  - destruct (first_space s Hl) as (a & b & -> & Ha).
    exists a, b, (size a).
    rewrite parseToken_space by (auto; pose proof (size_prefix a b space); lia).
    split; [reflexivity|]. split; [assumption|]. left. auto.
Qed.

Lemma parseToken_cut_witness :
  exists tok rest p,
    parseTokenFromString "mono /cam" "" 0 = (true, (rest, tok, p))
    /\ lacks space tok = true
    /\ ((lacks space "mono /cam" = false
         /\ "mono /cam" = tok ++ String space rest /\ p = size tok)
        \/ (lacks space "mono /cam" = true
            /\ tok = "mono /cam" /\ rest = "mono /cam" /\ p = npos)).
Proof. apply (parseToken_cut "mono /cam" "" 0); reflexivity. Defined.

(** *** Blank lines *)

Lemma foldLines_nonBlank (ls : list string) :
  forall st, foldLines st (nonBlank ls) = foldLines st ls.
Proof.
  induction ls as [|l ls IH]; intros st; [reflexivity|].
  unfold nonBlank in *. cbn [filter foldLines].
  destruct (empty l) eqn:He; cbn [negb].
  - unfold lineBody. rewrite He. apply IH.
  - cbn [foldLines]. destruct (lineBody st l); [apply IH | reflexivity].
Qed.

(** X2: blank lines do not count.  Two files with the same non-blank lines
    in the same order give the same result, whatever blank lines and final
    newline they have. *)
Theorem blank_lines_ignored (content content' : string) :
  nonBlank (fileLines content) = nonBlank (fileLines content') ->
  parseConfigFile (Some content) = parseConfigFile (Some content').
Proof.
  intros H. rewrite !parseConfigFile_lines.
  rewrite <- (foldLines_nonBlank (fileLines content)).
  rewrite <- (foldLines_nonBlank (fileLines content')).
  now rewrite H.
Qed.

Lemma blank_lines_ignored_witness :
  parseConfigFile (Some (nl ++ "stereo /a /b" ++ nl ++ nl ++ "imu /i" ++ nl))
  = parseConfigFile (Some ("stereo /a /b" ++ nl ++ "imu /i")).
Proof. apply blank_lines_ignored. reflexivity. Defined.

(** *** Errors *)

Lemma lineBody_errors (st : ParseState) (l : string) :
  match lineBody st l with
  | Continue st' => rosErrors st' = rosErrors st
  | ReturnFalse st' =>
      exists msg, rosErrors st' = (rosErrors st ++ [msg])%list
  end.
Proof.
  rewrite lineBody_spec. destruct (empty l); [reflexivity|].
  line_cases l Et Ets; try destruct (hasIMU st); cbn; eauto.
Qed.

Lemma foldLines_errors (ls : list string) :
  forall st,
    (accepted (foldLines st ls) = true
     /\ rosErrors (final (foldLines st ls)) = rosErrors st)
    \/ (accepted (foldLines st ls) = false
        /\ (rosErrors (final (foldLines st ls)) = rosErrors st
            \/ exists msg,
                rosErrors (final (foldLines st ls))
                = (rosErrors st ++ [msg])%list)).
Proof.
  induction ls as [|l ls IH]; intros st; cbn [foldLines].
  - unfold afterLoop. destruct (negb (hasStereo st) || negb (hasIMU st));
      cbn; auto.
  - pose proof (lineBody_errors st l) as H.
    destruct (lineBody st l) as [st'|st'].
    + rewrite <- H. apply IH.
    + right. cbn. auto.
Qed.

(** X3: [parseConfigFile] reports at most one error, and none when it
    accepts the file. *)
Theorem parse_error_count (configFile : ConfigFile) :
  let r := parseConfigFile configFile in
  (List.length (rosErrors (final r)) <= 1)%nat
  /\ (accepted r = true -> rosErrors (final r) = []).
Proof.
  destruct configFile as [content|]; [|cbn; auto].
  cbv zeta. rewrite parseConfigFile_lines.
  destruct (foldLines_errors (fileLines content) initialParseState)
    as [[Ha He]|[Ha [He|[msg He]]]]; rewrite He, ?Ha; cbn; split;
    auto; discriminate.
Qed.

(** The loop runs over a prefix of lines that are all read to the end and
    hold at most one imu line. *)
Lemma foldLines_prefix (pre : list string) :
  forall st,
    forallb parses pre = true ->
    (countLines IMU pre + (if hasIMU st then 1 else 0) <= 1)%nat ->
    exists st',
      (forall rest, foldLines st (pre ++ rest) = foldLines st' rest)
      /\ rosErrors st' = rosErrors st
      /\ cameraNs st' = (cameraNs st ++ collect cameraEntry pre)%list
      /\ hasStereo st' = (hasStereo st || (0 <? countLines Stereo pre)%nat)
      /\ hasIMU st' = (hasIMU st || (0 <? countLines IMU pre)%nat).
Proof.
  induction pre as [|l pre IH]; intros st Hp Hi.
  - exists st. cbn. rewrite app_nil_r, !orb_false_r. auto.
  - cbn [forallb] in Hp. apply andb_prop in Hp as [Hl Hp].
    rewrite countLines_cons in Hi.
    assert (Hstep : exists st1,
               lineBody st l = Continue st1
               /\ rosErrors st1 = rosErrors st
               /\ cameraNs st1
                  = (cameraNs st
                     ++ match cameraEntry l with
                        | Some e => [e]
                        | None => []
                        end)%list
               /\ hasStereo st1 = (hasStereo st || declares Stereo l)
               /\ hasIMU st1 = (hasIMU st || declares IMU l)).
    { rewrite lineBody_spec. unfold parses, cameraEntry, declares in *.
      destruct (empty l) eqn:He.
      { rewrite (sensorType_blank l He). exists st. cbn.
        rewrite app_nil_r, !orb_false_r. auto. }
      cbn [orb] in Hl.
      destruct (topicsOf l) as [ts|] eqn:Ets; [|discriminate].
      destruct (topicsOf_shape l ts Ets) as (t & Et & Hlen).
      rewrite Et in *.
      destruct t; cbn [arity SensorType_eqb] in *.
      - destruct ts as [|a [|b [|? ?]]]; try discriminate Hlen.
        exists (pushStereo a b st). cbn. rewrite orb_true_r, orb_false_r.
        auto.
      - destruct ts as [|a [|? ?]]; try discriminate Hlen.
        exists (pushMono a st). cbn. rewrite !orb_false_r. auto.
      - destruct ts as [|a [|? ?]]; try discriminate Hlen.
        destruct (hasIMU st) eqn:Hh; [lia|].
        exists (setIMU a st). cbn. rewrite app_nil_r, orb_false_r. auto. }
    destruct Hstep as (st1 & Hb & He1 & Hc1 & Hs1 & Hi1).
    destruct (IH st1 Hp) as (st' & Hf & He' & Hc' & Hs' & Hi').
    { rewrite Hi1. destruct (hasIMU st), (declares IMU l); cbn in *; lia. }
    exists st'. split; [|split; [|split; [|split]]].
    + intros rest. cbn [app foldLines]. rewrite Hb. apply Hf.
    + congruence.
    + rewrite Hc', Hc1, <- app_assoc. f_equal. cbn [collect].
      destruct (cameraEntry l); reflexivity.
    + rewrite Hs', Hs1, countLines_cons.
      destruct (hasStereo st), (declares Stereo l),
        (countLines Stereo pre); reflexivity.
    + rewrite Hi', Hi1, countLines_cons.
      destruct (hasIMU st), (declares IMU l), (countLines IMU pre);
        reflexivity.
Qed.

(** X4: a file that lacks a stereo line or an imu line is rejected without
    a word.  When every line is read to the end and no imu line is repeated,
    the loop reaches the final check, which returns false with no error
    reported. *)
Theorem missing_sensor_silent (content : string) :
  let r := parseConfigFile (Some content) in
  forallb parses (fileLines content) = true ->
  (countLines IMU (fileLines content) <= 1)%nat ->
  countLines Stereo (fileLines content) = 0%nat
  \/ countLines IMU (fileLines content) = 0%nat ->
  accepted r = false
  /\ rosErrors (final r) = []
  /\ cameraNs (final r) = collect cameraEntry (fileLines content).
Proof.
  intros r Hp Hi Hmiss. subst r. rewrite parseConfigFile_lines.
  destruct (foldLines_prefix (fileLines content) initialParseState Hp)
    as (st' & Hf & He & Hc & Hs & Himu); [cbn; lia|].
  specialize (Hf []). rewrite app_nil_r in Hf. rewrite Hf.
  cbn [foldLines]. unfold afterLoop. cbn in Hs, Himu, He, Hc.
  assert (Hreject : negb (hasStereo st') || negb (hasIMU st') = true).
  { rewrite Hs, Himu. destruct Hmiss as [-> | ->]; cbn;
      [reflexivity | apply orb_true_r]. }
  rewrite Hreject. cbn. auto.
Qed.

Lemma missing_sensor_silent_witness :
  let r := parseConfigFile (Some ("stereo /a /b" ++ nl ++ "mono /c" ++ nl)) in
  accepted r = false /\ rosErrors (final r) = []
  /\ cameraNs (final r) = [["/a"; "/b"]; ["/c"]].
Proof.
  apply (missing_sensor_silent ("stereo /a /b" ++ nl ++ "mono /c" ++ nl)).
  - reflexivity.
  - vm_compute. lia.
  - right. reflexivity.
Defined.

(** X9: the first line with an unknown sensor type ends the parse.  When
    the lines before it are read to the end, with at most one imu line among
    them, the file is rejected, the one error reported names the first token
    of that line as [%s] prints it (up to its first NUL character), and the
    camera namespaces are those declared before it. *)
Theorem unknown_sensor_reported (content : string)
        (pre post : list string) (l : string) :
  let r := parseConfigFile (Some content) in
  fileLines content = (pre ++ l :: post)%list ->
  forallb parses pre = true ->
  (countLines IMU pre <= 1)%nat ->
  empty l = false ->
  recognized l = false ->
  accepted r = false
  /\ rosErrors (final r) = ["Unknown sensor type: " ++ c_str (firstToken l)]
  /\ cameraNs (final r) = collect cameraEntry pre.
Proof.
  intros r Hlines Hp Hi He Hr. subst r.
  rewrite parseConfigFile_lines, Hlines.
  destruct (foldLines_prefix pre initialParseState Hp)
    as (st' & Hf & Herr & Hc & _); [cbn; lia|].
  rewrite Hf. cbn [foldLines]. rewrite lineBody_spec, He.
  unfold recognized in Hr.
  destruct (sensorType l); [discriminate|].
  cbn in *. rewrite Herr, Hc. auto.
Qed.

Lemma unknown_sensor_reported_witness :
  let r := parseConfigFile (Some lidarConfig) in
  accepted r = false
  /\ rosErrors (final r) = ["Unknown sensor type: lidar"]
  /\ cameraNs (final r) = [["/cam0"; "/cam1"]].
Proof.
  apply (unknown_sensor_reported lidarConfig ["stereo /cam0 /cam1"]
           ["imu /imu"; ""] "lidar /scan"); try reflexivity.
  vm_compute. lia.
Defined.

(** *** The imu topic *)

Lemma foldLines_imu (ls : list string) :
  forall st,
    accepted (foldLines st ls) = true ->
    (hasIMU st = true
     /\ imuTopicName (final (foldLines st ls)) = imuTopicName st)
    \/ (hasIMU st = false
        /\ exists l, In l ls /\ sensorType l = Some IMU
                     /\ topicsOf l
                        = Some [imuTopicName (final (foldLines st ls))]).
Proof.
  induction ls as [|l ls IH]; intros st H.
  - cbn [foldLines] in *. unfold afterLoop in *.
    destruct (hasStereo st), (hasIMU st); try discriminate H. cbn. auto.
  - cbn [foldLines] in *. rewrite lineBody_spec in *.
    assert (Hin : forall st',
               accepted (foldLines st' ls) = true ->
               hasIMU st' = hasIMU st ->
               imuTopicName st' = imuTopicName st ->
               (hasIMU st = true
                /\ imuTopicName (final (foldLines st' ls)) = imuTopicName st)
               \/ (hasIMU st = false
                   /\ exists l0, In l0 (l :: ls) /\ sensorType l0 = Some IMU
                                 /\ topicsOf l0
                                    = Some [imuTopicName
                                              (final (foldLines st' ls))])).
    { intros st' Ha Hh Ht.
      destruct (IH st' Ha) as [[A B]|[A (l0 & Hl0 & C & D)]].
      - left. split; congruence.
      - right. split; [congruence|]. exists l0. split; [now right | auto]. }
    destruct (empty l) eqn:He; [now apply Hin|].
    line_cases l Et Ets; try discriminate H;
      try (apply Hin; [assumption | reflexivity | reflexivity]).
    all: destruct (hasIMU st) eqn:Hh; try discriminate H.
    right. split; [reflexivity|]. exists l. split; [now left|].
    split; [assumption|].
    destruct (IH _ H) as [[_ B]|[A _]]; [|discriminate A].
    now rewrite B.
Qed.

Lemma countLines_In (t : SensorType) (l : string) (ls : list string) :
  In l ls -> declares t l = true -> (1 <= countLines t ls)%nat.
Proof.
  induction ls as [|a ls IH]; intros Hin Hd; [destruct Hin|].
  rewrite countLines_cons. destruct Hin as [->|Hin].
  - rewrite Hd. lia.
  - specialize (IH Hin Hd). lia.
Qed.

Lemma countLines_unique (t : SensorType) (l l' : string) (ls : list string) :
  countLines t ls = 1%nat ->
  In l ls -> In l' ls ->
  declares t l = true -> declares t l' = true -> l = l'.
Proof.
  induction ls as [|a ls IH]; intros Hc Hl Hl' Hd Hd'; [destruct Hl|].
  rewrite countLines_cons in Hc.
  destruct Hl as [->|Hl], Hl' as [->|Hl']; [reflexivity | | |].
  - rewrite Hd in Hc. pose proof (countLines_In t l' ls Hl' Hd'). lia.
  - rewrite Hd' in Hc. pose proof (countLines_In t l ls Hl Hd). lia.
  - pose proof (countLines_In t l ls Hl Hd).
    destruct (declares t a); [lia|]. apply IH; auto.
Qed.

(** X5: the imu topic of an accepted file is the topic read off its imu
    line; for an imu line in the declaration form [imu <topic>] it is that
    topic. *)
Theorem imu_topic_of_accepted (content : string) :
  let r := parseConfigFile (Some content) in
  accepted r = true ->
  (exists l, In l (fileLines content) /\ sensorType l = Some IMU
             /\ topicsOf l = Some [imuTopicName (final r)])
  /\ (representable content ->
      forall l t, In l (fileLines content) ->
                  declarationOf l = Some (DImu t) ->
                  imuTopicName (final r) = t).
Proof.
  intros r Ha. subst r. pose proof Ha as Hacc.
  apply accepted_iff in Hacc as (_ & _ & Hone).
  rewrite parseConfigFile_lines in *.
  destruct (foldLines_imu _ _ Ha) as [[A _]|[_ (l0 & Hl0 & Ht0 & Hts0)]];
    [discriminate A|].
  split; [eauto|].
  intros Hfit l t Hl Hd.
  destruct (declaration_line l _ (lines_fit content l Hfit Hl) Hd)
    as [Ht Hts]. cbn in Ht, Hts.
  assert (l0 = l).
  { apply (countLines_unique IMU l0 l (fileLines content)); auto;
      unfold declares; [rewrite Ht0 | rewrite Ht]; reflexivity. }
  subst l0. congruence.
Qed.

Lemma imu_topic_of_accepted_witness :
  imuTopicName (final (parseConfigFile (Some exampleConfig))) = "/imu".
Proof.
  destruct (imu_topic_of_accepted exampleConfig) as [_ H];
    [reflexivity|].
  apply (H ltac:(reflexivity) "imu /imu");
    [vm_compute; auto | reflexivity].
Defined.

(** *** The camera namespaces, accepted or not *)

Lemma cameraEntry_size (l : string) (e : list string) :
  cameraEntry l = Some e -> List.length e = 1%nat \/ List.length e = 2%nat.
Proof.
  unfold cameraEntry. destruct (sensorType l) as [[ | | ]|] eqn:Et;
    try discriminate; intros H;
    apply topicsOf_shape in H as (t & Et' & Hlen);
    rewrite Et in Et'; inversion Et'; subst; cbn in Hlen; auto.
Qed.

Lemma lineBody_cameras (st : ParseState) (l : string) :
  match lineBody st l with
  | Continue st' =>
      cameraNs st'
      = (cameraNs st
         ++ match cameraEntry l with Some e => [e] | None => [] end)%list
  | ReturnFalse st' => cameraNs st' = cameraNs st
  end.
Proof.
  rewrite lineBody_spec. unfold cameraEntry.
  destruct (empty l) eqn:He.
  { rewrite (sensorType_blank l He). now rewrite app_nil_r. }
  line_cases l Et Ets; try destruct (hasIMU st); cbn;
    rewrite ?app_nil_r; reflexivity.
Qed.

Lemma foldLines_cameras (ls : list string) :
  forall st,
    exists rest,
      (cameraNs st ++ collect cameraEntry ls)%list
      = (cameraNs (final (foldLines st ls)) ++ rest)%list.
Proof.
  induction ls as [|l ls IH]; intros st; cbn [foldLines collect].
  - exists []. unfold afterLoop.
    destruct (negb (hasStereo st) || negb (hasIMU st)); reflexivity.
  - pose proof (lineBody_cameras st l) as H.
    destruct (lineBody st l) as [st'|st'].
    + destruct (IH st') as (rest & Hr). exists rest.
      rewrite <- Hr, H, <- app_assoc.
      destruct (cameraEntry l); reflexivity.
    + cbn. rewrite H. eauto.
Qed.

Lemma collect_sizes (ls : list string) :
  Forall (fun v : list string =>
            List.length v = 1%nat \/ List.length v = 2%nat)
         (collect cameraEntry ls).
Proof.
  induction ls as [|l ls IH]; cbn; [constructor|].
  destruct (cameraEntry l) as [e|] eqn:E; [|assumption].
  constructor; [now apply (cameraEntry_size l) | assumption].
Qed.

(** X6: whatever the file, accepted or rejected, the camera-namespace list
    that [parseConfigFile] leaves behind holds the entries of the first
    camera lines of the file, in order, and each entry has one or two
    names. *)
Theorem cameraNs_partial (content : string) :
  let r := parseConfigFile (Some content) in
  (exists rest,
      collect cameraEntry (fileLines content)
      = (cameraNs (final r) ++ rest)%list)
  /\ Forall (fun v : list string =>
               List.length v = 1%nat \/ List.length v = 2%nat)
            (cameraNs (final r)).
Proof.
  intros r. subst r. rewrite parseConfigFile_lines.
  destruct (foldLines_cameras (fileLines content) initialParseState)
    as (rest & Hr).
  cbn [initialParseState cameraNs app] in Hr.
  split; [eauto|].
  pose proof (collect_sizes (fileLines content)) as Hs.
  rewrite Hr in Hs. apply Forall_app in Hs. tauto.
Qed.

(** X21: the exact condition of acceptance.  A file that opens is accepted
    if and only if each of its lines is blank or has a recognized sensor type
    and is read to the end, at least one line is a stereo line and exactly
    one is an imu line. *)
Theorem acceptance_exact (content : string) :
  accepted (parseConfigFile (Some content)) = true
  <-> forallb parses (fileLines content) = true
      /\ (1 <= countLines Stereo (fileLines content))%nat
      /\ countLines IMU (fileLines content) = 1%nat.
Proof. exact (accepted_iff content). Qed.

(** *** Text after the topics *)

Lemma append_String (a b c : string) (x : ascii) :
  (a ++ String x b) ++ c = a ++ String x (b ++ c).
Proof. now rewrite append_assoc. Qed.

(** The shape of a line in one of the declaration forms. *)
Lemma declaration_form (l : string) (d : Declaration) :
  declarationOf l = Some d ->
  exists kw,
    lacks space kw = true
    /\ match d with
       | DStereo a b =>
           l = kw ++ String space (a ++ String space b)
           /\ lacks space a = true /\ lacks space b = true
           /\ empty a = false /\ empty b = false
       | DMono t | DImu t =>
           l = kw ++ String space t
           /\ lacks space t = true /\ empty t = false
       end.
Proof.
  intros H. unfold declarationOf, fields in H.
  destruct (splitOn space l) as [|kw [|a [|b [|? ?]]]] eqn:E;
    try discriminate.
  - apply splitOn_two in E as (s1 & -> & E1 & Hkw).
    apply splitOn_one in E1 as (-> & Ha).
    exists kw. split; [assumption|].
    destruct (iequals kw "mono"), (iequals kw "imu"), (empty a) eqn:Ea;
      cbn in H; inversion H; subst; auto.
  - apply splitOn_two in E as (s1 & -> & E1 & Hkw).
    apply splitOn_two in E1 as (s2 & -> & E2 & Ha).
    apply splitOn_one in E2 as (-> & Hb).
    exists kw. split; [assumption|].
    destruct (iequals kw "stereo"), (empty a) eqn:Ea, (empty b) eqn:Eb;
      cbn in H; inversion H; subst; auto.
Qed.

Lemma trailing_line (l : string) (d : Declaration) :
  size l < npos ->
  declarationOf l = Some d ->
  forall rest st, lineBody st (l ++ String space rest) = lineBody st l.
Proof.
  intros Hsz Hd rest st.
  destruct (declaration_line l d Hsz Hd) as [Ht Hts].
  destruct (declaration_form l d Hd) as (kw & Hkw & Hform).
  assert (He : empty l = false) by (destruct l; [discriminate Hd | reflexivity]).
  assert (He' : empty (l ++ String space rest) = false)
    by (destruct l; reflexivity).
  assert (HX : exists X, l = kw ++ String space X).
  { destruct d; destruct Hform as (Hl & _); eauto. }
  destruct HX as (X & HX).
  assert (Hk : size kw < npos /\
               sensorType (l ++ String space rest) = Some (kindOf d)).
  { assert (Hkw' : size kw < npos).
    { rewrite HX, size_append, size_String in Hsz.
      pose proof (size_nonneg X). lia. }
    split; [assumption|]. rewrite <- Ht. unfold sensorType.
    rewrite HX, append_String. now rewrite !firstToken_space by auto. }
  destruct Hk as [Hkwsz Ht'].
  assert (Hts' : topicsOf (l ++ String space rest) = Some (declaredTopics d)).
  { unfold topicsOf. rewrite Ht'.
    destruct d; destruct Hform as (Hl & Hrest); subst l;
      rewrite !size_append, !size_String, ?size_append, ?size_String in Hsz;
      pose proof (size_nonneg kw);
      cbn [kindOf arity tokens declaredTopics].
    - destruct Hrest as (Ha & Hb & _).
      pose proof (size_nonneg topicA). pose proof (size_nonneg topicB).
      rewrite !append_String.
      rewrite parseToken_space by (auto; lia).
      rewrite parseToken_space by (auto; lia).
      rewrite parseToken_space by (auto; lia).
      reflexivity.
    - destruct Hrest as (Ha & _). pose proof (size_nonneg topic).
      rewrite !append_String.
      rewrite parseToken_space by (auto; lia).
      rewrite parseToken_space by (auto; lia).
      reflexivity.
    - destruct Hrest as (Ha & _). pose proof (size_nonneg topic).
      rewrite !append_String.
      rewrite parseToken_space by (auto; lia).
      rewrite parseToken_space by (auto; lia).
      reflexivity. }
  rewrite !lineBody_spec, He, He', Ht, Ht', Hts, Hts'. reflexivity.
Qed.

(** X7: text after the topics of a declaration is not looked at.  A file
    in which some declarations are followed by a space and further text
    gives the same result as the file without that text. *)
Theorem trailing_text_ignored (content content' : string) :
  representable content ->
  Forall2 withTrailingText (fileLines content) (fileLines content') ->
  parseConfigFile (Some content') = parseConfigFile (Some content).
Proof.
  intros Hfit H. rewrite !parseConfigFile_lines.
  assert (Hsz : forall l, In l (fileLines content) -> size l < npos)
    by (intros l; apply lines_fit; assumption).
  generalize initialParseState as st.
  induction H as [|l l' ls ls' Hl _ IH]; intros st; [reflexivity|].
  cbn [foldLines].
  assert (Hb : lineBody st l' = lineBody st l).
  { destruct Hl as [->|[Hd (rest & ->)]]; [reflexivity|].
    unfold isDeclaration in Hd.
    destruct (declarationOf l) as [d|] eqn:Ed; [|discriminate].
    apply (trailing_line l d); [apply Hsz; now left | assumption]. }
  rewrite Hb. destruct (lineBody st l); [|reflexivity].
  apply IH. intros l0 Hin. apply Hsz. now right.
Qed.

Lemma trailing_text_ignored_witness :
  parseConfigFile
    (Some ("stereo /a /b left and right" ++ nl ++ "imu /i # the imu"))
  = parseConfigFile (Some ("stereo /a /b" ++ nl ++ "imu /i")).
Proof.
  apply trailing_text_ignored; [reflexivity|].
  change (Forall2 withTrailingText
            ["stereo /a /b"; "imu /i"]
            ["stereo /a /b" ++ String space "left and right";
             "imu /i" ++ String space "# the imu"]).
  repeat (apply Forall2_cons;
          [right; split; [reflexivity | eexists; reflexivity]|]).
  apply Forall2_nil.
Defined.

(** *** When a missing topic is noticed *)

Lemma splitOn_lacks (sep : ascii) (s : string) :
  lacks sep s = true -> splitOn sep s = [s].
Proof.
  induction s as [|c s IH]; cbn; [reflexivity|].
  intros H. apply andb_prop in H as [Hc Hs].
  destruct (Ascii.eqb c sep); [discriminate|]. now rewrite IH.
Qed.

Lemma splitOn_app (sep : ascii) (a b : string) :
  lacks sep a = true ->
  splitOn sep (a ++ String sep b) = a :: splitOn sep b.
Proof.
  induction a as [|c a IH]; cbn.
  - intros _. now rewrite Ascii.eqb_refl.
  - intros H. apply andb_prop in H as [Hc Ha].
    destruct (Ascii.eqb c sep); [discriminate|]. now rewrite IH.
Qed.

Lemma splitOn_blank (sep : ascii) (s : string) :
  splitOn sep s = [""] <-> s = "".
Proof.
  split; [|intros ->; reflexivity].
  intros H. now apply splitOn_one in H as [-> _].
Qed.

(** *** Declaration order *)

(** The tokens the parser reads off a line are the fields of the line, as
    far as the fields go. *)
Lemma tokens_fields (n : nat) :
  forall (s : string) (pos : Z) (ts : list string),
    size s < npos ->
    tokens n s pos = Some ts ->
    forall k, (k < List.length (fields s))%nat -> (k < n)%nat ->
              nth_error ts k = nth_error (fields s) k.
Proof.
  induction n as [|n IH]; intros s pos ts Hsz Ht k Hk Hn; [lia|].
  cbn [tokens] in Ht. unfold fields in *.
  destruct (empty s) eqn:He.
  { rewrite parseToken_isempty in Ht by assumption. discriminate. }
  destruct (lacks space s) eqn:Hl.
  - rewrite parseToken_last in Ht by (auto; lia).
    rewrite splitOn_lacks in * by assumption.
    destruct (tokens n s npos) as [ts'|]; [|discriminate].
    inversion Ht; subst.
    destruct k; [reflexivity | cbn in Hk; lia].
  - destruct (first_space s Hl) as (a & b & -> & Ha).
    pose proof (size_prefix a b space) as Hp.
    rewrite parseToken_space in Ht by (auto; lia).
    rewrite splitOn_app in * by assumption.
    destruct (tokens n b (size a)) as [ts'|] eqn:E; [|discriminate].
    inversion Ht; subst.
    destruct k; [reflexivity|]. cbn [nth_error].
    apply (IH b (size a)); [|assumption|cbn in Hk; lia|lia].
    rewrite size_append, size_String in Hsz.
    pose proof (size_nonneg a). lia.
Qed.

Lemma fieldType_sensorType (l : string) :
  size l < npos -> fieldType l = sensorType l.
Proof.
  intros Hsz. unfold fieldType, sensorType, fields.
  destruct (lacks space l) eqn:Hl.
  - rewrite splitOn_lacks by assumption.
    destruct (empty l) eqn:He.
    + apply empty_true in He. subst l. reflexivity.
    + pose proof (parseToken_last l "" 0 He Hl ltac:(lia)) as P.
      rewrite parseToken_nonempty in P by assumption.
      assert (F : firstToken l = l) by (unfold firstToken; congruence).
      now rewrite F.
  - destruct (first_space l Hl) as (a & b & -> & Ha).
    pose proof (size_prefix a b space) as Hp.
    rewrite splitOn_app by assumption.
    now rewrite firstToken_space by (auto; lia).
Qed.

Lemma cameraEntry_contributes (l : string) (e : list string) :
  size l < npos -> cameraEntry l = Some e -> contributes l e.
Proof.
  intros Hsz. unfold cameraEntry, contributes, declaredEntry, topicsOf.
  rewrite (fieldType_sensorType l Hsz).
  destruct (sensorType l) as [[]|]; try discriminate; cbn [arity].
  - destruct (tokens 3 l 0) as [ts|] eqn:E; [|discriminate].
    pose proof (tokens_length _ _ _ _ E) as Hlen.
    pose proof (tokens_fields _ _ _ _ Hsz E) as Hf.
    destruct ts as [|t0 [|t1 [|t2 [|]]]]; try discriminate Hlen.
    cbn. intros H. inversion H; subst.
    destruct (fields l) as [|f0 [|f1 [|f2 rest]]]; try exact I.
    pose proof (Hf 1%nat ltac:(cbn; lia) ltac:(lia)) as H1.
    pose proof (Hf 2%nat ltac:(cbn; lia) ltac:(lia)) as H2.
    cbn in H1, H2. congruence.
  - destruct (tokens 2 l 0) as [ts|] eqn:E; [|discriminate].
    pose proof (tokens_length _ _ _ _ E) as Hlen.
    pose proof (tokens_fields _ _ _ _ Hsz E) as Hf.
    destruct ts as [|t0 [|t1 [|]]]; try discriminate Hlen.
    cbn. intros H. inversion H; subst.
    destruct (fields l) as [|f0 [|f1 rest]]; try exact I.
    pose proof (Hf 1%nat ltac:(cbn; lia) ltac:(lia)) as H1.
    cbn in H1. congruence.
Qed.

Lemma collect_cameraEntry (ls : list string) :
  (forall l, In l ls -> size l < npos) ->
  forallb parses ls = true ->
  Forall2 contributes (cameraLines ls) (collect cameraEntry ls)
  /\ map (@List.length string) (collect cameraEntry ls)
     = map topicCount (cameraLines ls)
  /\ ((forall l, In l (cameraLines ls) -> declaredEntry l <> None) ->
      collect cameraEntry ls = collect declaredEntry ls).
Proof.
  induction ls as [|l ls IH]; intros Hsz Hp.
  { cbn. repeat split. constructor. }
  cbn [forallb] in Hp. apply andb_prop in Hp as [Hl Hp].
  destruct IH as (A & B & C); [intros; apply Hsz; now right | assumption|].
  assert (Hsl : size l < npos) by (apply Hsz; now left).
  pose proof (fieldType_sensorType l Hsl) as Hft.
  unfold cameraLines in *. cbn [filter collect].
  assert (Hno : forall t, sensorType l = Some t ->
                          exists ts, topicsOf l = Some ts
                                     /\ List.length ts = arity t).
  { intros t Ht. unfold parses in Hl.
    destruct (empty l) eqn:He;
      [rewrite (sensorType_blank _ He) in Ht; discriminate|].
    cbn in Hl. destruct (topicsOf l) as [ts|] eqn:E; [|discriminate].
    exists ts. split; [reflexivity|].
    destruct (topicsOf_shape _ _ E) as (t' & Ht' & Hlen). congruence. }
  assert (Hskip : (sensorType l = Some IMU \/ sensorType l = None) ->
                  isCameraLine l = false /\ cameraEntry l = None
                  /\ declaredEntry l = None).
  { intros Hs. unfold isCameraLine, cameraEntry, declaredEntry.
    rewrite Hft. destruct Hs as [-> | ->]; auto. }
  destruct (sensorType l) as [t|] eqn:Hs.
  - destruct (Hno _ eq_refl) as (ts & E & Hlen).
    assert (Hcam : t = IMU \/ (t <> IMU /\ cameraEntry l = Some ts)).
    { unfold cameraEntry. rewrite Hs.
      destruct t; [right | right | left]; auto; split; auto; discriminate. }
    destruct Hcam as [->|[Ht CE]].
    + destruct Hskip as (D & CE & DE); [now left|].
      rewrite D, CE, DE. auto.
    + assert (D : isCameraLine l = true)
        by (unfold isCameraLine; rewrite Hft; destruct t; auto).
      assert (Hn : List.length ts = topicCount l)
        by (unfold topicCount; rewrite Hft, Hlen; destruct t;
            try reflexivity; congruence).
      pose proof (cameraEntry_contributes l ts Hsl CE) as Hc.
      rewrite D, CE. cbn [map]. rewrite Hn, B.
      split; [now constructor|]. split; [reflexivity|].
      intros Hd.
      assert (Hl' : declaredEntry l <> None) by (apply Hd; now left).
      unfold contributes in Hc.
      destruct (declaredEntry l) as [e'|]; [|congruence].
      rewrite Hc, C; [reflexivity|]. intros l' Hl'0. apply Hd. now right.
  - destruct Hskip as (D & CE & DE); [now right|].
    rewrite D, CE, DE. auto.
Qed.

(** C10 fails on the code: topics are cut at every single space, so the
    second of two spaces after the sensor type ends an empty first topic.
    The file is accepted, and the stereo line contributes the empty string
    and its left topic instead of its left and right topics. *)
Lemma double_space_C10 :
  let r := parseConfigFile (Some ("stereo  /a /b" ++ nl ++ "imu /i")) in
  accepted r = true
  /\ cameraNs (final r) = [[""; "/a"]]
  /\ cameraNs (final r) <> [["/a"; "/b"]]
  /\ topicNames "/image_raw" (cameraNs (final r))
     = ["/image_raw"; "/a/image_raw"].
Proof. vm_compute. repeat split. discriminate. Qed.

(** C10, amended: the camera-namespace list of an accepted file has one
    entry per camera line, in file order.  The fields of a line are its
    pieces between single spaces, and a camera line is one whose first
    field is stereo or mono.  A stereo line with two fields or more
    after its sensor type contributes the first of them and then the
    second, a mono line with one field or more contributes the first; an
    entry of a stereo line has two topics and an entry of a mono line one.
    When every camera line has these fields, the list is the list of the
    entries so declared.  The camera-info and image topic lists enumerate
    the cameras of the entries in the same order. *)
Theorem declaration_order_C10 (content : string) :
  let r := parseConfigFile (Some content) in
  let ls := fileLines content in
  representable content ->
  accepted r = true ->
  Forall2 contributes (cameraLines ls) (cameraNs (final r))
  /\ map (@List.length string) (cameraNs (final r))
     = map topicCount (cameraLines ls)
  /\ ((forall l, In l (cameraLines ls) -> declaredEntry l <> None) ->
      cameraNs (final r) = collect declaredEntry ls)
  /\ topicNames "/camera_info" (cameraNs (final r))
     = map (fun n => n ++ "/camera_info") (List.concat (cameraNs (final r)))
  /\ topicNames "/image_raw" (cameraNs (final r))
     = map (fun n => n ++ "/image_raw") (List.concat (cameraNs (final r))).
Proof.
  intros r ls Hfit H. subst r ls.
  apply accepted_lines in H as [Hp Hns].
  rewrite !topicNames_concat, Hns.
  destruct (collect_cameraEntry (fileLines content)) as (A & B & C);
    [intros l Hl; now apply (lines_fit content) | assumption|].
  auto.
Qed.

Lemma declaration_order_C10_witness :
  let r :=
    parseConfigFile
      (Some ("mono /m" ++ nl ++ "imu /i" ++ nl ++ "stereo /l /r")) in
  cameraNs (final r) = [["/m"]; ["/l"; "/r"]]
  /\ topicNames "/image_raw" (cameraNs (final r))
     = ["/m/image_raw"; "/l/image_raw"; "/r/image_raw"].
Proof.
  destruct (declaration_order_C10
              ("mono /m" ++ nl ++ "imu /i" ++ nl ++ "stereo /l /r"))
    as (A & B & C & D & E);
    [vm_compute; reflexivity | vm_compute; reflexivity|].
  cbv zeta. rewrite E, C.
  - vm_compute. auto.
  - intros l Hl. vm_compute in Hl.
    destruct Hl as [<-|[<-|[]]]; vm_compute; discriminate.
Defined.

Lemma tokens_none_empty (n : nat) (pos : Z) : tokens (S n) "" pos = None.
Proof. reflexivity. Qed.

(** X8: when the parser notices a missing topic.  For a line with a
    recognized sensor type, a topic read fails exactly when the line ends
    with the space after the sensor type or, for a stereo line, with the
    space after the first topic.  Without that final space the last token
    is read again and the line passes. *)
Theorem missing_topic_detected (l : string) (t : SensorType) :
  size l < npos ->
  sensorType l = Some t ->
  topicsOf l = None
  <-> ((exists kw, fields l = [kw; ""])
       \/ (t = Stereo /\ exists kw a, fields l = [kw; a; ""])).
Proof.
  intros Hsz Ht. unfold topicsOf, fields. rewrite Ht.
  assert (He : empty l = false).
  { destruct l; [discriminate Ht | reflexivity]. }
  destruct (lacks space l) eqn:Hl.
  { rewrite splitOn_lacks by assumption.
    rewrite tokens_last by (auto; lia). cbn.
    split; [discriminate|].
    intros [(kw & H')|(_ & kw & a & H')]; discriminate. }
  destruct (first_space l Hl) as (k & s1 & -> & Hk).
  rewrite size_append, size_String in Hsz.
  pose proof (size_nonneg k). pose proof (size_nonneg s1).
  rewrite splitOn_app by assumption.
  cbn [tokens]. rewrite parseToken_space by (auto; lia).
  assert (Hmap : forall (o : option (list string)),
             option_map (@tl string) (option_map (cons k) o) = None
             <-> o = None).
  { intros [x|]; cbn; split; congruence. }
  rewrite Hmap.
  destruct (empty s1) eqn:E1.
  { apply empty_true in E1. subst s1.
    destruct t; cbn; (split; [intros _; left; eauto | reflexivity]). }
  destruct (lacks space s1) eqn:Hl1.
  { rewrite splitOn_lacks by assumption.
    rewrite tokens_last by (auto; lia).
    split; [discriminate|].
    intros [(kw & H')|(_ & kw & a & H')]; inversion H'; subst;
      discriminate. }
  destruct (first_space s1 Hl1) as (a & s2 & -> & Ha).
  rewrite size_append, size_String in Hsz.
  pose proof (size_nonneg a). pose proof (size_nonneg s2).
  rewrite splitOn_app by assumption.
  assert (Hne : forall x y, x :: a :: splitOn space s2 <> [y; ""]).
  { intros x y H'. inversion H' as [[Hx Ha' Hnil]].
    now apply splitOn_nonempty in Hnil. }
  destruct t; cbn [arity tokens];
    rewrite parseToken_space by (auto; lia).
  - (* stereo *)
    destruct (empty s2) eqn:E2.
    + apply empty_true in E2. subst s2. cbn.
      split; [intros _; right; eauto | reflexivity].
    + rewrite (parseToken_nonempty s2 E2). cbn.
      split; [discriminate|].
      intros [(kw & H')|(_ & kw & a' & H')];
        [now apply Hne in H'|].
      inversion H' as [[Hx Ha' Hs2]]. apply splitOn_blank in Hs2.
      subst s2. discriminate.
  - cbn. split; [discriminate|].
    intros [(kw & H')|(Hst & _)]; [now apply Hne in H' | discriminate].
  - cbn. split; [discriminate|].
    intros [(kw & H')|(Hst & _)]; [now apply Hne in H' | discriminate].
Qed.

Lemma missing_topic_detected_witness :
  topicsOf "stereo /cam0 " = None /\ topicsOf "stereo /cam0" <> None.
Proof.
  split.
  - apply (missing_topic_detected "stereo /cam0 " Stereo);
      [reflexivity | reflexivity |].
    right. split; [reflexivity|]. exists "stereo", "/cam0". reflexivity.
  - intros H.
    apply (missing_topic_detected "stereo /cam0" Stereo) in H;
      [|reflexivity|reflexivity].
    destruct H as [(kw & H)|(_ & kw & a & H)]; discriminate.
Defined.

(** ** Further properties of the node *)

(** *** The buffer on its own *)

Lemma pushAll_skipn {Inertial : Type} (xs : list (Imu Inertial)) :
  forall buf : list (Imu Inertial),
    (List.length buf <= IMU_BUFFER_MAX)%nat ->
    pushAll buf xs
    = skipn (List.length (buf ++ xs) - IMU_BUFFER_MAX) (buf ++ xs).
Proof.
  unfold pushAll.
  induction xs as [|x xs IH]; intros buf Hb; cbn [fold_left].
  - rewrite app_nil_r.
    replace (List.length buf - IMU_BUFFER_MAX)%nat with 0%nat by lia.
    reflexivity.
  - rewrite IH by apply popWhileOver_length.
    rewrite popWhileOver_skipn.
    set (L := (buf ++ [x])%list).
    replace (buf ++ x :: xs)%list with (L ++ xs)%list
      by (unfold L; now rewrite <- app_assoc).
    set (k := (List.length L - IMU_BUFFER_MAX)%nat).
    assert (Hk : (k <= List.length L)%nat) by (unfold k; lia).
    assert (Happ : (skipn k L ++ xs)%list = skipn k (L ++ xs)%list).
    { rewrite skipn_app.
      replace (k - List.length L)%nat with 0%nat by lia. reflexivity. }
    rewrite Happ, skipn_skipn, length_skipn.
    f_equal. rewrite length_app. unfold k. lia.
Qed.

Lemma in_skipn {A : Type} (n : nat) (l : list A) (x : A) :
  In x (skipn n l) -> In x l.
Proof.
  intros H. rewrite <- (firstn_skipn n l). apply in_or_app. now right.
Qed.

(** X12: pushing a sample onto a buffer within the bound drops exactly the
    oldest sample when the buffer is full, and nothing otherwise; the new
    sample is always kept, as the last one. *)
Theorem push_at_capacity {Inertial : Type}
        (buf : list (Imu Inertial)) (x : Imu Inertial) :
  (List.length buf <= 50)%nat ->
  popWhileOver (buf ++ [x])
  = if (List.length buf =? 50)%nat then (tl buf ++ [x])%list
    else (buf ++ [x])%list.
Proof.
  intros Hb. rewrite popWhileOver_skipn, length_app. cbn [List.length].
  unfold IMU_BUFFER_MAX.
  destruct (List.length buf =? 50)%nat eqn:E.
  - apply Nat.eqb_eq in E. rewrite E.
    destruct buf as [|b buf]; [discriminate E|]. reflexivity.
  - apply Nat.eqb_neq in E.
    replace (List.length buf + 1 - 50)%nat with 0%nat by lia. reflexivity.
Qed.

Lemma push_at_capacity_witness :
  popWhileOver (repeat ((mkTime 0 0, 1%nat) : Imu nat) 50
                ++ [(mkTime 9 0, 2%nat)])
  = (repeat ((mkTime 0 0, 1%nat) : Imu nat) 49 ++ [(mkTime 9 0, 2%nat)])%list.
Proof.
  rewrite push_at_capacity by (vm_compute; lia). reflexivity.
Defined.

(** X13: after any sequence of pushes onto a buffer within the bound, the
    buffer holds the last 50 of the old samples followed by the pushed ones,
    in their order. *)
Theorem pushAll_keeps_last {Inertial : Type} (buf xs : list (Imu Inertial)) :
  (List.length buf <= 50)%nat ->
  pushAll buf xs = skipn (List.length (buf ++ xs) - 50) (buf ++ xs).
Proof. intros H. now apply pushAll_skipn. Qed.

Lemma pushAll_keeps_last_witness :
  pushAll [] (map (fun n => (mkTime (Z.of_nat n) 0, n) : Imu nat) (seq 0 60))
  = map (fun n => (mkTime (Z.of_nat n) 0, n) : Imu nat) (seq 10 50).
Proof.
  rewrite pushAll_keeps_last by (cbn; lia). reflexivity.
Defined.

Section NodeExtras.

Variables Pixels Mat Inertial CameraInfo Sync : Type.
Variable toCvShare : Time * Pixels -> option Mat.
Variable syncEmpty : Sync.
Variable syncAdd :
  nat -> Image Pixels -> Sync
  -> Sync * option (Image Pixels * Image Pixels * Image Pixels * Image Pixels).

Local Abbreviation State := (LoopState Pixels Mat Inertial CameraInfo Sync).
Local Abbreviation Message := (MessageInstance Pixels Inertial CameraInfo).
Local Abbreviation Ev := (Event Pixels Mat Inertial CameraInfo).
Local Abbreviation Environment := (Env Pixels Inertial CameraInfo).

(** *** Which sample, and why a frame is skipped *)

Lemma scanBack_skip (t : Time) (l1 l2 : list (Imu Inertial)) :
  (forall x, In x l1 -> stamp x <> t) ->
  scanBack t (l1 ++ l2) = scanBack t l2.
Proof.
  induction l1 as [|x l1 IH]; intros H; [reflexivity|].
  cbn. destruct (Time_eqb (stamp x) t) eqn:E.
  - apply Time_eqb_eq in E. exfalso. apply (H x); [now left | assumption].
  - apply IH. intros y Hy. apply H. now right.
Qed.

Lemma convertImages_complete (l : list (Image Pixels)) (imgs : list Mat) :
  map toCvShare l = map Some imgs -> convertImages toCvShare l = Some imgs.
Proof.
  revert imgs; induction l as [|m l IH]; intros [|x imgs] H; cbn in *;
    try discriminate; [reflexivity|].
  inversion H as [[Hm Hl]]. rewrite Hm, (IH _ Hl). reflexivity.
Qed.

Lemma voCallback_no_match (m0 m1 m2 m3 : Image Pixels)
      (buf : list (Imu Inertial)) :
  (forall x, In x buf -> stamp x <> stamp m0) ->
  voCallback (Mat := Mat) (CameraInfo := CameraInfo) toCvShare m0 m1 m2 m3 buf
  = [EvRosWarn "No IMU message with matching timestamp."].
Proof.
  intros H. unfold voCallback.
  destruct (scanBack (stamp m0) (rev buf)) as [imu|] eqn:E; [|reflexivity].
  apply scanBack_some in E as [Hin Hst]. apply in_rev in Hin.
  exfalso. now apply (H imu).
Qed.

(** X10: of several buffered samples with the timestamp of the images, the
    newest is the one handed to [processFrames]. *)
Theorem voCallback_latest (m0 m1 m2 m3 : Image Pixels)
        (older newer : list (Imu Inertial)) (imu : Imu Inertial)
        (images : list Mat) :
  stamp imu = stamp m0 ->
  (forall x, In x newer -> stamp x <> stamp m0) ->
  map toCvShare [m0; m1; m2; m3] = map Some images ->
  voCallback (CameraInfo := CameraInfo) toCvShare m0 m1 m2 m3
             (older ++ imu :: newer)
  = [EvProcessFrames (stamp m0) images imu].
Proof.
  intros Hst Hnew Hconv. unfold voCallback.
  rewrite rev_app_distr. cbn [rev]. rewrite <- app_assoc. cbn [app].
  rewrite scanBack_skip
    by (intros x Hx; apply Hnew; now apply in_rev).
  cbn [scanBack]. apply Time_eqb_eq in Hst. rewrite Hst.
  now rewrite (convertImages_complete _ _ Hconv).
Qed.

(** X11: why a frame is skipped.  Without a sample of the timestamp of the
    images the callback warns, whether or not the images would convert; with
    one, and an image that does not convert, it reports the conversion
    error. *)
Theorem voCallback_skip_reason (m0 m1 m2 m3 : Image Pixels)
        (buf : list (Imu Inertial)) :
  let out : list Ev := voCallback toCvShare m0 m1 m2 m3 buf in
  (~ hasMatchingImu m0 buf ->
   out = [EvRosWarn "No IMU message with matching timestamp."])
  /\ (hasMatchingImu m0 buf ->
      ~ allConvert toCvShare [m0; m1; m2; m3] ->
      out = [EvRosError "cv_bridge exception"]).
Proof.
  intros out. subst out. split.
  - intros Hno. apply voCallback_no_match.
    intros x Hx Hst. apply Hno. exists x. auto.
  - intros (imu & Hin & Hst) Hnc. unfold voCallback.
    destruct (scanBack (stamp m0) (rev buf)) as [imu'|] eqn:E.
    + destruct (convertImages toCvShare [m0; m1; m2; m3]) as [imgs|] eqn:Ec;
        [|reflexivity].
      exfalso. apply Hnc. intros m Hm Hnone.
      apply convertImages_some in Ec. apply (in_map toCvShare) in Hm.
      rewrite Ec, Hnone in Hm. apply in_map_iff in Hm as (? & ? & _).
      discriminate.
    + exfalso. apply (scanBack_none _ _ _ toCvShare _ _ E imu); [|assumption].
      now apply in_rev in Hin.
Qed.

(** X23: a frame comes too late once 50 newer samples have been pushed:
    whatever the buffer held, after 50 or more samples with other timestamps
    the frame is skipped with the warning. *)
Theorem evicted_sample_skips_frame (m0 m1 m2 m3 : Image Pixels)
        (buf xs : list (Imu Inertial)) :
  (List.length buf <= 50)%nat ->
  (50 <= List.length xs)%nat ->
  (forall x, In x xs -> stamp x <> stamp m0) ->
  voCallback (Mat := Mat) (CameraInfo := CameraInfo) toCvShare m0 m1 m2 m3
             (pushAll buf xs)
  = [EvRosWarn "No IMU message with matching timestamp."].
Proof.
  intros Hb Hx Hno. apply voCallback_no_match.
  rewrite pushAll_skipn by assumption.
  rewrite skipn_app, length_app. unfold IMU_BUFFER_MAX.
  rewrite (skipn_all2 buf) by lia. cbn [app].
  intros x Hin. apply Hno. eapply in_skipn; eauto.
Qed.

(** *** Initialisation *)

Lemma setBit_length (k : nat) (l : list bool) :
  List.length (setBit k l) = List.length l.
Proof.
  revert k; induction l as [|b l IH]; intros [|k]; cbn; auto.
Qed.

Lemma setBit_other (i k : nat) (l : list bool) :
  i <> k -> nth i (setBit k l) false = nth i l false.
Proof.
  revert i k; induction l as [|b l IH]; intros [|i] [|k] H; cbn; auto;
    try congruence.
Qed.

Lemma setBit_keeps (i k : nat) (l : list bool) :
  nth i l false = true -> nth i (setBit k l) false = true.
Proof.
  revert i k; induction l as [|b l IH]; intros [|i] [|k] H; cbn in *; auto.
Qed.

(** What the camera-info scan does: nothing, or it initialises one camera,
    the first of the scanned range whose camera-info topic is that of the
    message, which was not initialised before. *)
Lemma scanCameraInfo_seq (names : list string) (m : Message) (n : nat) :
  forall (a : nat) (st st' : State),
    scanCameraInfo names m (seq a n) st = Ok st' ->
    st' = st
    \/ exists k info,
        (a <= k < a + n)%nat
        /\ nth_error names k = Some (getTopic m)
        /\ (forall k', (a <= k' < k)%nat ->
                       nth_error names k' <> Some (getTopic m))
        /\ nth k (init st) false = false
        /\ instantiateCameraInfo m = Some info
        /\ st' = markInit k (emit [EvGenerateCamera k info] st).
Proof.
  induction n as [|n IH]; intros a st st' H; cbn [seq scanCameraInfo] in H.
  - inversion H. auto.
  - unfold at_ in H. destruct (nth_error names a) as [name|] eqn:Ea;
      cbn [bind] in H; [|discriminate].
    destruct (String.eqb (getTopic m) name) eqn:Et.
    + apply String.eqb_eq in Et. subst name.
      destruct (nth a (init st) false) eqn:Eb; [inversion H; auto|].
      destruct (instantiateCameraInfo m) as [info|] eqn:Ei;
        [|inversion H; auto].
      inversion H. right. exists a, info.
      repeat split; auto; try lia; try (intros k' Hk'; lia).
    + apply String.eqb_neq in Et.
      destruct (IH _ _ _ H) as [->|(k & info & Hk & Hn & Hfirst & Hrest)];
        [auto|].
      right. exists k, info. repeat split; try tauto; try lia.
      intros k' Hk'. destruct (Nat.eq_dec k' a) as [->|Hne].
      * rewrite Ea. congruence.
      * apply Hfirst. lia.
Qed.

Lemma newMessage_init (i : nat) (img : Image Pixels) (st : State) :
  init (newMessage toCvShare syncAdd i img st) = init st.
Proof.
  unfold newMessage.
  destruct (syncAdd i img (sync st)) as [sy [[[[a b] c] d]|]]; reflexivity.
Qed.

Lemma forwardImages_init (names : list string) (m : Message)
      (indices : list nat) (st st' : State) :
  forwardImages toCvShare syncAdd names m indices st = Ok st' ->
  init st' = init st.
Proof.
  revert st; induction indices as [|i indices IH]; intros st; cbn.
  - intros H. now inversion H.
  - destruct (at_ names i) as [name|]; cbn; [|discriminate].
    destruct (String.eqb (getTopic m) name); [|apply IH].
    intros H. apply IH in H. cbn in H. rewrite H.
    destruct (instantiateImage m); [apply newMessage_init | reflexivity].
Qed.

(** X14: until all four cameras are initialised, a message is only looked
    at for camera information.  A turn of the loop then leaves the
    inertial-sample buffer and the synchronizer as they were, republishes
    no image and processes no frame: inertial samples and images that come
    before the last camera information are lost. *)
Theorem before_init_ignored (env : Environment) (ns : list (list string))
        (camInfo camImage : list string) (imuTopic : string)
        (st st' : State) (m : Message) :
  (count (init st) < N_CAMERAS)%nat ->
  replayBody toCvShare syncAdd env ns camInfo camImage imuTopic st m
  = Next st' ->
  imuBuffer st' = imuBuffer st
  /\ sync st' = sync st
  /\ exists es, trace st' = (trace st ++ es)%list
                /\ forallb (fun e => negb (isVisualOdometry e)) es = true.
Proof.
  intros Hc H. unfold replayBody in H. apply Nat.ltb_lt in Hc.
  rewrite Hc in H.
  destruct (scanCameraInfo camInfo m (seq 0 N_CAMERAS) st) as [st1|e] eqn:E;
    [|discriminate].
  assert (H1 : imuBuffer st1 = imuBuffer st /\ sync st1 = sync st
               /\ exists es, trace st1 = (trace st ++ es)%list
                  /\ forallb (fun e : Ev => negb (isVisualOdometry e)) es
                     = true).
  { apply scanCameraInfo_seq in E
      as [->|(k & info & _ & _ & _ & _ & _ & ->)].
    - repeat split; auto. exists []. now rewrite app_nil_r.
    - repeat split; auto. cbn. eauto. }
  destruct H1 as (Hb & Hs & es & Ht & Hes).
  destruct (count (init st1) =? N_CAMERAS)%nat.
  - destruct (N_CAMERAS <? cameraCount ns)%nat; [discriminate|].
    destruct (scInit env); cbn [negb] in H; [|discriminate].
    inversion H. cbn. repeat split; auto.
    exists (es ++ [EvConfigureRig ns])%list.
    rewrite Ht, <- app_assoc, forallb_app, Hes. auto.
  - inversion H; subst. repeat split; eauto.
Qed.

(** X15: a turn of the loop initialises at most one camera: the
    initialisation flags stay as they are, or one flag that was clear is
    set, that of the first camera whose camera-info topic is the topic of
    the message.  No flag is ever cleared. *)
Theorem init_step (env : Environment) (ns : list (list string))
        (camInfo camImage : list string) (imuTopic : string)
        (st st' : State) (m : Message) :
  replayBody toCvShare syncAdd env ns camInfo camImage imuTopic st m
  = Next st' ->
  (init st' = init st
   \/ exists k,
       (k < N_CAMERAS)%nat
       /\ nth k (init st) false = false
       /\ nth_error camInfo k = Some (getTopic m)
       /\ (forall k', (k' < k)%nat ->
                      nth_error camInfo k' <> Some (getTopic m))
       /\ init st' = setBit k (init st))
  /\ (forall i, nth i (init st) false = true -> nth i (init st') false = true).
Proof.
  intros H.
  assert (G : init st' = init st
              \/ exists k,
                  (k < N_CAMERAS)%nat
                  /\ nth k (init st) false = false
                  /\ nth_error camInfo k = Some (getTopic m)
                  /\ (forall k', (k' < k)%nat ->
                                 nth_error camInfo k' <> Some (getTopic m))
                  /\ init st' = setBit k (init st)).
  { unfold replayBody in H.
    destruct (count (init st) <? N_CAMERAS)%nat.
    - destruct (scanCameraInfo camInfo m (seq 0 N_CAMERAS) st) as [st1|e]
        eqn:E; [|discriminate].
      assert (Hst' : init st' = init st1).
      { destruct (count (init st1) =? N_CAMERAS)%nat;
          [|inversion H; reflexivity].
        destruct (N_CAMERAS <? cameraCount ns)%nat; [discriminate|].
        destruct (scInit env); cbn [negb] in H; [|discriminate].
        inversion H. reflexivity. }
      rewrite Hst'.
      apply scanCameraInfo_seq in E
        as [->|(k & info & Hk & Hn & Hfirst & Hb & _ & ->)]; [auto|].
      right. exists k. repeat split; auto; try lia.
      intros k' Hk'. apply Hfirst. lia.
    - destruct (readIntermediateData env); [discriminate|].
      destruct (forwardImages toCvShare syncAdd camImage m
                              (seq 0 N_CAMERAS) st) as [st1|e] eqn:E;
        [|discriminate].
      apply forwardImages_init in E. left.
      destruct (String.eqb (getTopic m) imuTopic);
        [destruct (instantiateImu m)|]; inversion H; subst; cbn; auto. }
  split; [exact G|].
  intros i Hi. destruct G as [->|(k & _ & _ & _ & _ & ->)]; [assumption|].
  now apply setBit_keeps.
Qed.

(** *** What the trace of a run can hold *)

Lemma replay_returns_one (env : Environment) (ns : list (list string))
      (camInfo camImage : list string) (imuTopic : string)
      (view : list Message) :
  forall (k : nat) (st : State),
    match replay toCvShare syncAdd env ns camInfo camImage imuTopic
                 view k st with
    | Returned code _ => code = 1 /\ scInit env = false
    | _ => True
    end.
Proof.
  induction view as [|m view IH]; intros k st; cbn [replay]; [exact I|].
  destruct (rosOk env k); cbn [negb]; [|exact I].
  destruct (replayBody toCvShare syncAdd env ns camInfo camImage imuTopic
                       st m) as [st'|st'|c st'|e] eqn:E;
    [apply IH | exact I | | exact I].
  unfold replayBody in E.
  destruct (count (init st) <? N_CAMERAS)%nat.
  - destruct (scanCameraInfo camInfo m (seq 0 N_CAMERAS) st) as [st1|e];
      [|discriminate].
    destruct (count (init st1) =? N_CAMERAS)%nat; [|discriminate].
    destruct (N_CAMERAS <? cameraCount ns)%nat; [discriminate|].
    destruct (scInit env); cbn [negb] in E; [discriminate|].
    inversion E. auto.
  - destruct (readIntermediateData env); [discriminate|].
    destruct (forwardImages toCvShare syncAdd camImage m (seq 0 N_CAMERAS) st);
      [|discriminate].
    destruct (String.eqb (getTopic m) imuTopic);
      [destruct (instantiateImu m)|]; discriminate.
Qed.

(** *** The events of a replay *)







Section Trace.

(** A class of events [P] that holds the reports and the rig set-up, and
    the events of visual odometry unless intermediate data is read. *)
Variable P : Ev -> bool.
Variable env : Environment.
Hypothesis P_other :
  forall e, isVisualOdometry e = false -> isResult e = false -> P e = true.
Hypothesis P_odometry :
  readIntermediateData env = true
  \/ forall e, isVisualOdometry e = true -> P e = true.

Lemma scanCameraInfo_keeps (names : list string) (m : Message)
      (indices : list nat) (st st' : State) :
  scanCameraInfo names m indices st = Ok st' ->
  forallb P (trace st) = true -> forallb P (trace st') = true.
Proof.
  revert st; induction indices as [|i indices IH]; intros st; cbn.
  - intros H. now inversion H.
  - destruct (at_ names i) as [name|]; cbn; [|discriminate].
    destruct (String.eqb (getTopic m) name); [|apply IH].
    destruct (nth i (init st) false); [intros H; now inversion H|].
    destruct (instantiateCameraInfo m); intros H; inversion H; auto.
    intros Ht. cbn. rewrite forallb_app, Ht. cbn. now rewrite P_other.
Qed.

Lemma newMessage_keeps (i : nat) (img : Image Pixels) (st : State) :
  (forall e, isVisualOdometry e = true -> P e = true) ->
  forallb P (trace st) = true ->
  forallb P (trace (newMessage toCvShare syncAdd i img st)) = true.
Proof.
  intros Hvo Ht. unfold newMessage.
  destruct (syncAdd i img (sync st)) as [sy [[[[a b] c] d]|]]; [|exact Ht].
  cbn. rewrite forallb_app, Ht. unfold voCallback.
  destruct (scanBack (stamp a) (rev (imuBuffer st)));
    [destruct (convertImages toCvShare [a; b; c; d])|]; cbn;
    first [rewrite P_other by reflexivity | rewrite Hvo by reflexivity];
    reflexivity.
Qed.

Lemma forwardImages_keeps (names : list string) (m : Message)
      (indices : list nat) :
  (forall e, isVisualOdometry e = true -> P e = true) ->
  forall st st' : State,
    forwardImages toCvShare syncAdd names m indices st = Ok st' ->
    forallb P (trace st) = true -> forallb P (trace st') = true.
Proof.
  intros Hvo. induction indices as [|i indices IH]; intros st st'; cbn.
  - intros H. now inversion H.
  - destruct (at_ names i) as [name|]; cbn; [|discriminate].
    destruct (String.eqb (getTopic m) name); [|apply IH].
    intros H Ht. apply (IH _ _ H). cbn. rewrite forallb_app.
    cbn. rewrite Hvo by reflexivity.
    destruct (instantiateImage m);
      [rewrite newMessage_keeps by assumption | rewrite Ht]; reflexivity.
Qed.

Lemma replayBody_keeps (ns : list (list string))
      (camInfo camImage : list string) (imuTopic : string)
      (st : State) (m : Message) :
  forallb P (trace st) = true ->
  match replayBody toCvShare syncAdd env ns camInfo camImage imuTopic st m
  with
  | Next st' | Break st' | Return _ st' => forallb P (trace st') = true
  | Raise _ => True
  end.
Proof.
  intros Ht. unfold replayBody.
  destruct (count (init st) <? N_CAMERAS)%nat.
  - destruct (scanCameraInfo camInfo m (seq 0 N_CAMERAS) st) as [st1|e] eqn:E;
      [|exact I].
    apply scanCameraInfo_keeps in E; [|assumption].
    destruct (count (init st1) =? N_CAMERAS)%nat; [|assumption].
    destruct (N_CAMERAS <? cameraCount ns)%nat; [exact I|].
    destruct (scInit env); cbn; rewrite !forallb_app, E; cbn;
      rewrite ?P_other; reflexivity.
  - destruct (readIntermediateData env) eqn:Er; [assumption|].
    destruct P_odometry as [Hr|Hvo]; [congruence|].
    destruct (forwardImages toCvShare syncAdd camImage m (seq 0 N_CAMERAS) st)
      as [st1|e] eqn:E; [|exact I].
    apply (forwardImages_keeps _ _ _ Hvo) in E; [|assumption].
    destruct (String.eqb (getTopic m) imuTopic);
      [destruct (instantiateImu m)|]; assumption.
Qed.

Lemma replay_keeps (ns : list (list string))
      (camInfo camImage : list string) (imuTopic : string)
      (view : list Message) :
  forall (k : nat) (st : State),
    forallb P (trace st) = true ->
    match replay toCvShare syncAdd env ns camInfo camImage imuTopic
                 view k st with
    | Finished _ st' | Returned _ st' => forallb P (trace st') = true
    | Raised _ => True
    end.
Proof.
  induction view as [|m view IH]; intros k st Ht; cbn [replay];
    [assumption|].
  destruct (rosOk env k); cbn [negb]; [|assumption].
  pose proof (replayBody_keeps ns camInfo camImage imuTopic st m Ht) as H.
  destruct (replayBody toCvShare syncAdd env ns camInfo camImage imuTopic
                       st m) as [st'|st'|c st'|e];
    [now apply IH | assumption | assumption | exact I].
Qed.

Lemma forwardImagesPartial_keeps (names : list string) (m : Message)
      (indices : list nat) :
  (forall e, isVisualOdometry e = true -> P e = true) ->
  forall st : State,
    forallb P (trace st) = true ->
    forallb P (trace (forwardImagesPartial toCvShare syncAdd names m
                                           indices st)) = true.
Proof.
  intros Hvo. induction indices as [|i indices IH]; intros st Ht; cbn;
    [assumption|].
  destruct (at_ names i) as [name|]; [|assumption].
  destruct (String.eqb (getTopic m) name); [|now apply IH].
  apply IH. cbn. rewrite forallb_app. cbn. rewrite Hvo by reflexivity.
  destruct (instantiateImage m);
    [rewrite newMessage_keeps by assumption | rewrite Ht]; reflexivity.
Qed.

Lemma raisedTrace_keeps (camInfo camImage : list string)
      (st : State) (m : Message) :
  forallb P (trace st) = true ->
  forallb P (raisedTrace toCvShare syncAdd env camInfo camImage st m) = true.
Proof.
  intros Ht. unfold raisedTrace.
  destruct (count (init st) <? N_CAMERAS)%nat.
  - destruct (scanCameraInfo camInfo m (seq 0 N_CAMERAS) st) as [st1|e] eqn:E;
      [|assumption].
    now apply scanCameraInfo_keeps in E.
  - destruct (readIntermediateData env) eqn:Er; [assumption|].
    destruct P_odometry as [Hr|Hvo]; [congruence|].
    now apply forwardImagesPartial_keeps.
Qed.

Lemma replayTrace_keeps (ns : list (list string))
      (camInfo camImage : list string) (imuTopic : string)
      (view : list Message) :
  forall (k : nat) (st : State),
    forallb P (trace st) = true ->
    forallb P (replayTrace toCvShare syncAdd env ns camInfo camImage
                           imuTopic view k st) = true.
Proof.
  induction view as [|m view IH]; intros k st Ht; cbn [replayTrace];
    [assumption|].
  destruct (rosOk env k); cbn [negb]; [|assumption].
  pose proof (replayBody_keeps ns camInfo camImage imuTopic st m Ht) as H.
  destruct (replayBody toCvShare syncAdd env ns camInfo camImage imuTopic
                       st m) as [st'|st'|c st'|e];
    [now apply IH | assumption | assumption |].
  now apply raisedTrace_keeps.
Qed.

Lemma errors_keep (l : list string) :
  forallb P (map EvRosError l) = true.
Proof. induction l; cbn; rewrite ?P_other; auto. Qed.

(** The events of [main] up to the calibration run are all in [P]. *)
Lemma main_keeps :
  let run := main toCvShare syncEmpty syncAdd env in
  let names :=
    topicNames "/camera_info"
               (cameraNs (final (parseConfigFile (configFile env)))) in
  (fst run <> Exit 0 /\ forallb P (snd run) = true)
  \/ (fst run = Exit 0
      /\ exists pre,
          forallb P pre = true
          /\ snd run
             = (pre ++ [EvRun; EvWriteCalibration]
                    ++ requestsFrom env 0 names
                    ++ [EvWritePoses "vmav_calib_poses.txt"])%list).
Proof.
  cbv zeta. unfold main.
  destruct (help env); [left; cbn; rewrite P_other; auto; split;
                        [discriminate | reflexivity]|].
  set (r := parseConfigFile (configFile env)).
  assert (Hlog : forall extra : list Ev,
             forallb P extra = true ->
             forallb P (map EvRosError (rosErrors (final r)) ++ extra)
             = true).
  { intros extra He. now rewrite forallb_app, errors_keep, He. }
  assert (Herr : forall msg, forallb P [EvRosError msg : Ev] = true).
  { intros msg. cbn. now rewrite P_other. }
  destruct (accepted r); cbn [negb];
    [|left; cbn [fst snd]; split; [discriminate | auto]].
  destruct (bagOpen env) as [messages|];
    [|left; cbn [fst snd]; split; [discriminate | auto]].
  destruct (makeSynchronizer (cameraCount (cameraNs (final r))));
    [|left; cbn [fst snd]; split; [discriminate | apply errors_keep]].
  destruct (readIntermediateData env && negb (readFromTextFile env));
    [left; cbn [fst snd]; split; [discriminate | auto]|].
  match goal with
  | |- context [replay ?a ?b ?c ?d ?e ?f ?g ?v ?k ?st] =>
      pose proof (replay_keeps d e f g v k st (errors_keep _)) as Hr;
      pose proof (replayTrace_keeps d e f g v k st (errors_keep _)) as Hx;
      pose proof (replay_returns_one c d e f g v k st) as Hone;
      destruct (replay a b c d e f g v k st) as [k' st'|c' st'|e']
  end.
  - destruct (rosOk env k'); cbn [negb].
    + destruct (sc st'); cbn [negb].
      * right. cbn [fst snd]. split; [reflexivity|]. eauto.
      * left. cbn [fst snd]. split; [discriminate | assumption].
    + left. cbn [fst snd]. split; [discriminate|].
      now rewrite forallb_app, Hr, Herr.
  - left. cbn [fst snd]. destruct Hone as [-> _].
    split; [discriminate | assumption].
  - left. cbn [fst snd]. split; [discriminate | exact Hx].
Qed.

End Trace.

(** The camera-info requests: one per topic, in order, each followed by
    at most one error report. *)
Lemma requestsFrom_requests (env : Environment) (names : list string) :
  forall i,
    filter isResult (requestsFrom env i names : list Ev)
    = map EvSetCameraInfo names
    /\ forallb (fun e : Ev => negb (isVisualOdometry e))
               (requestsFrom env i names) = true.
Proof.
  induction names as [|n names IH]; intros i; cbn; [auto|].
  destruct (IH (S i)) as [A B].
  destruct (setCameraInfoReply env i); cbn; rewrite A, B; auto.
Qed.



(** X18: with intermediate data no visual odometry takes place: whatever
    the bag holds, no image is republished and no frame is processed. *)
Theorem intermediate_skips_odometry (env : Environment) :
  readIntermediateData env = true ->
  forallb (fun e => negb (isVisualOdometry e))
          (snd (main toCvShare syncEmpty syncAdd env)) = true.
Proof.
  intros Hr.
  destruct (main_keeps (fun e => negb (isVisualOdometry e)) env)
    as [[_ B]|[_ (pre & Hpre & ->)]].
  - intros e He _. now rewrite He.
  - now left.
  - exact B.
  - rewrite !forallb_app, Hpre. cbn. rewrite andb_true_r.
    apply requestsFrom_requests.
Qed.

Lemma replayBody_without_calibration (env : Environment)
      (ns : list (list string)) (camInfo camImage : list string)
      (imuTopic : string) (st : State) (m : Message) :
  scInit env = false ->
  sc st = false ->
  match replayBody toCvShare syncAdd env ns camInfo camImage imuTopic st m
  with
  | Next st' | Break st' => sc st' = false
  | _ => True
  end.
Proof.
  intros Hinit Hsc. unfold replayBody.
  destruct (count (init st) <? N_CAMERAS)%nat.
  - destruct (scanCameraInfo camInfo m (seq 0 N_CAMERAS) st) as [st1|e] eqn:E;
      [|exact I].
    apply scanCameraInfo_sc in E.
    destruct (count (init st1) =? N_CAMERAS)%nat; [|congruence].
    destruct (N_CAMERAS <? cameraCount ns)%nat; [exact I|].
    rewrite Hinit. exact I.
  - destruct (readIntermediateData env); [assumption|].
    destruct (forwardImages toCvShare syncAdd camImage m (seq 0 N_CAMERAS) st)
      as [st1|e] eqn:E; [|exact I].
    apply forwardImages_sc in E.
    destruct (String.eqb (getTopic m) imuTopic);
      [destruct (instantiateImu m)|]; cbn; congruence.
Qed.

Lemma replay_without_calibration (env : Environment)
      (ns : list (list string)) (camInfo camImage : list string)
      (imuTopic : string) (view : list Message) :
  scInit env = false ->
  forall (k : nat) (st : State),
    sc st = false ->
    match replay toCvShare syncAdd env ns camInfo camImage imuTopic
                 view k st with
    | Finished _ st' => sc st' = false
    | _ => True
    end.
Proof.
  intros Hinit. induction view as [|m view IH]; intros k st Hsc;
    cbn [replay]; [assumption|].
  destruct (rosOk env k); cbn [negb]; [|assumption].
  pose proof (replayBody_without_calibration env ns camInfo camImage
                imuTopic st m Hinit Hsc) as H.
  destruct (replayBody toCvShare syncAdd env ns camInfo camImage imuTopic
                       st m) as [st'|st'|c st'|e];
    [now apply IH | assumption | exact I | exact I].
Qed.

(** X17: the exit status is 0 or 1, and when the calibration object fails
    to initialise it is not 0: the run returns 1 or ends in an exception. *)
Theorem init_failure_fatal (env : Environment) :
  (forall code, fst (main toCvShare syncEmpty syncAdd env) = Exit code ->
                code = 0 \/ code = 1)
  /\ (scInit env = false ->
      fst (main toCvShare syncEmpty syncAdd env) <> Exit 0).
Proof.
  unfold main.
  destruct (help env); [split; [intros c H; inversion H; auto | discriminate]|].
  destruct (accepted (parseConfigFile (configFile env))); cbn [negb];
    [|split; [intros c H; inversion H; auto | discriminate]].
  destruct (bagOpen env) as [messages|];
    [|split; [intros c H; inversion H; auto | discriminate]].
  destruct (makeSynchronizer _);
    [|split; [intros c H; inversion H | discriminate]].
  destruct (readIntermediateData env && negb (readFromTextFile env));
    [split; [intros c H; inversion H; auto | discriminate]|].
  match goal with
  | |- context [replay ?a ?b ?c ?d ?e ?f ?g ?v ?k ?st] =>
      pose proof (replay_returns_one c d e f g v k st) as Hone;
      pose proof (fun Hi =>
                    replay_without_calibration c d e f g v Hi k st eq_refl)
        as Hsc;
      destruct (replay a b c d e f g v k st) as [k' st'|c' st'|e']
  end.
  - destruct (rosOk env k'); cbn [negb];
      [|split; [intros c H; inversion H; auto | discriminate]].
    destruct (sc st') eqn:Esc; cbn [negb].
    + split; [intros c H; inversion H; auto|].
      intros Hinit. specialize (Hsc Hinit). congruence.
    + split; [intros c H; inversion H | discriminate].
  - destruct Hone as [-> _].
    split; [intros c H; inversion H; auto | discriminate].
  - split; [intros c H; inversion H | discriminate].
Qed.

(** *** Two cameras with one namespace *)

Lemma count_le (l : list bool) : (count l <= List.length l)%nat.
Proof.
  unfold count. induction l as [|b l IH]; cbn; [lia|].
  destruct b; cbn; lia.
Qed.

Lemma count_lt (j : nat) (l : list bool) :
  (j < List.length l)%nat -> nth j l false = false ->
  (count l < List.length l)%nat.
Proof.
  revert j; induction l as [|b l IH]; intros j Hj Hn; cbn in *; [lia|].
  destruct j as [|j].
  - subst b. pose proof (count_le l). unfold count in *. cbn. lia.
  - specialize (IH j ltac:(lia) Hn). unfold count in *.
    destruct b; cbn; lia.
Qed.

Lemma replayBody_duplicate (env : Environment) (ns : list (list string))
      (camInfo camImage : list string) (imuTopic : string)
      (i j : nat) (name : string) (st : State) (m : Message) :
  (i < j < N_CAMERAS)%nat ->
  nth_error camInfo i = Some name ->
  nth_error camInfo j = Some name ->
  List.length (init st) = N_CAMERAS ->
  nth j (init st) false = false ->
  sc st = false ->
  match replayBody toCvShare syncAdd env ns camInfo camImage imuTopic st m
  with
  | Next st' | Break st' =>
      List.length (init st') = N_CAMERAS
      /\ nth j (init st') false = false /\ sc st' = false
  | Return _ _ => False
  | Raise _ => True
  end.
Proof.
  intros Hij Hi Hj Hlen Hbit Hsc. unfold replayBody.
  assert (Hc : (count (init st) <? N_CAMERAS)%nat = true).
  { apply Nat.ltb_lt. rewrite <- Hlen. apply (count_lt j); [lia|assumption]. }
  rewrite Hc.
  destruct (scanCameraInfo camInfo m (seq 0 N_CAMERAS) st) as [st1|e] eqn:E;
    [|exact I].
  assert (H1 : List.length (init st1) = N_CAMERAS
               /\ nth j (init st1) false = false /\ sc st1 = false).
  { apply scanCameraInfo_seq in E
      as [->|(k & info & Hk & Hn & Hfirst & _ & _ & ->)]; [auto|].
    cbn. rewrite setBit_length. split; [assumption|]. split; [|assumption].
    rewrite setBit_other; [assumption|].
    intros <-. apply (Hfirst i); [lia | congruence]. }
  destruct H1 as (Hlen1 & Hbit1 & Hsc1).
  assert (Hc1 : (count (init st1) =? N_CAMERAS)%nat = false).
  { apply Nat.eqb_neq. pose proof (count_lt j (init st1)) as Hlt.
    rewrite Hlen1 in Hlt. specialize (Hlt ltac:(lia) Hbit1). lia. }
  rewrite Hc1. auto.
Qed.

Lemma replay_duplicate (env : Environment) (ns : list (list string))
      (camInfo camImage : list string) (imuTopic : string)
      (i j : nat) (name : string) (view : list Message) :
  (i < j < N_CAMERAS)%nat ->
  nth_error camInfo i = Some name ->
  nth_error camInfo j = Some name ->
  forall (k : nat) (st : State),
    List.length (init st) = N_CAMERAS ->
    nth j (init st) false = false ->
    sc st = false ->
    match replay toCvShare syncAdd env ns camInfo camImage imuTopic
                 view k st with
    | Finished _ st' => nth j (init st') false = false /\ sc st' = false
    | Returned _ _ => False
    | Raised _ => True
    end.
Proof.
  intros Hij Hi Hj.
  induction view as [|m view IH]; intros k st Hlen Hbit Hsc; cbn [replay];
    [auto|].
  destruct (rosOk env k); cbn [negb]; [|auto].
  pose proof (replayBody_duplicate env ns camInfo camImage imuTopic i j name
                st m Hij Hi Hj Hlen Hbit Hsc) as H.
  destruct (replayBody toCvShare syncAdd env ns camInfo camImage imuTopic
                       st m) as [st'|st'|c st'|e];
    [|tauto|assumption|exact I].
  destruct H as (A & B & C). now apply IH.
Qed.

Lemma initial_flag (log : list Ev) (j : nat) :
  nth j (init (initialLoopState syncEmpty log : State)) false = false.
Proof.
  cbn. unfold N_CAMERAS.
  destruct j as [|[|[|[|[|j]]]]]; reflexivity.
Qed.

(** X19: two of the four cameras with the same namespace can never be
    calibrated.  The camera information on the shared topic goes to the
    first camera of that topic, no message ever initialises the second of
    the two, so that after any replay its flag is still clear and the
    calibration object has not been created, the loop does not return, and
    [main] does not exit with status 0. *)
Theorem duplicate_namespace_never_completes (env : Environment)
        (i j : nat) (name : string) :
  let r := parseConfigFile (configFile env) in
  let names := topicNames "/camera_info" (cameraNs (final r)) in
  let images := topicNames "/image_raw" (cameraNs (final r)) in
  (i < j < N_CAMERAS)%nat ->
  nth_error names i = Some name ->
  nth_error names j = Some name ->
  (forall (m : Message) (st st' : State),
      scanCameraInfo names m (seq 0 N_CAMERAS) st = Ok st' ->
      st' = st
      \/ exists k info,
          k <> j
          /\ (getTopic m = name -> (k <= i)%nat)
          /\ nth_error names k = Some (getTopic m)
          /\ (forall k', (k' < k)%nat ->
                         nth_error names k' <> Some (getTopic m))
          /\ instantiateCameraInfo m = Some info
          /\ st' = markInit k (emit [EvGenerateCamera k info] st))
  /\ (forall (view : list Message) (log : list Ev),
         match replay toCvShare syncAdd env (cameraNs (final r)) names images
                      (imuTopicName (final r)) view 0
                      (initialLoopState syncEmpty log) with
         | Finished _ st' => nth j (init st') false = false /\ sc st' = false
         | Returned _ _ => False
         | Raised _ => True
         end)
  /\ fst (main toCvShare syncEmpty syncAdd env) <> Exit 0.
Proof.
  intros r names images Hij Hi Hj.
  split; [|split].
  - intros m st st' H.
    apply scanCameraInfo_seq in H
      as [->|(k & info & Hk & Hn & Hfirst & _ & Hinfo & ->)]; [now left|].
    right. exists k, info.
    assert (Hle : getTopic m = name -> (k <= i)%nat).
    { intros Ht. destruct (Nat.le_gt_cases k i) as [|Hgt]; [assumption|].
      exfalso. apply (Hfirst i); [lia | congruence]. }
    split.
    { intros ->. assert (getTopic m = name) by congruence.
      specialize (Hle ltac:(assumption)). lia. }
    split; [assumption|]. split; [assumption|].
    split; [intros k' Hk'; apply Hfirst; lia|]. auto.
  - intros view log.
    apply (replay_duplicate env _ names images _ i j name view Hij Hi Hj);
      [reflexivity | apply initial_flag | reflexivity].
  - subst r names images. unfold main.
    destruct (help env); [discriminate|].
    destruct (accepted (parseConfigFile (configFile env))); cbn [negb];
      [|discriminate].
    destruct (bagOpen env) as [messages|]; [|discriminate].
    destruct (makeSynchronizer _); [|discriminate].
    destruct (readIntermediateData env && negb (readFromTextFile env));
      [discriminate|].
    match goal with
    | |- context [replay ?a ?b ?c ?d ?e ?f ?g ?v ?k ?st] =>
        pose proof (replay_duplicate c d e f g i j name v Hij Hi Hj k st
                      eq_refl (initial_flag _ _) eq_refl) as Hr;
        destruct (replay a b c d e f g v k st) as [k' st'|c' st'|e']
    end; [|contradiction | discriminate].
    destruct (rosOk env k'); cbn [negb]; [|discriminate].
    rewrite (proj2 Hr). discriminate.
Qed.

(** *** What the buffer holds *)

Lemma pushAll_app (buf xs ys : list (Imu Inertial)) :
  pushAll buf (xs ++ ys) = pushAll (pushAll buf xs) ys.
Proof. unfold pushAll. apply fold_left_app. Qed.

Lemma imuSamples_cons (imuTopic : string) (m : Message)
      (view : list Message) :
  imuSamples imuTopic (m :: view)
  = (imuSamples imuTopic [m] ++ imuSamples imuTopic view)%list.
Proof.
  unfold imuSamples. cbn [collect].
  destruct (if String.eqb (getTopic m) imuTopic
            then instantiateImu m else None); reflexivity.
Qed.

Lemma replayBody_pushes (env : Environment) (ns : list (list string))
      (camInfo camImage : list string) (imuTopic : string)
      (st : State) (m : Message) :
  (N_CAMERAS <= count (init st))%nat ->
  readIntermediateData env = false ->
  match replayBody toCvShare syncAdd env ns camInfo camImage imuTopic st m
  with
  | Next st' =>
      init st' = init st
      /\ imuBuffer st' = pushAll (imuBuffer st) (imuSamples imuTopic [m])
  | Break _ | Return _ _ => False
  | Raise _ => True
  end.
Proof.
  intros Hc Hr. unfold replayBody.
  assert (Hltb : (count (init st) <? N_CAMERAS)%nat = false)
    by (apply Nat.ltb_ge; assumption).
  rewrite Hltb, Hr.
  destruct (forwardImages toCvShare syncAdd camImage m (seq 0 N_CAMERAS) st)
    as [st1|e] eqn:E; [|exact I].
  pose proof (forwardImages_init _ _ _ _ _ E) as Hi.
  apply forwardImages_buffer in E.
  unfold imuSamples, pushAll. cbn [collect].
  destruct (String.eqb (getTopic m) imuTopic);
    [destruct (instantiateImu m)|]; cbn; rewrite ?E; auto.
Qed.

Lemma replay_pushes (env : Environment) (ns : list (list string))
      (camInfo camImage : list string) (imuTopic : string)
      (view : list Message) :
  readIntermediateData env = false ->
  forall (k : nat) (st : State),
    (N_CAMERAS <= count (init st))%nat ->
    match replay toCvShare syncAdd env ns camInfo camImage imuTopic
                 view k st with
    | Finished k' st' =>
        (k <= k' <= k + List.length view)%nat
        /\ imuBuffer st'
           = pushAll (imuBuffer st)
                     (imuSamples imuTopic (firstn (k' - k) view))
    | Returned _ _ => False
    | Raised _ => True
    end.
Proof.
  intros Hr. induction view as [|m view IH]; intros k st Hc; cbn [replay].
  - rewrite Nat.sub_diag. cbn. split; [lia | reflexivity].
  - destruct (rosOk env k); cbn [negb].
    + pose proof (replayBody_pushes env ns camInfo camImage imuTopic st m
                    Hc Hr) as H.
      destruct (replayBody toCvShare syncAdd env ns camInfo camImage
                           imuTopic st m) as [st1|st1|c st1|e];
        try contradiction; [|exact I].
      destruct H as [Hi Hb].
      specialize (IH (S k) st1). rewrite Hi in IH. specialize (IH Hc).
      destruct (replay toCvShare syncAdd env ns camInfo camImage imuTopic
                       view (S k) st1) as [k' st'|c' st'|e']; auto.
      destruct IH as [Hk ->]. cbn [List.length]. split; [lia|].
      replace (k' - k)%nat with (S (k' - S k)) by lia.
      cbn [firstn]. rewrite imuSamples_cons, pushAll_app, Hb. reflexivity.
    + rewrite Nat.sub_diag. cbn. split; [lia | reflexivity].
Qed.

(** X22: once the four cameras are initialised, and unless intermediate
    data is read, the buffer holds the most recent inertial samples of the
    imu topic: after the loop has replayed some messages, the buffer is the
    last 50 of what it held before followed by the inertial samples among
    those messages, in bag order. *)
Theorem buffer_holds_latest (env : Environment) (ns : list (list string))
        (camInfo camImage : list string) (imuTopic : string)
        (view : list Message) (k : nat) (st : State) :
  readIntermediateData env = false ->
  (N_CAMERAS <= count (init st))%nat ->
  (List.length (imuBuffer st) <= 50)%nat ->
  match replay toCvShare syncAdd env ns camInfo camImage imuTopic
               view k st with
  | Finished k' st' =>
      let replayed := firstn (k' - k) view in
      let all := (imuBuffer st ++ imuSamples imuTopic replayed)%list in
      imuBuffer st' = skipn (List.length all - 50) all
  | Returned _ _ => False
  | Raised _ => True
  end.
Proof.
  intros Hr Hc Hb.
  pose proof (replay_pushes env ns camInfo camImage imuTopic view Hr k st Hc)
    as H.
  destruct (replay toCvShare syncAdd env ns camInfo camImage imuTopic
                   view k st) as [k' st'|c' st'|e']; auto.
  destruct H as [_ ->]. cbv zeta. now apply pushAll_skipn.
Qed.

(** *** A run that completes *)

Lemma setBit_same (k : nat) (l : list bool) :
  (k < List.length l)%nat -> nth k (setBit k l) false = true.
Proof.
  revert k; induction l as [|b l IH]; intros [|k] H; cbn in *; try lia;
    try reflexivity.
  apply IH. lia.
Qed.

Lemma scanCameraInfo_total (names : list string) (m : Message)
      (indices : list nat) :
  (forall i, In i indices -> (i < List.length names)%nat) ->
  forall st : State, exists st', scanCameraInfo names m indices st = Ok st'.
Proof.
  induction indices as [|i indices IH]; intros Hin st; cbn; [eauto|].
  unfold at_. destruct (nth_error names i) as [name|] eqn:E.
  - cbn. destruct (String.eqb (getTopic m) name).
    + destruct (nth i (init st) false); [eauto|].
      destruct (instantiateCameraInfo m); eauto.
    + apply IH. intros i' Hi'. apply Hin. now right.
  - apply nth_error_None in E. specialize (Hin i (or_introl eq_refl)). lia.
Qed.

(** The camera information of camera [k] initialises camera [k], when no
    camera before it has the same topic. *)
Lemma scanCameraInfo_hit (names : list string) (m : Message)
      (k : nat) (info : CameraInfo) (n : nat) :
  nth_error names k = Some (getTopic m) ->
  instantiateCameraInfo m = Some info ->
  forall (a : nat) (st st' : State),
    (a <= k < a + n)%nat ->
    (forall k', (a <= k' < k)%nat ->
                nth_error names k' <> Some (getTopic m)) ->
    (k < List.length (init st))%nat ->
    scanCameraInfo names m (seq a n) st = Ok st' ->
    nth k (init st') false = true.
Proof.
  intros Hk Hinfo. induction n as [|n IH]; intros a st st' Hr Hfirst Hlen H;
    [lia|].
  cbn [seq scanCameraInfo] in H. unfold at_ in H.
  destruct (nth_error names a) as [name|] eqn:Ea; cbn [bind] in H;
    [|discriminate].
  destruct (String.eqb (getTopic m) name) eqn:Et.
  - apply String.eqb_eq in Et. subst name.
    assert (a = k).
    { destruct (Nat.eq_dec a k) as [|Hne]; [assumption|].
      exfalso. apply (Hfirst a); [lia | assumption]. }
    subst a.
    destruct (nth k (init st) false) eqn:Eb; [inversion H; subst; auto|].
    rewrite Hinfo in H. inversion H. cbn. now apply setBit_same.
  - apply String.eqb_neq in Et.
    assert (a <> k) by (intros ->; congruence).
    apply (IH (S a) st st'); auto; try lia.
    intros k' Hk'. apply Hfirst. lia.
Qed.

Lemma count_full (l : list bool) (k : nat) :
  count l = List.length l -> (k < List.length l)%nat ->
  nth k l false = true.
Proof.
  intros Hc Hk. destruct (nth k l false) eqn:E; [reflexivity|].
  pose proof (count_lt k l Hk E). lia.
Qed.

Lemma full_count (l : list bool) :
  (forall k, (k < List.length l)%nat -> nth k l false = true) ->
  count l = List.length l.
Proof.
  induction l as [|b l IH]; intros H; [reflexivity|].
  pose proof (H 0%nat ltac:(cbn; lia)) as H0. cbn in H0. subst b.
  unfold count in *. cbn. f_equal. apply IH.
  intros k Hk. apply (H (S k)). cbn. lia.
Qed.

Lemma scanCameraInfo_length (names : list string) (m : Message) (n a : nat)
      (st st' : State) :
  scanCameraInfo names m (seq a n) st = Ok st' ->
  List.length (init st') = List.length (init st)
  /\ forall i, nth i (init st) false = true -> nth i (init st') false = true.
Proof.
  intros H. apply scanCameraInfo_seq in H
    as [->|(k & info & _ & _ & _ & _ & _ & ->)]; [auto|].
  cbn. split; [apply setBit_length|]. intros i. apply setBit_keeps.
Qed.

(** On four cameras with distinct topics, with a calibration object that
    initialises and no interruption, the loop runs to its end or to its
    [break], and unless the calibration object exists by then, every camera
    whose information was among the messages is initialised. *)
Lemma replay_completes (env : Environment) (ns : list (list string))
      (camInfo camImage : list string) (imuTopic : string)
      (view : list Message) :
  cameraCount ns = N_CAMERAS ->
  List.length camInfo = N_CAMERAS ->
  List.length camImage = N_CAMERAS ->
  NoDup camInfo ->
  scInit env = true ->
  (forall k, rosOk env k = true) ->
  forall (k : nat) (st : State),
    List.length (init st) = N_CAMERAS ->
    (count (init st) = N_CAMERAS -> sc st = true) ->
    exists k' st',
      replay toCvShare syncAdd env ns camInfo camImage imuTopic view k st
      = Finished k' st'
      /\ List.length (init st') = N_CAMERAS
      /\ (count (init st') = N_CAMERAS -> sc st' = true)
      /\ (sc st = true -> sc st' = true)
      /\ (sc st' = true
          \/ ((forall i, nth i (init st) false = true ->
                         nth i (init st') false = true)
              /\ forall m i info,
                  In m view ->
                  nth_error camInfo i = Some (getTopic m) ->
                  instantiateCameraInfo m = Some info ->
                  nth i (init st') false = true)).
Proof.
  intros Hn Hci Him Hnd Hinit Hok.
  assert (Hidx : forall names : list string,
             List.length names = N_CAMERAS ->
             forall i, In i (seq 0 N_CAMERAS) ->
                       (i < List.length names)%nat).
  { intros names Hl i Hi. apply in_seq in Hi. lia. }
  induction view as [|m view IH]; intros k st Hlen Hsc; cbn [replay].
  - exists k, st.
    split; [reflexivity|]. split; [assumption|]. split; [assumption|].
    split; [auto|]. right. split; [auto|].
    intros m i info [].
  - rewrite Hok. cbn [negb]. unfold replayBody.
    destruct (count (init st) <? N_CAMERAS)%nat eqn:Ec.
    + destruct (scanCameraInfo_total camInfo m (seq 0 N_CAMERAS)
                  (Hidx _ Hci) st) as (st1 & E).
      rewrite E.
      destruct (scanCameraInfo_length _ _ _ _ _ _ E) as [Hl1 Hmono1].
      pose proof E as Hsc1. apply scanCameraInfo_sc in Hsc1.
      assert (Hhit : forall i info,
                 nth_error camInfo i = Some (getTopic m) ->
                 instantiateCameraInfo m = Some info ->
                 nth i (init st1) false = true).
      { intros i info Hi Hinfo.
        assert (Hi4 : (i < N_CAMERAS)%nat).
        { rewrite <- Hci. apply nth_error_Some. congruence. }
        apply (scanCameraInfo_hit camInfo m i info N_CAMERAS Hi Hinfo
                 0%nat st st1); try lia; [|assumption].
        intros k' Hk' Hk'eq.
        assert (k' = i); [|lia].
        apply (proj1 (NoDup_nth_error camInfo) Hnd); [lia | congruence]. }
      destruct (count (init st1) =? N_CAMERAS)%nat eqn:E4.
      * rewrite Hn, Nat.ltb_irrefl, Hinit. cbn [negb].
        destruct (IH (S k) (registerCallback (emit [EvConfigureRig ns] st1)))
          as (k' & st' & Hr & A & B & C & D); [cbn; lia | reflexivity|].
        exists k', st'. rewrite Hr. specialize (C eq_refl).
        repeat split; auto.
      * apply Nat.eqb_neq in E4.
        destruct (IH (S k) st1) as (k' & st' & Hr & A & B & C & D);
          [lia | tauto|].
        exists k', st'. rewrite Hr.
        split; [reflexivity|]. split; [assumption|]. split; [assumption|].
        split; [intros Ht; apply C; congruence|].
        destruct D as [D|[D1 D2]]; [auto|]. right. split; [auto|].
        intros m' i info [<-|Hin] Hi Hinfo; [|eauto].
        apply D1. eauto.
    + apply Nat.ltb_ge in Ec. pose proof (count_le (init st)) as Hle.
      assert (Htrue : sc st = true) by (apply Hsc; lia).
      destruct (readIntermediateData env).
      * exists k, st. repeat split; auto.
      * destruct (forwardImages_total _ _ _ _ _ toCvShare syncAdd camImage m
                    (seq 0 N_CAMERAS) (Hidx _ Him) st) as (st1 & E).
        rewrite E.
        pose proof (forwardImages_init _ _ _ _ _ E) as Hi1.
        pose proof E as Hsc1. apply forwardImages_sc in Hsc1.
        assert (Hnext : exists st2,
                   (if String.eqb (getTopic m) imuTopic
                    then match instantiateImu m with
                         | Some imu => Next (pushImu imu st1)
                         | None => Next st1
                         end
                    else Next st1) = Next st2
                   /\ init st2 = init st /\ sc st2 = true).
        { destruct (String.eqb (getTopic m) imuTopic);
            [destruct (instantiateImu m)|]; eexists; split;
            try reflexivity; cbn; split; congruence. }
        destruct Hnext as (st2 & -> & Hi2 & Hsc2).
        destruct (IH (S k) st2) as (k' & st' & Hr & A & B & C & D);
          [congruence | auto|].
        exists k', st'. rewrite Hr. repeat split; auto.
Qed.

(** X24: a run that completes.  With a configuration of four cameras on
    distinct namespaces, a bag that opens and holds the camera information
    of each camera, a calibration object that initialises, intermediate
    data (if asked for) that loads, and no interruption, [main] exits with
    status 0. *)
Theorem calibration_completes (env : Environment)
        (messages : list Message) :
  let r := parseConfigFile (configFile env) in
  let ns := cameraNs (final r) in
  let names := topicNames "/camera_info" ns in
  help env = false ->
  accepted r = true ->
  cameraCount ns = N_CAMERAS ->
  NoDup names ->
  bagOpen env = BagOpened messages ->
  (readIntermediateData env = true -> readFromTextFile env = true) ->
  scInit env = true ->
  (forall k, rosOk env k = true) ->
  (forall name, In name names ->
     exists info, In (mkMessage name (PCameraInfo info)) messages) ->
  fst (main toCvShare syncEmpty syncAdd env) = Exit 0.
Proof.
  intros r ns names Hhelp Hacc Hn Hnd Hbag Hint Hinit Hok Hinfo.
  unfold main. rewrite Hhelp. fold r. rewrite Hacc. cbn [negb].
  fold ns. rewrite Hbag, Hn. cbn [makeSynchronizer seq at_ nth_error bind].
  unfold N_CAMERAS at 1. cbn [seq nth_error bind].
  assert (Hri : readIntermediateData env && negb (readFromTextFile env)
                = false).
  { destruct (readIntermediateData env); [|reflexivity].
    now rewrite Hint. }
  rewrite Hri. fold names.
  set (view := filter _ messages).
  destruct (replay_completes env ns names (topicNames "/image_raw" ns)
              (imuTopicName (final r)) view Hn
              ltac:(unfold names; rewrite topicNames_length; exact Hn)
              ltac:(rewrite topicNames_length; exact Hn)
              Hnd Hinit Hok 0%nat
              (initialLoopState syncEmpty
                 (map EvRosError (rosErrors (final r))))
              eq_refl ltac:(cbn; discriminate))
    as (k' & st' & Hr & Hlen & Hsc & _ & Hdone).
  rewrite Hr, Hok. cbn [negb].
  assert (Htrue : sc st' = true).
  { destruct Hdone as [H|[_ Hbits]]; [assumption|].
    apply Hsc. rewrite <- Hlen. apply full_count.
    intros i Hi. rewrite Hlen in Hi.
    assert (Hi' : (i < List.length names)%nat)
      by (unfold names; rewrite topicNames_length; lia).
    destruct (nth_error names i) as [name|] eqn:En;
      [|apply nth_error_None in En; lia].
    destruct (Hinfo name (nth_error_In _ _ En)) as (info & Hm).
    apply (Hbits (mkMessage name (PCameraInfo info)) i info);
      [|exact En|reflexivity].
    unfold view. apply filter_In. split; [assumption|].
    apply existsb_exists. exists name. split; [|apply String.eqb_refl].
    apply in_or_app. left. eapply nth_error_In; eauto. }
  rewrite Htrue. reflexivity.
Qed.

(** X20: [main] exits with status 0 only on an accepted configuration of
    exactly four cameras: with fewer the synchronizer cannot be built, with
    more the rig set-up meets a camera that was never generated. *)
Theorem success_needs_four_cameras (env : Environment) :
  fst (main toCvShare syncEmpty syncAdd env) = Exit 0 ->
  let r := parseConfigFile (configFile env) in
  accepted r = true /\ cameraCount (cameraNs (final r)) = N_CAMERAS.
Proof.
  exact (exit_zero_four_cameras _ _ _ _ _ toCvShare syncEmpty syncAdd env).
Qed.

End NodeExtras.

(** *** The further properties on the concrete rig *)

Lemma voCallback_latest_witness :
  voCallback (CameraInfo := unit) demoConvert
             (demoFrame 1) (demoFrame 2) (demoFrame 3) (demoFrame 4)
             ([demoSample 11 5; (mkTime 12 500, 6%nat)]
              ++ (mkTime 12 500, 7%nat) :: [demoSample 13 8])
  = [EvProcessFrames (mkTime 12 500) [1; 2; 3; 4]%nat (mkTime 12 500, 7%nat)].
Proof.
  apply (voCallback_latest nat nat nat unit demoConvert
           (demoFrame 1) (demoFrame 2) (demoFrame 3) (demoFrame 4)).
  - reflexivity.
  - intros x [<-|[]]. discriminate.
  - reflexivity.
Defined.

Lemma voCallback_skip_reason_witness :
  voCallback (Mat := nat) (CameraInfo := unit) demoConvert
             (demoFrame 0) (demoFrame 2) (demoFrame 3) (demoFrame 4)
             [demoSample 11 5]
  = [EvRosWarn "No IMU message with matching timestamp."].
Proof.
  apply (voCallback_skip_reason nat nat nat unit demoConvert).
  intros (imu & [<-|[]] & H). discriminate H.
Defined.

Lemma evicted_sample_skips_frame_witness :
  voCallback (Mat := nat) (CameraInfo := unit) demoConvert
             (demoFrame 1) (demoFrame 2) (demoFrame 3) (demoFrame 4)
             (pushAll [(mkTime 12 500, 7%nat)] (repeat (demoSample 13 8) 50))
  = [EvRosWarn "No IMU message with matching timestamp."].
Proof.
  apply (evicted_sample_skips_frame nat nat nat unit demoConvert).
  - cbn. lia.
  - rewrite repeat_length. lia.
  - intros x Hx. apply repeat_spec in Hx. subst x. discriminate.
Defined.

Lemma before_init_ignored_witness :
  imuBuffer demoStart = imuBuffer demoStart
  /\ sync demoStart = sync demoStart
  /\ exists es, trace demoStart = (trace demoStart ++ es)%list
                /\ forallb (fun e => negb (isVisualOdometry e)) es = true.
Proof.
  apply (before_init_ignored nat nat nat unit unit demoConvert demoSyncAdd
           successEnv demoNamespaces
           (topicNames "/camera_info" demoNamespaces)
           (topicNames "/image_raw" demoNamespaces) "/imu"
           demoStart demoStart
           (mkMessage "/imu" (PImu (demoSample 1 7)))).
  - vm_compute. lia.
  - reflexivity.
Defined.

Lemma init_step_witness :
  let st' := markInit 0 (emit [EvGenerateCamera 0 tt] demoStart) in
  let names := topicNames "/camera_info" demoNamespaces in
  init st' = init demoStart
  \/ exists k,
      (k < N_CAMERAS)%nat
      /\ nth k (init demoStart) false = false
      /\ nth_error names k = Some "/cam0/camera_info"
      /\ (forall k', (k' < k)%nat ->
                     nth_error names k' <> Some "/cam0/camera_info")
      /\ init st' = setBit k (init demoStart).
Proof.
  apply (init_step nat nat nat unit unit demoConvert demoSyncAdd
           successEnv demoNamespaces
           (topicNames "/camera_info" demoNamespaces)
           (topicNames "/image_raw" demoNamespaces) "/imu"
           demoStart
           (markInit 0 (emit [EvGenerateCamera 0 tt] demoStart))
           (mkMessage "/cam0/camera_info" (PCameraInfo tt))).
  reflexivity.
Defined.


Lemma init_failure_fatal_witness :
  fst (demoMain initFailureEnv) <> Exit 0.
Proof.
  apply (init_failure_fatal nat nat nat unit unit demoConvert tt demoSyncAdd
           initFailureEnv).
  reflexivity.
Defined.

Lemma intermediate_skips_odometry_witness :
  forallb (fun e => negb (isVisualOdometry e))
          (snd (demoMain intermediateEnv)) = true.
Proof.
  apply (intermediate_skips_odometry nat nat nat unit unit demoConvert tt
           demoSyncAdd intermediateEnv).
  reflexivity.
Defined.

Lemma duplicate_namespace_never_completes_witness :
  match replay demoConvert demoSyncAdd sharedNamespaceEnv
               [["/a"; "/a"]; ["/b"; "/c"]]
               ["/a/camera_info"; "/a/camera_info";
                "/b/camera_info"; "/c/camera_info"]
               ["/a/image_raw"; "/a/image_raw";
                "/b/image_raw"; "/c/image_raw"]
               "/i"
               [mkMessage "/a/camera_info" (PCameraInfo tt);
                mkMessage "/a/camera_info" (PCameraInfo tt)]
               0 (initialLoopState tt []) with
  | Finished _ st' => nth 1 (init st') false = false /\ sc st' = false
  | Returned _ _ => False
  | Raised _ => True
  end
  /\ fst (demoMain sharedNamespaceEnv) <> Exit 0.
Proof.
  destruct (duplicate_namespace_never_completes nat nat nat unit unit
              demoConvert tt demoSyncAdd sharedNamespaceEnv 0 1
              "/a/camera_info") as (_ & A & B);
    [unfold N_CAMERAS; lia | reflexivity | reflexivity|].
  split; [|exact B].
  exact (A [mkMessage "/a/camera_info" (PCameraInfo tt);
            mkMessage "/a/camera_info" (PCameraInfo tt)] []).
Defined.

Lemma success_needs_four_cameras_witness :
  accepted (parseConfigFile (Some exampleConfig)) = true
  /\ cameraCount (cameraNs (final (parseConfigFile (Some exampleConfig))))
     = N_CAMERAS.
Proof.
  apply (success_needs_four_cameras nat nat nat unit unit demoConvert tt
           demoSyncAdd successEnv).
  vm_compute. reflexivity.
Defined.

Lemma buffer_holds_latest_witness :
  match replay demoConvert demoSyncAdd successEnv demoNamespaces
               (topicNames "/camera_info" demoNamespaces)
               (topicNames "/image_raw" demoNamespaces) "/imu"
               [mkMessage "/imu" (PImu (demoSample 1 7));
                mkMessage "/other" (PImu (demoSample 2 8));
                mkMessage "/imu" (PImu (demoSample 3 9))]
               0 demoReady with
  | Finished k' st' =>
      let replayed :=
        firstn (k' - 0)
               [mkMessage (CameraInfo := unit) (Pixels := nat)
                          "/imu" (PImu (demoSample 1 7));
                mkMessage "/other" (PImu (demoSample 2 8));
                mkMessage "/imu" (PImu (demoSample 3 9))] in
      let all := (imuBuffer demoReady ++ imuSamples "/imu" replayed)%list in
      imuBuffer st' = skipn (List.length all - 50) all
  | Returned _ _ => False
  | Raised _ => True
  end.
Proof.
  apply (buffer_holds_latest nat nat nat unit unit demoConvert demoSyncAdd
           successEnv).
  - reflexivity.
  - vm_compute. lia.
  - vm_compute. lia.
Defined.

Lemma calibration_completes_witness :
  fst (demoMain successEnv) = Exit 0.
Proof.
  apply (calibration_completes nat nat nat unit unit demoConvert tt
           demoSyncAdd successEnv fourCameraBag).
  - reflexivity.
  - vm_compute. reflexivity.
  - vm_compute. reflexivity.
  - change (NoDup ["/cam0/camera_info"; "/cam1/camera_info";
                   "/cam2/camera_info"; "/cam3/camera_info"]).
    repeat constructor; cbn; intuition discriminate.
  - reflexivity.
  - discriminate.
  - reflexivity.
  - reflexivity.
  - intros name Hin. exists tt.
    change (In name ["/cam0/camera_info"; "/cam1/camera_info";
                     "/cam2/camera_info"; "/cam3/camera_info"]) in Hin.
    destruct Hin as [<-|[<-|[<-|[<-|[]]]]]; cbn; auto.
Defined.

Example c_str_example :
  c_str ("lidar" ++ String Ascii.zero "x") = "lidar".
Proof. reflexivity. Qed.

Example exception_keeps_events :
  demoMain fiveCameraEnv
  = (Uncaught null_pointer,
     [EvGenerateCamera 0 tt; EvGenerateCamera 1 tt;
      EvGenerateCamera 2 tt; EvGenerateCamera 3 tt]).
Proof. vm_compute. reflexivity. Qed.

Example parse_example :
  let r := parseConfigFile (Some ("stereo /a /b" ++ nl ++ "imu /i")) in
  (accepted r, cameraNs (final r), imuTopicName (final r))
  = (true, [["/a"; "/b"]], "/i").
Proof. vm_compute. reflexivity. Qed.

Example slip_example :
  let r := parseConfigFile (Some ("stereo /a" ++ nl ++ "imu" ++ nl)) in
  (accepted r, cameraNs (final r), imuTopicName (final r))
  = (true, [["/a"; "/a"]], "imu").
Proof. vm_compute. reflexivity. Qed.

Example decl_example :
  map declarationOf ["stereo /a /b"; "Mono x"; "imu"; "imu  x"; ""; "IMU /i"]
  = [Some (DStereo "/a" "/b"); Some (DMono "x"); None; None; None; Some (DImu "/i")].
Proof. vm_compute. reflexivity. Qed.

Example topics_example :
  map topicsOf ["stereo /a /b"; "Mono x"; "imu"; "imu  x"; ""; "IMU /i "; "stereo a "]
  = [Some ["/a"; "/b"]; Some ["x"]; Some ["imu"]; Some [""]; None; Some ["/i"]; None].
Proof. vm_compute. reflexivity. Qed.

